(** * ContentForge: the batch client and the document rendering pipeline

    A shallow embedding of the parts of the generator that carry its
    behaviour: the text helpers ([utils/text.py]), the two renderers
    ([generators/markdown.py], [generators/html.py]), the prompt
    builders ([generators/prompts.py]), the retrying client
    ([api/client.py]), the validation of a configuration
    ([core/config.py]), the data models ([core/models.py]) and the
    task construction and filing of results of [main.py]. *)

From stdpp Require Import base tactics option list gmap.
From Stdlib Require Import NArith ZArith Ascii DecimalString SpecFloat Lia.
From Stdlib Require String DecimalPos DecimalZ.
Import String.StringSyntax.

Local Open Scope N_scope.

(** ** Python strings

    A Python [str] is a sequence of Unicode code points.  It is modelled
    as a list of code points, so that [len], slicing and [strip] mean what
    they mean in the interpreter. *)

Module Py.

Abbreviation char := N (only parsing).
Abbreviation str := (list N) (only parsing).

(** Literals are written as Rocq strings, decoded from UTF-8. *)
Fixpoint utf8_decode (bs : list N) : str :=
  match bs with
  | [] => []
  | b :: r1 =>
    if b <? 0x80 then b :: utf8_decode r1
    else match r1 with
    | [] => [b]
    | c1 :: r2 =>
      if b <? 0xE0 then ((b - 0xC0) * 64 + (c1 - 0x80)) :: utf8_decode r2
      else match r2 with
      | [] => [b]
      | c2 :: r3 =>
        if b <? 0xF0
        then ((b - 0xE0) * 4096 + (c1 - 0x80) * 64 + (c2 - 0x80)) :: utf8_decode r3
        else match r3 with
        | [] => [b]
        | c3 :: r4 =>
          ((b - 0xF0) * 262144 + (c1 - 0x80) * 4096 + (c2 - 0x80) * 64 + (c3 - 0x80))
            :: utf8_decode r4
        end
      end
    end
  end.

(** Escapes: a backslash followed by [n] is a line feed, followed by
    [q] a double quote (which a Rocq string cannot hold as it is), and
    followed by any other character that character. *)
Fixpoint unescape (s : str) : str :=
  match s with
  | c :: s' =>
    if c =? 0x5C then
      match s' with
      | e :: s'' =>
        (if e =? 0x6E then 0x0A else if e =? 0x71 then 0x22 else e) :: unescape s''
      | [] => [c]
      end
    else c :: unescape s'
  | [] => []
  end.

Definition lit (s : String.string) : str :=
  unescape (utf8_decode (N_of_ascii <$> String.list_ascii_of_string s)).

(** [str.isspace] on one character: the code points the interpreter
    treats as whitespace, which are the ones [str.strip()] removes. *)
Definition isspace (c : char) : bool :=
  ((0x09 <=? c) && (c <=? 0x0D)) || ((0x1C <=? c) && (c <=? 0x20))
  || (c =? 0x85) || (c =? 0xA0) || (c =? 0x1680)
  || ((0x2000 <=? c) && (c <=? 0x200A))
  || (c =? 0x2028) || (c =? 0x2029) || (c =? 0x202F) || (c =? 0x205F)
  || (c =? 0x3000).

Fixpoint lstrip (s : str) : str :=
  match s with
  | c :: s' => if isspace c then lstrip s' else s
  | [] => []
  end.

Definition rstrip (s : str) : str := reverse (lstrip (reverse s)).

(** [s.strip()] *)
Definition strip (s : str) : str := rstrip (lstrip s).

(** [s.split(sep)] for a one-character separator: never empty, the empty
    string splits to one empty field. *)
Fixpoint split (sep : char) (s : str) : list str :=
  match s with
  | [] => [[]]
  | c :: s' =>
    if c =? sep then [] :: split sep s'
    else match split sep s' with
         | f :: fs => (c :: f) :: fs
         | [] => [[c]]
         end
  end.

(** [sep.join(parts)] *)
Fixpoint join (sep : str) (parts : list str) : str :=
  match parts with
  | [] => []
  | [p] => p
  | p :: ps => p ++ sep ++ join sep ps
  end.

(** [c in s] for a one-character [c] *)
Definition contains (c : char) (s : str) : bool := existsb (N.eqb c) s.

(** [s.startswith(p)] *)
Fixpoint startswith (p s : str) : bool :=
  match p, s with
  | [], _ => true
  | a :: p', b :: s' => (a =? b) && startswith p' s'
  | _ :: _, [] => false
  end.

(** [s.startswith((p1, p2, ...))] *)
Definition startswith_any (ps : list str) (s : str) : bool :=
  existsb (fun p => startswith p s) ps.

(** [needle in hay] *)
Fixpoint in_str (needle hay : str) : bool :=
  startswith needle hay
  || match hay with
     | [] => false
     | _ :: hay' => in_str needle hay'
     end.

(** [s * n] *)
Definition repeat_str (s : str) (n : nat) : str := List.concat (replicate n s).

(** Decimal digits ([Nd]) known to the interpreter, as the code points of
    their zeros (Unicode 14.0, CPython 3.11); each block holds the ten
    digits 0..9 in order.  [int()] accepts all of them. *)
Definition decimal_zeros : list N :=
  [0x30; 0x660; 0x6F0; 0x7C0; 0x966; 0x9E6; 0xA66; 0xAE6; 0xB66; 0xBE6;
   0xC66; 0xCE6; 0xD66; 0xDE6; 0xE50; 0xED0; 0xF20; 0x1040; 0x1090; 0x17E0;
   0x1810; 0x1946; 0x19D0; 0x1A80; 0x1A90; 0x1B50; 0x1BB0; 0x1C40; 0x1C50;
   0xA620; 0xA8D0; 0xA900; 0xA9D0; 0xA9F0; 0xAA50; 0xABF0; 0xFF10; 0x104A0;
   0x10D30; 0x11066; 0x110F0; 0x11136; 0x111D0; 0x112F0; 0x11450; 0x114D0;
   0x11650; 0x116C0; 0x11730; 0x118E0; 0x11950; 0x11C50; 0x11D50; 0x11DA0;
   0x16A60; 0x16AC0; 0x16B50; 0x1D7CE; 0x1D7D8; 0x1D7E2; 0x1D7EC; 0x1D7F6;
   0x1E140; 0x1E2F0; 0x1E950; 0x1FBF0].

Definition digit_value (c : char) : option Z :=
  match List.find (fun z => (z <=? c) && (c <? z + 10)) decimal_zeros with
  | Some z => Some (Z.of_N (c - z))
  | None => None
  end.

(** The digits of a base-10 literal after the sign: a digit first, then
    digits, each optionally preceded by one underscore.  [acc] is the
    value read so far, [after_digit] tells whether the previous character
    was a digit (an underscore is legal only there and never last). *)
Fixpoint int_digits (acc : Z) (after_digit : bool) (s : str) : option Z :=
  match s with
  | [] => if after_digit then Some acc else None
  | c :: s' =>
    if c =? 0x5F (* _ *) then
      if after_digit then int_digits acc false s' else None
    else match digit_value c with
         | Some d => int_digits (10 * acc + d) true s'
         | None => None
         end
  end.

(** [int(s)] for a [str] argument in base 10; [None] stands for
    [ValueError].  Surrounding whitespace is ignored, one sign is
    allowed.  The interpreter's configurable limit on the number of
    digits is outside the model. *)
Definition int (s : str) : option Z :=
  match strip s with
  | c :: s' =>
    if c =? 0x2D (* - *) then Z.opp <$> int_digits 0 false s'
    else if c =? 0x2B (* + *) then int_digits 0 false s'
    else int_digits 0 false (c :: s')
  | [] => None
  end.

(** [str(n)] for an [int] *)
Definition str_of_int (n : Z) : str :=
  lit (NilZero.string_of_int (Z.to_int n)).


(** [s.rfind(c)] for a one-character [c]: the highest index of [c] in
    [s], or -1.  [i] is the index of the head of [s], [found] the result
    so far. *)
Fixpoint rfind_from (c : char) (s : str) (i found : Z) : Z :=
  match s with
  | [] => found
  | x :: s' => rfind_from c s' (i + 1)%Z (if x =? c then i else found)
  end.

Definition rfind (c : char) (s : str) : Z := rfind_from c s 0%Z (-1)%Z.

(** [s[:stop]]: a negative [stop] counts from the end, and the bounds
    are clipped to the string. *)
Definition slice_to (s : str) (stop : Z) : str :=
  if (stop <? 0)%Z then take (Z.to_nat (Z.of_nat (length s) + stop)) s
  else take (Z.to_nat stop) s.

(** ** Floats

    A Python [float] is an IEEE 754 binary64 number. *)

(** [float(n)] as the arithmetic converts an [int] operand: the nearest
    double, ties to even; [None] stands for [OverflowError], raised when
    that would be an infinity, that is from 2^1024 - 2^970 on. *)
Definition float_of_int (n : Z) : option spec_float :=
  if (Z.abs n <? 2 ^ 1024 - 2 ^ 970)%Z then Some (binary_normalize 53 1024 n 0 false)
  else None.

(** [x * y] on floats *)
Definition float_mul (x y : spec_float) : spec_float := SFmul 53 1024 x y.

(** The literal [0.7]: the double nearest to 7/10, which is
    6305039478318694 / 2^53. *)
Definition seven_tenths : spec_float := S754_finite false 6305039478318694 (-53).

(** [n > x] for an [int] and a [float]: the interpreter compares the two
    numbers exactly, without converting the integer. *)
Definition int_gt_float (n : Z) (x : spec_float) : bool :=
  match x with
  | S754_zero _ => (0 <? n)%Z
  | S754_infinity s => s
  | S754_nan => false
  | S754_finite s m e =>
    let v := if s then Z.neg m else Z.pos m in
    if (0 <=? e)%Z then (v * 2 ^ e <? n)%Z else (v <? n * 2 ^ (- e))%Z
  end.

End Py.

Import Py.

(** String literals stand for the [str] they spell. *)
Coercion Py.lit : String.string >-> list.
Arguments cons {_} & _ _.
Arguments pair {_ _} & _ _.

Local Open Scope string_scope.
Local Open Scope list_scope.
Local Open Scope Z_scope.

(** [enumerate(l)] *)
Definition enumerate {A} (l : list A) : list (nat * A) :=
  zip (seq 0 (length l)) l.

(** [not l] for a list or a string *)
Definition is_empty {A} (l : list A) : bool :=
  match l with [] => true | _ => false end.

(** ** The [re] calls of the renderers

    [re.compile(re.escape(keyword), re.IGNORECASE)] is a pattern that
    matches the characters of [keyword] one after the other, each
    case-insensitively.  The interpreter's table of case-equivalent
    characters is a parameter: [ieq p c] tells whether the text character
    [c] matches the pattern character [p]. *)

Module Re.
Section Sub.

Variable ieq : char -> char -> bool.

(** The pattern matches at the head of [text]. *)
Fixpoint match_here (keyword text : str) : bool :=
  match keyword, text with
  | [], _ => true
  | p :: keyword', c :: text' => ieq p c && match_here keyword' text'
  | _ :: _, [] => false
  end.

(** [pattern.sub(repl, text)]: scan from the left; at a match, emit
    [repl] of the matched text and go on behind it; elsewhere copy one
    character.  An empty pattern matches (emptily) once at every
    position, the end included.  Each turn consumes a character, so
    [fuel] above the length of [text] is never used up. *)
Fixpoint sub_from (fuel : nat) (repl : str -> str) (keyword text : str) : str :=
  match fuel with
  | O => text
  | S fuel' =>
    if match_here keyword text then
      match keyword with
      | [] =>
        repl [] ++ match text with
                   | [] => []
                   | c :: text' => c :: sub_from fuel' repl keyword text'
                   end
      | _ :: _ =>
        repl (take (length keyword) text)
          ++ sub_from fuel' repl keyword (drop (length keyword) text)
      end
    else
      match text with
      | [] => []
      | c :: text' => c :: sub_from fuel' repl keyword text'
      end
  end.

Definition sub (repl : str -> str) (keyword text : str) : str :=
  sub_from (S (length text)) repl keyword text.

End Sub.

(** The table restricted to ASCII: letters match whatever their case,
    any other character matches itself.  It instantiates [ieq] where a
    concrete text is run. *)
Definition ascii_ieq (p c : char) : bool :=
  let lower x := if ((0x41 <=? x) && (x <=? 0x5A))%N then (x + 32)%N else x in
  (lower p =? lower c)%N.


(** ** The fence pattern of [core/constants.py]

    [MARKDOWN_FENCE_PATTERN = re.compile(r'```\w*\s*')]: three backticks,
    then as many word characters as follow, then as much whitespace as
    follows.  Both stars are greedy and nothing follows them, so the
    match at a position is unique.  [\s] is [str.isspace]; [\w] is the
    interpreter's table of alphanumeric characters and the underscore,
    a parameter here. *)
Section Fence.

Variable isword : char -> bool.

(** [s] from its first character that fails [p] on. *)
Fixpoint skip (p : char -> bool) (s : str) : str :=
  match s with
  | c :: s' => if p c then skip p s' else s
  | [] => []
  end.

(** The pattern matches at the head of [text]: what follows the match. *)
Definition fence_here (text : str) : option str :=
  if startswith [0x60; 0x60; 0x60]%N text
  then Some (skip isspace (skip isword (drop 3 text)))
  else None.

(** [MARKDOWN_FENCE_PATTERN.sub('', text)]: scan from the left; at a
    match go on behind it, elsewhere copy one character.  A match is
    never empty, so [fuel] above the length of [text] is never used
    up. *)
Fixpoint fence_sub_from (fuel : nat) (text : str) : str :=
  match fuel with
  | O => text
  | S fuel' =>
    match fence_here text with
    | Some rest => fence_sub_from fuel' rest
    | None =>
      match text with
      | [] => []
      | c :: text' => c :: fence_sub_from fuel' text'
      end
    end
  end.

Definition fence_sub (text : str) : str := fence_sub_from (S (length text)) text.

End Fence.

(** The word characters of ASCII: letters, digits and the underscore. *)
Definition ascii_isword (c : char) : bool :=
  (((0x30 <=? c) && (c <=? 0x39)) || ((0x41 <=? c) && (c <=? 0x5A))
   || ((0x61 <=? c) && (c <=? 0x7A)) || (c =? 0x5F))%N.

End Re.

(** ** core/models.py *)

Module Models.

Record TableColumn := {
  name : str;
  header : str;
  placeholder : str;
  type : str;          (* "text" or "stars" *)
}.

Record TableRow := { values : gmap str str }.

Record Section_ := {
  heading : str;
  words : Z;
}.

Record TableConfig := {
  enabled : bool;
  rows : Z;
  columns : list TableColumn;
}.

Record PlaceholderConfig := {
  item_prefix : str;
  value_prefix : str;
}.

Record SiteConfig := {
  site_name : str;
  url : str;
  author : str;
}.

(** [keyword_density], a float the prompts never read, is left out. *)
Record SEOConfig := {
  primary_keyword : str;
  secondary_keywords : list str;
  tone : str;
  target_audience : str;
}.

Record ContentConfig := {
  title : str;
  intro_words : Z;
  conclusion_words : Z;
  sections : list Section_;
  table : TableConfig;
  model : str;
  placeholders : PlaceholderConfig;
  seo : SEOConfig;
  site : SiteConfig;
  system_prompt : str;
  output : str;
  language : str;
}.

(** [ContentConfig.headings] *)
Definition headings (config : ContentConfig) : list str :=
  heading <$> sections config.

(** [TableRow.get]: [self.values.get(column_name, default)] *)
Definition get (row : TableRow) (column_name default : str) : str :=
  match values row !! column_name with Some v => v | None => default end.

(** A dict display [{k1: v1, k2: v2, ...}]: later items win. *)
Definition dict (items : list (str * str)) : gmap str str :=
  foldl (fun d '(k, v) => <[k := v]> d) ∅ items.


(** [TableConfig.get_default_columns] *)
Definition get_default_columns (self : TableConfig) : list TableColumn :=
  [ {| name := "item"; header := "Item"; placeholder := "ITEM"; type := "text" |};
    {| name := "value"; header := "Value"; placeholder := "VALUE"; type := "text" |};
    {| name := "feature"; header := "Feature"; placeholder := "FEATURE"; type := "text" |};
    {| name := "rating"; header := "Rating"; placeholder := "RATING"; type := "stars" |} ].

(** [SEOConfig.all_keywords] *)
Definition all_keywords (self : SEOConfig) : list str :=
  let keywords : list str := [] in
  let keywords :=
    if is_empty (primary_keyword self) then keywords
    else keywords ++ [primary_keyword self] in
  keywords ++ secondary_keywords self.

(** [sum(xs)] *)
Definition sum (xs : list Z) : Z := foldl Z.add 0 xs.

(** [ContentConfig.total_words] *)
Definition total_words (self : ContentConfig) : Z :=
  intro_words self + conclusion_words self + sum (words <$> sections self).

(** [ContentConfig.api_call_count] *)
Definition api_call_count (self : ContentConfig) : Z :=
  let base := 2 + Z.of_nat (length (sections self)) in
  if enabled (table self) && (0 <? rows (table self)) then base + 1 else base.

(** [GeneratedContent], in a name space of its own: its [sections] are
    texts, those of [ContentConfig] are section configurations. *)
Module Generated.
Record GeneratedContent := {
  intro : str;
  table_html : str;
  table_md : str;
  sections : list str;
  conclusion : str;
}.
End Generated.

End Models.

Import Models.

(** ** utils/text.py *)

Module Text.

(** One turn of the loop of [parse_table_data]: [rows] is the list built
    so far, [line] the next element of [raw_data.strip().split('\n')]. *)
Definition parse_line (columns : list TableColumn)
    (rows : list TableRow) (line : str) : list TableRow :=
  let line := strip line in
  if is_empty line || negb (contains 0x7C%N line) then rows    (* continue *)
  else
    let parts : list str := strip <$> split 0x7C%N line in
    if (length columns <=? length parts)%nat then
      let values :=
        foldl (fun (values : gmap str str) '(i, col) =>
                 <[name col := if (i <? length parts)%nat
                               then nth i parts "" else ""]> values)
              ∅ (enumerate columns) in
      rows ++ [{| values := values |}]
    else rows.

Definition parse_table_data (raw_data : str) (columns : list TableColumn)
    : list TableRow :=
  foldl (parse_line columns) [] (split 0x0A%N (strip raw_data)).

(** [MARKDOWN_FENCE_PATTERN.sub('', text).strip()]; [isword] is the table
    of [\w]. *)
Definition clean_markdown_fences (isword : char -> bool) (text : str) : str :=
  strip (Re.fence_sub isword text).

(** [None] stands for the [OverflowError] of [max_chars * 0.7] on an
    integer beyond the floats. *)
Definition truncate_to_char_limit (content : str) (max_chars : Z)
    : option (str * bool) :=
  if Z.of_nat (length content) <=? max_chars then Some (content, false)
  else
    let truncated := slice_to content max_chars in
    let last_sentence_end :=
      Z.max (Z.max (rfind 0x2E%N truncated) (rfind 0x21%N truncated))
            (rfind 0x3F%N truncated) in
    max_chars' ← float_of_int max_chars;
    if int_gt_float last_sentence_end (float_mul max_chars' seven_tenths)
    then Some (slice_to truncated (last_sentence_end + 1), true)
    else Some (truncated, true).

End Text.

(** ** generators/markdown.py *)

Module Markdown.

Definition value_to_stars (value : str) : str :=
  match Py.int (strip value) with
  | Some num => repeat_str "⭐" (Z.to_nat (Z.min (Z.max num 1) 5))
  | None => value                                   (* except ValueError *)
  end.

(** The cells of one data row, in column order. *)
Definition row_values (columns : list TableColumn) (row : TableRow) : list str :=
  foldl (fun values col =>
           let value := get row (name col) "" in
           let value := if bool_decide (type col = "stars")
                        then value_to_stars value else value in
           values ++ [value])
        [] columns.

Definition build_table_md (rows : list TableRow) (columns : list TableColumn) : str :=
  if is_empty rows || is_empty columns then ""
  else
    let lines : list str := [] in
    let headers : list str := header <$> columns in
    let lines := lines ++ ["| " ++ join " | " headers ++ " |"] in
    let lines := lines ++ ["| " ++ join " | " (replicate (length columns) ("---" : str)) ++ " |"] in
    let lines :=
      foldl (fun lines row =>
               lines ++ ["| " ++ join " | " (row_values columns row) ++ " |"])
            lines rows in
    join "\n" lines.



Section Highlight.
Variable ieq : char -> char -> bool.

Definition highlight_keywords_md (text : str) (keywords : list str) : str :=
  if is_empty keywords then text
  else foldl (fun text keyword =>
                Re.sub ieq (fun m => "**" ++ m ++ "**") keyword text)
             text keywords.

(** The three buffers of [text_to_md]; [flush_para] and [flush_list] are
    the closures over them. *)
Record buffers := {
  paragraphs : list str;
  current_list : list str;
  current_para : list str;
}.

Definition flush_para (b : buffers) : buffers :=
  if is_empty (current_para b) then b
  else {| paragraphs := paragraphs b ++ [join " " (current_para b)];
          current_list := current_list b;
          current_para := [] |}.

Definition flush_list (b : buffers) : buffers :=
  if is_empty (current_list b) then b
  else
    let items := join "\n" ((fun item => "- " ++ item) <$> current_list b) in
    {| paragraphs := paragraphs b ++ [items];
       current_list := [];
       current_para := current_para b |}.

(** The body of the loop over [text.split('\n')]. *)
Definition step (b : buffers) (line : str) : buffers :=
  let line := strip line in
  if is_empty line then flush_list (flush_para b)           (* continue *)
  else if startswith_any ["• "; "- "; "* "] line then
    let b := flush_para b in
    {| paragraphs := paragraphs b;
       current_list := current_list b ++ [drop 2 line];
       current_para := current_para b |}
  else
    let b := flush_list b in
    {| paragraphs := paragraphs b;
       current_list := current_list b;
       current_para := current_para b ++ [line] |}.

Definition text_to_md (text : str) (keywords : option (list str)) : str :=
  let text := strip text in
  if is_empty text then ""
  else
    let b := {| paragraphs := []; current_list := []; current_para := [] |} in
    let b := foldl step b (split 0x0A%N text) in
    let b := flush_para b in
    let b := flush_list b in
    let md := join "\n\n" (paragraphs b) in
    match keywords with
    | Some (_ :: _ as keywords) => highlight_keywords_md md keywords
    | _ => md
    end.

(** [table_header] defaults to ["Comparison"] and [keywords] to
    [None]. *)
Definition build_full_md (title : str) (content : Generated.GeneratedContent)
    (headings : list str) (keywords : option (list str)) (table_header : str) : str :=
  let lines : list str :=
    ["# " ++ title; ""; text_to_md (Generated.intro content) keywords; ""] in
  let lines :=
    if negb (is_empty (Generated.table_md content))
       && negb (is_empty (strip (Generated.table_md content)))
    then lines ++ ["## " ++ table_header; ""; strip (Generated.table_md content); ""]
    else lines in
  let lines :=
    foldl (fun (lines : list str) '(heading, section_content) =>
             lines ++ ["## " ++ heading; ""; text_to_md section_content keywords; ""])
          lines (zip headings (Generated.sections content)) in
  let lines :=
    lines ++ ["## Conclusion"; ""; text_to_md (Generated.conclusion content) keywords] in
  join "\n" lines.

End Highlight.
End Markdown.

(** ** generators/html.py *)

Module Html.

Definition value_to_stars (value : str) : str :=
  match Py.int (strip value) with
  | Some num => repeat_str "⭐" (Z.to_nat (Z.min (Z.max num 1) 5))
  | None => value                                   (* except ValueError *)
  end.

Definition build_table_html (rows : list TableRow) (columns : list TableColumn) : str :=
  if is_empty rows || is_empty columns then ""
  else
    let lines : list str :=
      ["<table class=\qtable table-striped\q>"; "  <thead>"; "    <tr>"] in
    let lines :=
      foldl (fun lines col => lines ++ ["      <th>" ++ header col ++ "</th>"])
            lines columns in
    let lines := lines ++ ["    </tr>"; "  </thead>"; "  <tbody>"] in
    let lines :=
      foldl (fun (lines : list str) row =>
               let lines := lines ++ ["    <tr>"] in
               let lines :=
                 foldl (fun lines col =>
                          let value := get row (name col) "" in
                          let value := if bool_decide (type col = "stars")
                                       then value_to_stars value else value in
                          lines ++ ["      <td>" ++ value ++ "</td>"])
                       lines columns in
               lines ++ ["    </tr>"])
            lines rows in
    let lines := lines ++ ["  </tbody>"; "</table>"] in
    join "\n" lines.

Section Highlight.
Variable ieq : char -> char -> bool.

Definition highlight_keywords (text : str) (keywords : list str) : str :=
  if is_empty keywords then text
  else foldl (fun text keyword =>
                Re.sub ieq (fun m => "<b>" ++ m ++ "</b>") keyword text)
             text keywords.

Record buffers := {
  paragraphs : list str;
  current_list : list str;
  current_para : list str;
}.

Definition flush_para (b : buffers) : buffers :=
  if is_empty (current_para b) then b
  else {| paragraphs := paragraphs b ++ ["<p>" ++ join " " (current_para b) ++ "</p>"];
          current_list := current_list b;
          current_para := [] |}.

Definition flush_list (b : buffers) : buffers :=
  if is_empty (current_list b) then b
  else
    let items := join "\n" ((fun item => "  <li>" ++ item ++ "</li>") <$> current_list b) in
    {| paragraphs := paragraphs b ++ ["<ul>\n" ++ items ++ "\n</ul>"];
       current_list := [];
       current_para := current_para b |}.

Definition step (b : buffers) (line : str) : buffers :=
  let line := strip line in
  if is_empty line then flush_list (flush_para b)           (* continue *)
  else if startswith_any ["• "; "- "; "* "] line then
    let b := flush_para b in
    {| paragraphs := paragraphs b;
       current_list := current_list b ++ [drop 2 line];
       current_para := current_para b |}
  else
    let b := flush_list b in
    {| paragraphs := paragraphs b;
       current_list := current_list b;
       current_para := current_para b ++ [line] |}.

Definition text_to_html (text : str) (keywords : option (list str)) : str :=
  let text := strip text in
  if is_empty text then ""
  else
    let b := {| paragraphs := []; current_list := []; current_para := [] |} in
    let b := foldl step b (split 0x0A%N text) in
    let b := flush_para b in
    let b := flush_list b in
    let html := join "\n" (paragraphs b) in
    match keywords with
    | Some (_ :: _ as keywords) => highlight_keywords html keywords
    | _ => html
    end.

(** [table_header] defaults to ["Comparison"], [conclusion_header] to
    ["Conclusion"] and [keywords] to [None]. *)
Definition build_full_html (title : str) (content : Generated.GeneratedContent)
    (headings : list str) (keywords : option (list str))
    (table_header conclusion_header : str) : str :=
  let lines : list str :=
    ["<h1>" ++ title ++ "</h1>"; ""; "<div class=\qintro\q>";
     text_to_html (Generated.intro content) keywords; "</div>"; ""] in
  let lines :=
    if negb (is_empty (Generated.table_html content))
       && negb (is_empty (strip (Generated.table_html content)))
    then lines ++ ["<div class=\qcomparison-table\q>"; "<h2>" ++ table_header ++ "</h2>";
                   strip (Generated.table_html content); "</div>"; ""]
    else lines in
  let lines :=
    foldl (fun (lines : list str) '(heading, section_content) =>
             lines ++ ["<section>"; "<h2>" ++ heading ++ "</h2>";
                       text_to_html section_content keywords; "</section>"; ""])
          lines (zip headings (Generated.sections content)) in
  let lines :=
    lines ++ ["<div class=\qconclusion\q>"; "<h2>" ++ conclusion_header ++ "</h2>";
              text_to_html (Generated.conclusion content) keywords; "</div>"] in
  join "\n" lines.

End Highlight.
End Html.


(** ** core/constants.py *)

Module Constants.

Definition OPENROUTER_API_URL : str := "https://openrouter.ai/api/v1/chat/completions".
Definition MAX_RETRIES : Z := 3.
Definition RETRY_DELAY : Z := 2.   (* seconds *)
Definition API_TIMEOUT : Z := 120. (* seconds *)
Definition DEFAULT_SYSTEM_PROMPT : str :=
  "You are an experienced SEO content writer. You create content that meets Google E-E-A-T standards and provides value to readers.\n\nCORE PRINCIPLES:\n- Every sentence should provide concrete value to the reader\n- Avoid filler phrases (\qas everyone knows\q, \qundoubtedly\q, \qit goes without saying\q)\n- Include concrete examples, numerical data, and practical tips\n- Use natural keyword placement, avoid keyword stuffing\n- Avoid exaggerated claims (\qthe best\q, \qabsolutely\q, \qmust\q)\n\nFORMAT RULES:\n- Only produce content in the requested format\n- Do not add explanations, comments, or meta information\n- Do not use HTML tags (unless specified otherwise)".

Definition REQUIRED_CONFIG_FIELDS : list str :=
  ["title"; "intro_words"; "conclusion_words"; "sections"].

End Constants.

(** ** The values of a decoded JSON response and Python's subscripting *)

Module Json.

#[warnings="-register-all"]
Inductive value :=
| Null
| Bool (b : bool)
| Int (n : Z)
| Float (repr : str)
| Str (s : str)
| Arr (items : list value)
| Obj (members : list (str * value)).   (* a later member wins over an earlier one *)

End Json.

(** ** api/client.py *)

Module Client.
Import Constants Json.

(** An exception, by the class the handlers of [generate] tell apart,
    with the text [str(e)] gives.  Exceptions that do not derive from
    [Exception] (cancellation, interpreter exit) are outside the model. *)
Inductive exn :=
| ClientError (s : str)          (* aiohttp.ClientError and its subclasses *)
| KeyError (s : str)
| IndexError (s : str)
| TypeError (s : str)
| RuntimeError (s : str)
| APIConnectionError (s : str)
| APIResponseError (s : str)
| OtherException (s : str).

(** [str(e)] *)
Definition exn_str (e : exn) : str :=
  match e with
  | ClientError s | KeyError s | IndexError s | TypeError s | RuntimeError s
  | APIConnectionError s | APIResponseError s | OtherException s => s
  end.

Record ClientSession := { closed : bool }.

Record OpenRouterClient := {
  api_key : str;
  model : str;
  site_url : str;
  _session : option ClientSession;
}.

(** The JSON body of a request. [temperature] (0.7) and [max_tokens]
    (4000) are the same in every request. *)
Record Payload := {
  payload_model : str;
  messages : list (str * str);     (* role, content *)
}.

(** What a call leaves behind, in order. *)
Inductive event :=
| Post (payload : Payload)         (* one request sent *)
| PbarUpdate (n : Z)               (* pbar.update(n) *)
| Sleep (seconds : Z).             (* asyncio.sleep(seconds) *)

(** The progress bar; [bool(pbar)] of a bar with a known total is
    [total > 0]. *)
Record tqdm := { total : Z }.

Definition truthy (pbar : option tqdm) : bool :=
  match pbar with
  | Some bar => 0 <? total bar
  | None => false
  end.

(** The state a coroutine of the client runs in: the client object and
    the events so far. *)
Record state := { self : OpenRouterClient; log : list event }.

(** Computations that read and update the state and either return or
    raise. *)
Definition M (A : Type) : Type := state -> (exn + A) * state.

#[export] Instance M_ret : MRet M := fun A a st => (inr a, st).
#[export] Instance M_bind : MBind M := fun A B f m st =>
  match m st with
  | (inr a, st') => f a st'
  | (inl e, st') => (inl e, st')
  end.

Definition raise {A} (e : exn) : M A := fun st => (inl e, st).

(** [try: m] with the exception, if any, handed to the continuation. *)
Definition try_ {A} (m : M A) : M (exn + A) := fun st =>
  let '(r, st') := m st in (inr r, st').

Definition emit (ev : event) : M unit := fun st =>
  (inr tt, {| self := self st; log := log st ++ [ev] |}).

Definition get_self : M OpenRouterClient := fun st => (inr (self st), st).

Definition set_session (session : option ClientSession) : M unit := fun st =>
  (inr tt, {| self := {| api_key := api_key (self st); model := model (self st);
                         site_url := site_url (self st); _session := session |};
              log := log st |}).

(** [OpenRouterClient(api_key, model, site_url)] *)
Definition __init__ (api_key model site_url : str) : OpenRouterClient :=
  {| api_key := api_key; model := model; site_url := site_url; _session := None |}.

Definition __aenter__ : M unit :=
  set_session (Some {| closed := false |}).

Definition __aexit__ : M unit :=
  client ← get_self;
  match _session client with
  | Some _ => set_session (Some {| closed := true |})      (* session.close() *)
  | None => mret tt
  end.

(** [v[key]] for a string key *)
Definition getitem_key (v : value) (key : str) : M value :=
  match v with
  | Obj members =>
    match List.find (fun '(k, _) => bool_decide (k = key)) (reverse members) with
    | Some (_, x) => mret x
    | None => raise (KeyError ("'" ++ key ++ "'"))
    end
  | Arr _ => raise (TypeError "list indices must be integers or slices, not str")
  | Str _ => raise (TypeError "string indices must be integers, not 'str'")
  | Null => raise (TypeError "'NoneType' object is not subscriptable")
  | Bool _ => raise (TypeError "'bool' object is not subscriptable")
  | Int _ => raise (TypeError "'int' object is not subscriptable")
  | Float _ => raise (TypeError "'float' object is not subscriptable")
  end.

(** [v[0]] *)
Definition getitem_0 (v : value) : M value :=
  match v with
  | Arr (x :: _) => mret x
  | Arr [] => raise (IndexError "list index out of range")
  | Obj _ => raise (KeyError "0")        (* the keys of a decoded object are strings *)
  | Str (c :: _) => mret (Str [c])
  | Str [] => raise (IndexError "string index out of range")
  | Null => raise (TypeError "'NoneType' object is not subscriptable")
  | Bool _ => raise (TypeError "'bool' object is not subscriptable")
  | Int _ => raise (TypeError "'int' object is not subscriptable")
  | Float _ => raise (TypeError "'float' object is not subscriptable")
  end.

(** What the server side does with one request: [session.post],
    [raise_for_status] and [response.json()] either raise or give the
    decoded body. *)
Inductive reply :=
| Raises (e : exn)
| Body (result : value).

(** The [async with self._session.post(...)] header up to
    [await response.json()]; [net attempt] is the reply to the request of
    that attempt. *)
Definition post (net : nat -> reply) (payload : Payload) (attempt : nat) : M value :=
  emit (Post payload);;
  match net attempt with
  | Raises e => raise e
  | Body result => mret result
  end.

(** [result["choices"][0]["message"]["content"]] *)
Definition content (result : value) : M value :=
  choices ← getitem_key result "choices";
  choice ← getitem_0 choices;
  message ← getitem_key choice "message";
  getitem_key message "content".

(** The loop [for attempt in range(MAX_RETRIES)] from [attempts] on, and
    the [raise] behind it. *)
Fixpoint retry (net : nat -> reply) (payload : Payload) (pbar : option tqdm)
    (last_error : option exn) (attempts : list nat) : M value :=
  match attempts with
  | [] =>
    raise (APIConnectionError
             ("API call failed after " ++ str_of_int MAX_RETRIES ++ " attempts: "
              ++ match last_error with Some e => exn_str e | None => "None" end))
  | attempt :: attempts' =>
    r ← try_ (result ← post net payload attempt;
              (if truthy pbar then emit (PbarUpdate 1) else mret tt);;
              content result);
    match r with
    | inr content => mret content                              (* return *)
    | inl e =>
      let last_error :=
        match e with
        | ClientError s => APIConnectionError ("Connection error: " ++ s)
        | KeyError s => APIResponseError ("Unexpected API response: " ++ s)
        | _ => e
        end in
      (if Z.of_nat attempt <? MAX_RETRIES - 1
       then emit (Sleep (RETRY_DELAY * (Z.of_nat attempt + 1)))
       else mret tt);;
      retry net payload pbar (Some last_error) attempts'
    end
  end.

Definition generate (net : nat -> reply) (prompt : str)
    (system_prompt : option str) (pbar : option tqdm) : M value :=
  client ← get_self;
  match _session client with
  | None => raise (RuntimeError "Client must be used with context manager")
  | Some _ =>
    let system_prompt := default DEFAULT_SYSTEM_PROMPT system_prompt in
    let payload :=
      {| payload_model := model client;
         messages := [("system", system_prompt); ("user", prompt)] |} in
    retry net payload pbar None (seq 0 (Z.to_nat MAX_RETRIES))
  end.

(** [asyncio.gather] with [return_exceptions=True]: every coroutine
    runs to its end on the shared client; its result or its exception
    takes its place in the list.  The coroutines share nothing but the
    client, which none of them changes, and the progress bar, so each
    one's events are kept in a trace of its own and the interleaving the
    event loop picks is not part of the model. *)
Definition gather {A} (coros : list (M A)) (client : OpenRouterClient)
    : list (exn + A) * list (list event) :=
  let runs := (fun coro => coro {| self := client; log := [] |}) <$> coros in
  (fst <$> runs, (fun run => log (snd run)) <$> runs).

(** The loop over [results] of [generate_batch]. *)
Fixpoint collect (output : gmap str value) (results : list (exn + str * value))
    : exn + gmap str value :=
  match results with
  | [] => inr output
  | inl item :: _ => inl item                                  (* raise item *)
  | inr (name, content) :: results' => collect (<[name := content]> output) results'
  end.

(** [net k] is the server side seen by the [k]-th task.  The result is
    the mapping or the exception raised, with the trace of every task. *)
Definition generate_batch (net : nat -> nat -> reply) (tasks : list (str * str))
    (pbar : option tqdm) (client : OpenRouterClient)
    : (exn + gmap str value) * list (list event) :=
  let _task (k : nat) (name prompt : str) : M (str * value) :=
    result ← generate (net k) prompt None pbar;
    mret (name, result) in
  let '(results, traces) :=
    gather ((fun '(k, (name, prompt)) => _task k name prompt) <$> enumerate tasks)
           client in
  (collect ∅ results, traces).

End Client.

(** ** core/config.py *)

Module Config.
Import Constants Json.

(** The exceptions of the configuration, with their messages. *)
Inductive exn :=
| ConfigNotFoundError (s : str)
| ConfigValidationError (s : str).

Section Format.

(** [str(v)] for a value that is not a string, as an f-string inserts
    it. *)
Variable str_of_value : value -> str.

(** [f"{v}"] *)
Definition format (v : value) : str :=
  match v with
  | Str s => s
  | _ => str_of_value v
  end.

(** [v == s] for a string [s]: only a string is equal to a string. *)
Definition eq_str (v : value) (s : str) : bool :=
  match v with
  | Str s' => bool_decide (s' = s)
  | _ => false
  end.

(** The loop over [REQUIRED_CONFIG_FIELDS], which raises at the first
    field that is not a key of [data]. *)
Fixpoint check_fields (data : gmap str value) (fields : list str) : exn + unit :=
  match fields with
  | [] => inr tt
  | field :: fields' =>
    match data !! field with
    | None => inl (ConfigValidationError ("Missing '" ++ field ++ "' field in config!"))
    | Some _ => check_fields data fields'
    end
  end.

(** [data] is the mapping decoded from the configuration file; the
    function returns [None] or raises. *)
Definition validate_config (data : gmap str value) : exn + unit :=
  match data !! ("sections" : str) with
  | None =>
    inl (ConfigValidationError
           "Old config format not supported! New format requires 'sections' field. Example: python main.py --init")
  | Some _ =>
    match check_fields data REQUIRED_CONFIG_FIELDS with
    | inl e => inl e
    | inr _ =>
      let output := default (Str "html") (data !! ("output" : str)) in
      if negb (existsb (eq_str output) ["html"; "md"])
      then inl (ConfigValidationError
                  ("Invalid output format: '" ++ format output
                   ++ "'. Must be 'html' or 'md'"))
      else
        let language := default (Str "English") (data !! ("language" : str)) in
        match language with
        | Str s =>
          if is_empty (strip s)
          then inl (ConfigValidationError "Language must be a non-empty string")
          else inr tt
        | _ => inl (ConfigValidationError "Language must be a non-empty string")
        end
    end
  end.

End Format.
End Config.

(** ** generators/prompts.py *)

Module Prompts.
Section Lower.

(** [str.lower], which follows the interpreter's Unicode tables. *)
Variable lower : str -> str.

Definition _get_section_perspective (heading : str) (section_index : Z) : str :=
  match section_index with
  | 0 => "Basic information and first steps for beginners"
  | 1 => "Practical comparison and evaluation criteria"
  | 2 => "Advanced tips and maximum benefit strategies"
  | 3 => "Common mistakes and how to avoid them"
  | 4 => "Future trends and things to watch out for"
  | _ => "In-depth analysis and concrete examples"
  end.

Definition build_section_prompt (title heading : str) (section_words : Z)
    (section_index total_sections : Z) (previous_topics : list str)
    (seo : SEOConfig) (placeholders : PlaceholderConfig) (language : str) : str :=
  let perspective := _get_section_perspective heading section_index in
  let avoid_topics : str :=
    if is_empty previous_topics then ""
    else "\n- DO NOT REPEAT (already covered): " ++ join ", " previous_topics in
  let keyword_instruction : str :=
    if is_empty (primary_keyword seo) then ""
    else "\n- Primary keyword (" ++ primary_keyword seo
         ++ "): Use naturally once in this section" in
  let secondary_instruction : str :=
    if is_empty (secondary_keywords seo) then ""
    else
      let relevant_kw :=
        filter (fun kw => in_str (lower kw) (lower heading)) (secondary_keywords seo) in
      if is_empty relevant_kw then ""
      else "\n- Related keywords (use naturally): " ++ join ", " relevant_kw in
  let tone_desc : str :=
    if bool_decide (tone seo = "informative") then "Informative and objective"
    else if bool_decide (tone seo = "conversational") then "Friendly and conversational"
    else if bool_decide (tone seo = "professional") then "Professional and formal"
    else "Informative" in
  let placeholder_hint : str :=
    "[" ++ item_prefix placeholders ++ "_NAME], ["
        ++ value_prefix placeholders ++ "_VALUE]" in
  "Write original content about \q" ++ heading ++ "\q.\n\nMAIN TITLE: " ++ title
  ++ "\nSECTION: " ++ str_of_int (section_index + 1) ++ "/" ++ str_of_int total_sections
  ++ "\nPERSPECTIVE: " ++ perspective
  ++ "\nTONE: " ++ tone_desc
  ++ "\n\nCONTENT REQUIREMENTS:\n- Approximately " ++ str_of_int section_words
  ++ " words\n- At least 1 concrete example or numerical data\n- At least 2 practical, actionable tips\n- For bullet lists use: \q• \q"
  ++ keyword_instruction ++ secondary_instruction
  ++ "\n- Use placeholders: " ++ placeholder_hint
  ++ "\n\nAVOID:" ++ avoid_topics
  ++ "\n- DO NOT REPEAT MAIN TITLE: Don't use \q" ++ title
  ++ "\q within the section\n- Generic phrases: \qquality service\q, \qreliable platform\q, \qprofessional team\q\n- Exaggerated claims: \qthe best\q, \qabsolutely\q, \qmust\q, \qguaranteed\q\n- Filler sentences: \qas everyone knows\q, \qundoubtedly\q\n\nIMPORTANT: Write plain text only. Do not use HTML tags.\n\nLANGUAGE: Write the content in "
  ++ language ++ ".".

End Lower.
Definition build_intro_prompt (title : str) (headings : list str) (intro_words : Z)
    (seo : SEOConfig) (language : str) : str :=
  let topics := join ", " (take 3 headings) in
  let keyword_instruction : str :=
    if is_empty (primary_keyword seo) then ""
    else "\n- Use the primary keyword (" ++ primary_keyword seo
         ++ ") naturally in the first 2 sentences" in
  let audience_instruction : str :=
    if is_empty (target_audience seo) then ""
    else "\n- Target audience: " ++ target_audience seo in
  "Write an INTRODUCTION paragraph for a blog post about \q" ++ title
  ++ "\q.\n\nHOOK STRATEGY (choose one):\n- Start with a surprising statistic or fact\n- Describe a problem the reader faces\n- Ask a curiosity-provoking question\n\nCONTENT REQUIREMENTS:\n- Approximately "
  ++ str_of_int intro_words
  ++ " words\n- Explain what the article is about and what value it provides to the reader\n- Topics to be covered: "
  ++ topics ++ keyword_instruction ++ audience_instruction
  ++ "\n\nAVOID:\n- Cliché openings like \qIn this article\q\n- Filler phrases like \qNowadays\q, \qIn recent years\q\n- Exaggerated promises\n\nIMPORTANT: Write plain text only. Do not use HTML tags.\n\nLANGUAGE: Write the content in "
  ++ language ++ ".".

(** The rules of [build_table_prompt], one for each column that has a
    placeholder. *)
Definition placeholder_rules (columns : list TableColumn) : list str :=
  foldl (fun placeholder_rules '(i, col) =>
           if is_empty (placeholder col) then placeholder_rules
           else placeholder_rules
                  ++ ["- For " ++ header col ++ " use [" ++ placeholder col ++ "_1], ["
                      ++ placeholder col ++ "_2]... placeholders"])
        [] (enumerate columns).

(** The cells of the example row of [build_table_prompt]. *)
Definition example_values (columns : list TableColumn) : list str :=
  foldl (fun example_values col =>
           if negb (is_empty (placeholder col))
           then example_values ++ ["[" ++ placeholder col ++ "_1]"]
           else if bool_decide (type col = "stars") then example_values ++ ["4"]
           else example_values ++ ["example"])
        [] columns.

Definition example_row (columns : list TableColumn) : str :=
  join " | " (example_values columns).

Definition build_table_prompt (title : str) (table_config : TableConfig)
    (placeholders : PlaceholderConfig) (language : str) : str :=
  let row_count := rows table_config in
  let columns := columns table_config in
  let column_names := join " | " (name <$> columns) in
  let placeholder_rules := placeholder_rules columns in
  let placeholder_text : str :=
    if is_empty placeholder_rules then "" else join "\n" placeholder_rules in
  let example_row := example_row columns in
  "Provide " ++ str_of_int row_count ++ " item information for the topic \q" ++ title
  ++ "\q.\n\nFORMAT: One item per line, separated by pipe (|).\nCOLUMNS: "
  ++ column_names
  ++ "\n\nRULES:\n"
  ++ placeholder_text
  ++ "\n- Use numbers 1-5 for rating column\n\nEXAMPLE OUTPUT:\n"
  ++ example_row
  ++ "\n\nWrite ONLY " ++ str_of_int row_count
  ++ " lines of data, nothing else.\n\nLANGUAGE: Write the content in "
  ++ language ++ ".".

Definition build_conclusion_prompt (title : str) (headings : list str)
    (conclusion_words : Z) (seo : SEOConfig) (language : str) : str :=
  let topics := join ", " headings in
  let keyword_instruction : str :=
    if is_empty (primary_keyword seo) then ""
    else "\n- Use the primary keyword (" ++ primary_keyword seo ++ ") once more" in
  "Write a CONCLUSION paragraph for an article about \q" ++ title
  ++ "\q.\n\nTOPICS COVERED IN THE ARTICLE: " ++ topics
  ++ "\n\nCONTENT REQUIREMENTS:\n- Approximately " ++ str_of_int conclusion_words
  ++ " words\n- Summarize main points in 1-2 sentences (synthesis, not repetition)\n- Suggest a concrete next step for the reader (CTA)\n- End with a positive but realistic tone"
  ++ keyword_instruction
  ++ "\n\nAVOID:\n- Starting with \qIn conclusion\q\n- Repeating exactly what was said in the article\n- Exaggerated promises\n\nIMPORTANT: Write plain text only. Do not use HTML tags.\n\nLANGUAGE: Write the content in "
  ++ language ++ ".".

End Prompts.

(** ** main.py: the section tasks of [generate_all_content] *)

Module Main.
Section Lower.
Variable lower : str -> str.

(** The loop [for i, section in enumerate(config.sections)], which
    appends one named prompt per section to [tasks]. *)
Definition section_tasks (config : ContentConfig) (tasks : list (str * str))
    : list (str * str) :=
  let headings := headings config in
  foldl (fun tasks '(i, section) =>
           let section_prompt :=
             Prompts.build_section_prompt lower
               (title config) (heading section) (words section)
               (Z.of_nat i) (Z.of_nat (length (sections config)))
               (take i headings)
               (seo config) (placeholders config) (language config) in
           tasks ++ [("section_" ++ str_of_int (Z.of_nat i), section_prompt)])
        tasks (enumerate (sections config)).

(** The list [tasks] of [generate_all_content] as it is handed to
    [generate_batch]: the introduction, the table when one is asked for,
    the sections and the conclusion. *)
Definition tasks (config : ContentConfig) : list (str * str) :=
  let headings := headings config in
  let table_rows := if enabled (table config) then rows (table config) else 0 in
  let tasks : list (str * str) := [] in
  let intro_prompt :=
    Prompts.build_intro_prompt (title config) headings (intro_words config)
      (seo config) (language config) in
  let tasks := tasks ++ [("intro", intro_prompt)] in
  let tasks :=
    if 0 <? table_rows then
      let table_prompt :=
        Prompts.build_table_prompt (title config) (table config) (placeholders config)
          (language config) in
      tasks ++ [("table", table_prompt)]
    else tasks in
  let tasks := section_tasks config tasks in
  let conclusion_prompt :=
    Prompts.build_conclusion_prompt (title config) headings (conclusion_words config)
      (seo config) (language config) in
  tasks ++ [("conclusion", conclusion_prompt)].

(** [range(n)] *)
Definition range (n : nat) : list nat := seq 0 n.

(** The part of [generate_all_content] behind the batch, which files the
    results ([dict[str, str]]) in a [GeneratedContent]; [isword] is the
    table of [\w]. *)
Definition organize (isword : char -> bool) (results : gmap str str)
    (config : ContentConfig) : Generated.GeneratedContent :=
  let intro : str := default ("" : str) (results !! ("intro" : str)) in
  let conclusion : str := default ("" : str) (results !! ("conclusion" : str)) in
  let '(table_html, table_md) :=
    match results !! ("table" : str) with
    | Some text =>
      let raw_data := Text.clean_markdown_fences isword text in
      let table_rows_data := Text.parse_table_data raw_data (columns (table config)) in
      (Html.build_table_html table_rows_data (columns (table config)),
       Markdown.build_table_md table_rows_data (columns (table config)))
    | None => (([] : str), ([] : str))
    end in
  let sections : list str :=
    (fun i => default ("" : str) (results !! ("section_" ++ str_of_int (Z.of_nat i))))
      <$> range (length (sections config)) in
  {| Generated.intro := intro;
     Generated.table_html := table_html;
     Generated.table_md := table_md;
     Generated.sections := sections;
     Generated.conclusion := conclusion |}.

End Lower.
End Main.

(** * Specifications

    The properties below are stated with the definitions of this part:
    the behaviour in the words of the specification, to be compared with
    the code, and the inputs the properties are run on. *)

Import Constants Json Client.

(** ** Star rendering *)

(** The rendering in the words of the specification: the value parsed as
    an integer, the count equal to it from 1 to 5, 1 below and 5 above,
    and the raw string when it is no integer. *)
Definition star_count (n : Z) : nat :=
  if n <? 1 then 1%nat else if 5 <? n then 5%nat else Z.to_nat n.

Definition stars_spec (value : str) : str :=
  match Py.int (strip value) with
  | Some n => replicate (star_count n) 0x2B50%N
  | None => value
  end.

(** ** The retrying client *)

(** A state to read a response in: [content] neither reads nor changes
    it. *)
Definition any_state : state := {| self := __init__ "" "" ""; log := [] |}.

(** What one attempt comes to: the content it returns, or the exception
    its handlers catch. *)
Definition outcome_of (r : reply) : exn + value :=
  match r with
  | Raises e => inl e
  | Body result => fst (content result any_state)
  end.

(** The value the handlers give [last_error]. *)
Definition last_error_of (e : exn) : exn :=
  match e with
  | ClientError s => APIConnectionError ("Connection error: " ++ s)
  | KeyError s => APIResponseError ("Unexpected API response: " ++ s)
  | _ => e
  end.

(** The state after some more events. *)
Definition add_events (st : state) (evs : list event) : state :=
  {| self := self st; log := log st ++ evs |}.

(** The events of one attempt, the delay behind it apart. *)
Definition attempt_events (payload : Payload) (pbar : option tqdm) (r : reply)
    : list event :=
  Post payload ::
  match r with
  | Body _ => if truthy pbar then [PbarUpdate 1] else []
  | Raises _ => []
  end.

(** The delay behind attempt [k]. *)
Definition backoff (k : nat) : list event :=
  if Z.of_nat k <? MAX_RETRIES - 1 then [Sleep (RETRY_DELAY * (Z.of_nat k + 1))] else [].

(** The request body [generate] builds. *)
Definition payload_of (client : OpenRouterClient) (prompt : str)
    (system_prompt : option str) : Payload :=
  {| payload_model := model client;
     messages := [("system", default DEFAULT_SYSTEM_PROMPT system_prompt);
                  ("user", prompt)] |}.

(** The calls of the progress callback among the events. *)
Definition is_update (ev : event) : bool :=
  match ev with PbarUpdate _ => true | _ => false end.

(** The requests and the delays of a trace, in order. *)
Definition without_updates (evs : list event) : list event :=
  List.filter (fun ev => negb (is_update ev)) evs.

(** The number of calls of the progress callback in a trace. *)
Definition updates (evs : list event) : nat :=
  length (List.filter is_update evs).

(** The requests and delays of a call that made [n + 1] attempts. *)
Definition schedule (payload : Payload) (n : nat) : list event :=
  take (2 * n + 1)
       [Post payload; Sleep (RETRY_DELAY * 1);
        Post payload; Sleep (RETRY_DELAY * 2);
        Post payload].

(** A client inside its context manager, and three replies. *)
Definition opened_client : state :=
  snd (__aenter__ {| self := __init__ "key" "openai/gpt-4o-mini" "https://example.com";
                     log := [] |}).

Definition completion (text : str) : value :=
  Obj [("choices", Arr [Obj [("message", Obj [("content", Str text)])]])].

Definition unavailable : exn := ClientError "503, message='Service Unavailable'".

(** ** The batch *)

(** The outcome of the [k]-th task of a batch: its name with the content
    generated, or the exception [generate] raised. *)
Definition task_outcome (net : nat -> nat -> reply) (pbar : option tqdm)
    (client : OpenRouterClient) (k : nat) (task : str * str) : exn + str * value :=
  match fst (generate (net k) (snd task) None pbar {| self := client; log := [] |}) with
  | inl e => inl e
  | inr content => inr (fst task, content)
  end.

Definition outcomes (net : nat -> nat -> reply) (pbar : option tqdm)
    (client : OpenRouterClient) (tasks : list (str * str)) : list (exn + str * value) :=
  imap (task_outcome net pbar client) tasks.

(** The first failure of a list of outcomes. *)
Definition first_failure {E A} (l : list (E + A)) (k : nat) (e : E) : Prop :=
  l !! k = Some (inl e) /\ forall j o, (j < k)%nat -> l !! j = Some o -> exists x, o = inr x.

(** Three tasks; the server refuses every request of the second. *)
Definition three_tasks : list (str * str) :=
  [("intro", "write the introduction");
   ("section_0", "write the section");
   ("conclusion", "write the conclusion")].

Definition second_refused (k attempt : nat) : reply :=
  match k with
  | 1%nat => Raises unavailable
  | _ => Body (completion "text")
  end.

(** ** Section prompts *)

(** The five perspectives the specification lists, by section index. *)
Definition perspectives : list str :=
  ["Basic information and first steps for beginners";
   "Practical comparison and evaluation criteria";
   "Advanced tips and maximum benefit strategies";
   "Common mistakes and how to avoid them";
   "Future trends and things to watch out for"].

(** The perspective of every section past the fifth. *)
Definition generic_perspective : str := "In-depth analysis and concrete examples".

(** The line that names the topics already covered; nothing when there
    are none. *)
Definition exclusion_line (previous_topics : list str) : str :=
  if is_empty previous_topics then ""
  else "\n- DO NOT REPEAT (already covered): " ++ join ", " previous_topics.

(** The perspective of the section at an index: the entry of the table
    from 0 to 4, the generic perspective at any other index. *)
Definition perspective_at (section_index : Z) : str :=
  if (0 <=? section_index) && (section_index <? 5)
  then nth (Z.to_nat section_index) perspectives generic_perspective
  else generic_perspective.

(** ** Text segmentation *)

(** The blocks of a text and the two-buffer machine that cuts them, in
    the words of the specification. *)
Inductive block :=
| Paragraph (text : str)
| BulletList (items : list str).

Inductive line_kind :=
| Blank
| Bullet (item : str)
| Plain (text : str).

Definition classify (line : str) : line_kind :=
  let line := strip line in
  if is_empty line then Blank
  else if startswith_any ["• "; "- "; "* "] line then Bullet (drop 2 line)
  else Plain line.

Record segmenter := {
  blocks : list block;
  list_buffer : list str;
  para_buffer : list str;
}.

Definition flush_paragraph (s : segmenter) : segmenter :=
  if is_empty (para_buffer s) then s
  else {| blocks := blocks s ++ [Paragraph (join " " (para_buffer s))];
          list_buffer := list_buffer s;
          para_buffer := [] |}.

Definition flush_bullets (s : segmenter) : segmenter :=
  if is_empty (list_buffer s) then s
  else {| blocks := blocks s ++ [BulletList (list_buffer s)];
          list_buffer := [];
          para_buffer := para_buffer s |}.

Definition feed (s : segmenter) (line : str) : segmenter :=
  match classify line with
  | Blank => flush_bullets (flush_paragraph s)
  | Bullet item =>
    let s := flush_paragraph s in
    {| blocks := blocks s; list_buffer := list_buffer s ++ [item];
       para_buffer := para_buffer s |}
  | Plain text =>
    let s := flush_bullets s in
    {| blocks := blocks s; list_buffer := list_buffer s;
       para_buffer := para_buffer s ++ [text] |}
  end.

Definition empty_segmenter : segmenter :=
  {| blocks := []; list_buffer := []; para_buffer := [] |}.

Definition segment (text : str) : list block :=
  let text := strip text in
  if is_empty text then []
  else
    let s := foldl feed empty_segmenter (split 0x0A%N text) in
    blocks (flush_bullets (flush_paragraph s)).

(** The markup of a block in each format. *)
Definition md_block (b : block) : str :=
  match b with
  | Paragraph text => text
  | BulletList items => join "\n" ((fun item => "- " ++ item) <$> items)
  end.

Definition html_block (b : block) : str :=
  match b with
  | Paragraph text => "<p>" ++ text ++ "</p>"
  | BulletList items =>
    "<ul>\n" ++ join "\n" ((fun item => "  <li>" ++ item ++ "</li>") <$> items) ++ "\n</ul>"
  end.

(** The buffers of each renderer, seen from the machine. *)
Definition md_view (s : segmenter) : Markdown.buffers :=
  {| Markdown.paragraphs := md_block <$> blocks s;
     Markdown.current_list := list_buffer s;
     Markdown.current_para := para_buffer s |}.

Definition html_view (s : segmenter) : Html.buffers :=
  {| Html.paragraphs := html_block <$> blocks s;
     Html.current_list := list_buffer s;
     Html.current_para := para_buffer s |}.

(** At most one of the two buffers is pending at any time. *)
Definition exclusive (s : segmenter) : Prop := list_buffer s = [] \/ para_buffer s = [].

(** ** Table parsing *)

(** The trimmed fields of a line, the test a line passes to become a
    row, and the row it becomes, in the words of the specification. *)
Definition fields (line : str) : list str :=
  strip <$> split 0x7C%N (strip line).

Definition kept (columns : list TableColumn) (line : str) : bool :=
  negb (is_empty (strip line))
  && contains 0x7C%N (strip line)
  && (length columns <=? length (fields line))%nat.

Definition row_of (columns : list TableColumn) (line : str) : TableRow :=
  {| values := dict (zip (name <$> columns) (take (length columns) (fields line))) |}.

Definition text_column (name header : str) : TableColumn :=
  {| name := name; header := header; placeholder := ""; type := "text" |}.

Definition two_columns : list TableColumn :=
  [text_column "a" "A"; text_column "b" "B"].

(** ** The Markdown table, built and parsed again *)

(** One line of the table. *)
Definition table_line (cells : list str) : str := "| " ++ join " | " cells ++ " |".

(** The cells of the lines of the table: the headers, the separator and
    the rendered rows. *)
Definition table_cells (rows : list TableRow) (columns : list TableColumn)
    : list (list str) :=
  (header <$> columns) :: replicate (length columns) ("---" : str)
    :: (Markdown.row_values columns <$> rows).

(** A cell that holds neither a pipe nor a line feed. *)
Definition clean (cell : str) : Prop := (0x7C%N ∉ cell) /\ (0x0A%N ∉ cell).

(** The row a table line is parsed to: the empty field before the first
    pipe under the first column, each cell, trimmed, one column to the
    right of its own. *)
Definition shifted_row (columns : list TableColumn) (cells : list str) : TableRow :=
  {| values := dict (zip (name <$> columns) ([] :: (strip <$> cells))) |}.

(** A cell between its two spaces, and a line between its two pipes. *)
Definition padded (cell : str) : str := 0x20%N :: cell ++ [0x20%N].

Definition bracketed (s : str) : Prop := exists m, s = 0x7C%N :: m ++ [0x7C%N].

(** The round trip as the specification states it: every row comes back,
    at its place, with its value in every column that is not a stars
    column. *)
Definition roundtrip (rows : list TableRow) (columns : list TableColumn) : Prop :=
  forall i row col,
    rows !! i = Some row -> col ∈ columns -> type col <> "stars" ->
    exists row',
      Text.parse_table_data (Markdown.build_table_md rows columns) columns !! i
      = Some row'
      /\ get row' (name col) "" = get row (name col) "".

(** One row of two text columns. *)
Definition xy_rows : list TableRow := [{| values := dict [("a", "x"); ("b", "y")] |}].

(** ** Keyword highlighting *)

(** The keyword occurs in the text at position [i], case-insensitively. *)
Definition occurs_at (ieq : N -> N -> bool) (keyword text : str) (i : nat) : Prop :=
  (i <= length text)%nat /\ Re.match_here ieq keyword (drop i text) = true.

(** The positions, from [pos] on, of the matches [Re.sub_from] replaces:
    the same scan, keeping the places instead of the text. *)
Fixpoint matches_from (ieq : N -> N -> bool) (fuel : nat) (keyword text : str)
    (pos : nat) : list nat :=
  match fuel with
  | O => []
  | S fuel' =>
    if Re.match_here ieq keyword text then
      match keyword with
      | [] =>
        pos :: match text with
               | [] => []
               | _ :: text' => matches_from ieq fuel' keyword text' (S pos)
               end
      | _ :: _ =>
        pos :: matches_from ieq fuel' keyword (drop (length keyword) text)
                 (pos + length keyword)
      end
    else
      match text with
      | [] => []
      | _ :: text' => matches_from ieq fuel' keyword text' (S pos)
      end
  end.

Definition matches (ieq : N -> N -> bool) (keyword text : str) : list nat :=
  matches_from ieq (S (length text)) keyword text 0.

(** [text], which starts at position [off] of the whole, with the [n]
    characters at each of the positions [ps] replaced by [repl] of
    them. *)
Fixpoint wrap_at (repl : str -> str) (n : nat) (ps : list nat) (off : nat) (text : str)
    : str :=
  match ps with
  | [] => text
  | p :: ps' =>
    take (p - off) text ++ repl (take n (drop (p - off) text))
      ++ wrap_at repl n ps' (p + n) (drop (p - off + n) text)
  end.

(** The emphasis markup of each format around a match. *)
Definition md_bold (m : str) : str := "**" ++ m ++ "**".

Definition html_bold (m : str) : str := "<b>" ++ m ++ "</b>".

(** The specification as it stands: every occurrence is one of the
    wrapped matches. *)
Definition every_occurrence_wrapped (ieq : N -> N -> bool) (keyword text : str) : Prop :=
  forall i, occurs_at ieq keyword text i -> i ∈ matches ieq keyword text.

(** ** Further inputs of the client *)

(** A server that refuses the first request and answers the others. *)
Definition flaky (attempt : nat) : reply :=
  match attempt with
  | O => Raises unavailable
  | _ => Body (completion "text")
  end.

(** Two tasks under one name, and a server that answers each task with
    its own index. *)
Definition two_intros : list (str * str) := [("intro", "first"); ("intro", "second")].

Definition numbered (k attempt : nat) : reply :=
  Body (completion (str_of_int (Z.of_nat k))).

(** ** The table prompt *)

(** The cell of the example row for one column. *)
Definition example_value (col : TableColumn) : str :=
  if negb (is_empty (placeholder col)) then "[" ++ placeholder col ++ "_1]"
  else if bool_decide (type col = "stars") then "4"
  else "example".

(** A string that begins and ends with a character that is no
    whitespace. *)
Definition tight (s : str) : Prop :=
  (exists a t, s = a :: t /\ isspace a = false)
  /\ (exists t b, s = t ++ [b] /\ isspace b = false).

(** The default columns of a table. *)
Definition default_columns : list TableColumn :=
  get_default_columns {| enabled := true; rows := 3; columns := [] |}.

(** ** The tasks of a configuration *)

(** A character of a literal that stands for itself: ASCII and no
    backslash. *)
Definition plain (a : ascii) : Prop :=
  (N_of_ascii a < 0x80)%N /\ N_of_ascii a <> 0x5C%N.

(** The name of the task of the section at index [i]. *)
Definition section_name (i : nat) : str := "section_" ++ str_of_int (Z.of_nat i).

(** The names of the tasks of a configuration, in order. *)
Definition task_names (config : ContentConfig) : list str :=
  [("intro" : str)]
  ++ (if enabled (table config) && (0 <? rows (table config)) then [("table" : str)] else [])
  ++ (section_name <$> seq 0 (length (sections config)))
  ++ [("conclusion" : str)].

(** A configuration with one section and no table, and the results of
    its three tasks. *)
Definition one_section : ContentConfig :=
  {| title := "Tea"; intro_words := 60; conclusion_words := 50;
     sections := [{| heading := "Brewing"; words := 100 |}];
     table := {| enabled := false; rows := 0; columns := default_columns |};
     Models.model := "openai/gpt-4o-mini";
     placeholders := {| item_prefix := "ITEM"; value_prefix := "VALUE" |};
     seo := {| primary_keyword := "tea"; secondary_keywords := [];
               tone := "informative"; target_audience := "" |};
     site := {| site_name := ""; url := "https://example.com"; author := "" |};
     system_prompt := ""; output := "md"; language := "English" |}.

Definition three_texts : gmap str str :=
  <[("conclusion" : str) := ("text" : str)]>
    (<[("section_0" : str) := ("text" : str)]>
       (<[("intro" : str) := ("text" : str)]> ∅)).

(** ** Truncation *)

(** The characters that end a sentence. *)
Definition sentence_marks : list N := [0x2E; 0x21; 0x3F]%N.

(** ** Code fences *)

(** Three backticks. *)
Definition fence : str := [0x60; 0x60; 0x60]%N.

(** ** The HTML table and the documents *)

(** The lines of the table of [build_table_html] for given cells: the
    headers, then one [<tr>] block for each row. *)
Definition html_table_lines (headers : list str) (cells : list (list str)) : list str :=
  let tr (row : list str) : list str :=
    (["    <tr>"] : list str) ++ ((fun v => "      <td>" ++ v ++ "</td>") <$> row)
    ++ (["    </tr>"] : list str) in
  (["<table class=\qtable table-striped\q>"; "  <thead>"; "    <tr>"] : list str)
  ++ ((fun h => "      <th>" ++ h ++ "</th>") <$> headers)
  ++ (["    </tr>"; "  </thead>"; "  <tbody>"] : list str)
  ++ List.concat (tr <$> cells)
  ++ (["  </tbody>"; "</table>"] : list str).

(** The text filed under a key of the results, the empty string when
    there is none. *)
Definition text_of (results : gmap str str) (key : str) : str :=
  default ("" : str) (results !! key).

(** The blocks of the two documents. *)
Definition md_table_block (table_header table_md : str) : list str :=
  if negb (is_empty table_md) && negb (is_empty (strip table_md))
  then ["## " ++ table_header; ""; strip table_md; ""]
  else [].

Definition md_section_block (ieq : N -> N -> bool) (keywords : option (list str))
    (heading text : str) : list str :=
  ["## " ++ heading; ""; Markdown.text_to_md ieq text keywords; ""].

Definition html_table_block (table_header table_html : str) : list str :=
  if negb (is_empty table_html) && negb (is_empty (strip table_html))
  then ["<div class=\qcomparison-table\q>"; "<h2>" ++ table_header ++ "</h2>";
        strip table_html; "</div>"; ""]
  else [].

Definition html_section_block (ieq : N -> N -> bool) (keywords : option (list str))
    (heading text : str) : list str :=
  ["<section>"; "<h2>" ++ heading ++ "</h2>"; Html.text_to_html ieq text keywords;
   "</section>"; ""].

(** [content] with its sections replaced. *)
Definition with_sections (content : Generated.GeneratedContent) (sections : list str)
    : Generated.GeneratedContent :=
  {| Generated.intro := Generated.intro content;
     Generated.table_html := Generated.table_html content;
     Generated.table_md := Generated.table_md content;
     Generated.sections := sections;
     Generated.conclusion := Generated.conclusion content |}.

(** ** Configuration files *)

(** The configurations [validate_config] lets through. *)
Definition accepted (data : gmap str value) : Prop :=
  (forall field, field ∈ REQUIRED_CONFIG_FIELDS -> is_Some (data !! field))
  /\ (data !! ("output" : str) = None
      \/ data !! ("output" : str) = Some (Str "html")
      \/ data !! ("output" : str) = Some (Str "md"))
  /\ (data !! ("language" : str) = None
      \/ exists s, data !! ("language" : str) = Some (Str s) /\ strip s <> []).

(** The two errors about required fields. *)
Definition old_format : Config.exn :=
  Config.ConfigValidationError
    "Old config format not supported! New format requires 'sections' field. Example: python main.py --init".

Definition missing (field : str) : Config.exn :=
  Config.ConfigValidationError ("Missing '" ++ field ++ "' field in config!").

(** The required fields that are checked only once [sections] is known
    to be present. *)
Definition other_required : list str := ["title"; "intro_words"; "conclusion_words"].

(** A configuration file with the required fields and nothing else. *)
Definition minimal_data : gmap str value :=
  <[("sections" : str) := Arr []]>
    (<[("conclusion_words" : str) := Int 50]>
       (<[("intro_words" : str) := Int 60]>
          (<[("title" : str) := Str "Tea"]> ∅))).

(** * Properties *)

(** ** Star rendering *)

Lemma repeat_str_star (n : nat) : repeat_str "⭐" n = replicate n 0x2B50%N.
Proof.
  unfold repeat_str. induction n as [|n IH]; [reflexivity|].
  cbn [replicate List.concat]. rewrite IH. reflexivity.
Qed.

Lemma clamp_star_count (n : Z) : Z.to_nat (Z.min (Z.max n 1) 5) = star_count n.
Proof.
  unfold star_count.
  destruct (Z.ltb_spec n 1); [replace (Z.min (Z.max n 1) 5) with 1 by lia; reflexivity|].
  destruct (Z.ltb_spec 5 n); [replace (Z.min (Z.max n 1) 5) with 5 by lia; reflexivity|].
  f_equal. lia.
Qed.

Lemma star_count_range (n : Z) : (1 <= star_count n <= 5)%nat.
Proof.
  unfold star_count.
  destruct (Z.ltb_spec n 1); [lia|]. destruct (Z.ltb_spec 5 n); lia.
Qed.

(** C4. [value_to_stars], in both renderers, gives as many star glyphs as
    the integer the value parses to when that lies in 1..5, one star for
    a smaller integer, five for a larger one, and the value itself,
    unchanged, when it does not parse as an integer. *)
Theorem value_to_stars_clamps (value : str) :
  Markdown.value_to_stars value = stars_spec value
  /\ Html.value_to_stars value = stars_spec value
  /\ match Py.int (strip value) with
     | Some n =>
       length (Markdown.value_to_stars value) = star_count n
       /\ (1 <= star_count n <= 5)%nat
       /\ star_count n = (if (1 <=? n) && (n <=? 5) then Z.to_nat n
                          else if n <? 1 then 1%nat else 5%nat)
     | None => Markdown.value_to_stars value = value
     end.
Proof.
  assert (H : Markdown.value_to_stars value = stars_spec value).
  { unfold Markdown.value_to_stars, stars_spec.
    destruct (Py.int (strip value)); [|reflexivity].
    by rewrite repeat_str_star, clamp_star_count. }
  split; [exact H|]. split; [exact H|].
  rewrite H. unfold stars_spec.
  destruct (Py.int (strip value)) as [n|]; [|reflexivity].
  rewrite length_replicate. split; [reflexivity|]. split; [apply star_count_range|].
  unfold star_count.
  destruct (Z.leb_spec 1 n), (Z.leb_spec n 5), (Z.ltb_spec n 1), (Z.ltb_spec 5 n);
    simpl; lia.
Qed.

Example value_to_stars_3 : Markdown.value_to_stars "3" = "⭐⭐⭐".
Proof. vm_compute. reflexivity. Qed.
Example value_to_stars_padded : Html.value_to_stars " 5 " = "⭐⭐⭐⭐⭐".
Proof. vm_compute. reflexivity. Qed.
Example value_to_stars_0 : Markdown.value_to_stars "0" = "⭐".
Proof. vm_compute. reflexivity. Qed.
Example value_to_stars_negative : Markdown.value_to_stars "-4" = "⭐".
Proof. vm_compute. reflexivity. Qed.
Example value_to_stars_9 : Html.value_to_stars "9" = "⭐⭐⭐⭐⭐".
Proof. vm_compute. reflexivity. Qed.
Example value_to_stars_text : Markdown.value_to_stars "4.5 of 5" = "4.5 of 5".
Proof. vm_compute. reflexivity. Qed.

(** ** The retrying client *)

Lemma add_events_nil st : add_events st [] = st.
Proof. destruct st. unfold add_events. simpl. by rewrite app_nil_r. Qed.

Lemma add_events_app st e1 e2 :
  add_events (add_events st e1) e2 = add_events st (e1 ++ e2).
Proof. unfold add_events. simpl. by rewrite app_assoc. Qed.

Lemma getitem_key_pure v key st :
  getitem_key v key st = (fst (getitem_key v key any_state), st).
Proof.
  destruct v; try reflexivity. simpl.
  destruct (List.find _ _) as [[? ?]|]; reflexivity.
Qed.

Lemma getitem_0_pure v st : getitem_0 v st = (fst (getitem_0 v any_state), st).
Proof. destruct v as [| | | |[|? ?]|[|? ?]|]; reflexivity. Qed.

Lemma bind_pure {A B} (m : M A) (f : A -> M B) st :
  (forall st, m st = (fst (m any_state), st)) ->
  (forall a st, f a st = (fst (f a any_state), st)) ->
  (m ≫= f) st = (fst ((m ≫= f) any_state), st).
Proof.
  intros Hm Hf. unfold mbind, M_bind.
  rewrite (Hm st), (Hm any_state). simpl.
  destruct (fst (m any_state)); [reflexivity|].
  rewrite (Hf a st), (Hf a any_state). reflexivity.
Qed.

Lemma content_pure result st : content result st = (fst (content result any_state), st).
Proof.
  unfold content.
  apply bind_pure; [intros; apply getitem_key_pure|]. intros choices st1.
  apply bind_pure; [intros; apply getitem_0_pure|]. intros choice st2.
  apply bind_pure; [intros; apply getitem_key_pure|]. intros message st3.
  apply getitem_key_pure.
Qed.

(** One attempt, run: its outcome and its events. *)
Lemma attempt_run net payload pbar k st :
  try_ (result ← post net payload k;
        (if truthy pbar then emit (PbarUpdate 1) else mret tt);;
        content result) st
  = (inr (outcome_of (net k)), add_events st (attempt_events payload pbar (net k))).
Proof.
  unfold try_, post, outcome_of, attempt_events, mbind, M_bind, emit, raise, add_events.
  simpl. destruct (net k) as [e|result]; simpl; [reflexivity|].
  destruct (truthy pbar); simpl; unfold mret, M_ret; simpl.
  - rewrite content_pure. simpl. by rewrite <- app_assoc.
  - rewrite content_pure. reflexivity.
Qed.

Lemma retry_nil net payload pbar last_error st :
  retry net payload pbar last_error [] st
  = (inl (APIConnectionError
            ("API call failed after 3 attempts: "
             ++ match last_error with Some e => exn_str e | None => "None" end)), st).
Proof. reflexivity. Qed.

Lemma retry_cons net payload pbar last_error k ks st :
  retry net payload pbar last_error (k :: ks) st
  = match outcome_of (net k) with
    | inr c => (inr c, add_events st (attempt_events payload pbar (net k)))
    | inl e =>
      retry net payload pbar (Some (last_error_of e)) ks
        (add_events st (attempt_events payload pbar (net k) ++ backoff k))
    end.
Proof.
  cbn [retry]. unfold mbind at 1. unfold M_bind at 1. rewrite attempt_run.
  destruct (outcome_of (net k)) as [e|c]; [|reflexivity].
  unfold mbind at 1. unfold M_bind at 1. unfold backoff.
  destruct (Z.of_nat k <? MAX_RETRIES - 1).
  - unfold emit. cbn [self log]. fold (add_events (add_events st (attempt_events payload pbar (net k))) [Sleep (RETRY_DELAY * (Z.of_nat k + 1))]).
    rewrite add_events_app. reflexivity.
  - unfold mret, M_ret. by rewrite app_nil_r.
Qed.

Lemma generate_open net prompt system_prompt pbar st :
  is_Some (_session (self st)) ->
  generate net prompt system_prompt pbar st
  = retry net (payload_of (self st) prompt system_prompt) pbar None [0; 1; 2]%nat st.
Proof. intros [s Hs]. unfold generate, mbind, M_bind, get_self. by rewrite Hs. Qed.

Lemma without_updates_app e1 e2 :
  without_updates (e1 ++ e2) = without_updates e1 ++ without_updates e2.
Proof. apply List.filter_app. Qed.

Lemma without_updates_backoff k : without_updates (backoff k) = backoff k.
Proof. unfold backoff. by destruct (Z.of_nat k <? MAX_RETRIES - 1). Qed.

Lemma without_updates_last payload pbar r :
  without_updates (attempt_events payload pbar r) = [Post payload].
Proof. unfold attempt_events. destruct r, (truthy pbar); reflexivity. Qed.

Lemma generate_schedule net prompt system_prompt pbar st :
  is_Some (_session (self st)) ->
  exists evs n, (n < 3)%nat
    /\ snd (generate net prompt system_prompt pbar st) = add_events st evs
    /\ without_updates evs = schedule (payload_of (self st) prompt system_prompt) n.
Proof.
  intros Hs. rewrite (generate_open _ _ _ _ _ Hs).
  set (p := payload_of (self st) prompt system_prompt).
  rewrite retry_cons. destruct (outcome_of (net 0%nat)).
  2:{ exists (attempt_events p pbar (net 0%nat)), 0%nat. split; [lia|]. split; [reflexivity|].
      by rewrite without_updates_last. }
  rewrite retry_cons. destruct (outcome_of (net 1%nat)).
  2:{ eexists _, 1%nat. split; [lia|]. rewrite add_events_app. split; [reflexivity|].
      by rewrite !without_updates_app, !without_updates_last, !without_updates_backoff. }
  rewrite retry_cons. destruct (outcome_of (net 2%nat)).
  2:{ eexists _, 2%nat. split; [lia|]. rewrite !add_events_app. split; [reflexivity|].
      by rewrite !without_updates_app, !without_updates_last, !without_updates_backoff. }
  rewrite retry_nil. eexists _, 2%nat. split; [lia|]. rewrite !add_events_app.
  split; [reflexivity|]. by rewrite !without_updates_app, !without_updates_last, !without_updates_backoff.
Qed.

Lemma generate_exhausted net prompt system_prompt pbar st e0 e1 e2 :
  is_Some (_session (self st)) ->
  outcome_of (net 0%nat) = inl e0 ->
  outcome_of (net 1%nat) = inl e1 ->
  outcome_of (net 2%nat) = inl e2 ->
  exists evs,
    generate net prompt system_prompt pbar st
    = (inl (APIConnectionError
              ("API call failed after 3 attempts: " ++ exn_str (last_error_of e2))),
       add_events st evs)
    /\ without_updates evs = schedule (payload_of (self st) prompt system_prompt) 2.
Proof.
  intros Hs H0 H1 H2. rewrite (generate_open _ _ _ _ _ Hs).
  rewrite retry_cons, H0, retry_cons, H1, retry_cons, H2, retry_nil.
  rewrite !add_events_app. eexists. split; [reflexivity|].
  by rewrite !without_updates_app, !without_updates_last, !without_updates_backoff.
Qed.

(** C7. On an open client, a call whose three attempts all fail raises
    one [APIConnectionError] whose message gives the number of attempts
    and the text of the last error as the handlers recorded it; it sends
    three requests with a delay of [RETRY_DELAY * 1] and of
    [RETRY_DELAY * 2] between them and none behind the last.  Whatever
    the replies, the requests and delays of a call are an initial part of
    that schedule ending in a request. *)
Theorem generate_retry_exhaustion net prompt system_prompt pbar st :
  is_Some (_session (self st)) ->
  (exists evs n, (n < 3)%nat
    /\ snd (generate net prompt system_prompt pbar st) = add_events st evs
    /\ without_updates evs = schedule (payload_of (self st) prompt system_prompt) n)
  /\ (forall e0 e1 e2,
       outcome_of (net 0%nat) = inl e0 ->
       outcome_of (net 1%nat) = inl e1 ->
       outcome_of (net 2%nat) = inl e2 ->
       exists evs,
         generate net prompt system_prompt pbar st
         = (inl (APIConnectionError
                   ("API call failed after 3 attempts: " ++ exn_str (last_error_of e2))),
            add_events st evs)
         /\ without_updates evs
            = [Post (payload_of (self st) prompt system_prompt); Sleep (RETRY_DELAY * 1);
               Post (payload_of (self st) prompt system_prompt); Sleep (RETRY_DELAY * 2);
               Post (payload_of (self st) prompt system_prompt)]).
Proof.
  intros Hs. split; [by apply generate_schedule|].
  intros e0 e1 e2 H0 H1 H2. by apply (generate_exhausted _ _ _ _ _ e0 e1 e2).
Qed.

Lemma generate_retry_exhaustion_witness :
  exists evs,
    generate (fun _ => Raises unavailable) "prompt" None None opened_client
    = (inl (APIConnectionError
              ("API call failed after 3 attempts: "
               ++ exn_str (last_error_of unavailable))),
       add_events opened_client evs)
    /\ without_updates evs
       = [Post (payload_of (self opened_client) "prompt" None); Sleep (RETRY_DELAY * 1);
          Post (payload_of (self opened_client) "prompt" None); Sleep (RETRY_DELAY * 2);
          Post (payload_of (self opened_client) "prompt" None)].
Proof.
  assert (Hs : is_Some (_session (self opened_client))) by (eexists; reflexivity).
  exact (proj2 (generate_retry_exhaustion (fun _ => Raises unavailable) "prompt" None None
                  opened_client Hs)
               unavailable unavailable unavailable eq_refl eq_refl eq_refl).
Defined.

(** C10. [generate] on a client whose session is absent raises
    [RuntimeError] at once: the state it returns is the state it was
    called in, so nothing was sent, no progress was reported, no delay
    was taken, and the client is as it was. *)
Theorem generate_without_session net prompt system_prompt pbar st :
  _session (self st) = None ->
  generate net prompt system_prompt pbar st
  = (inl (RuntimeError "Client must be used with context manager"), st).
Proof. intros Hs. unfold generate, mbind, M_bind, get_self. by rewrite Hs. Qed.

Lemma generate_without_session_witness :
  _session (__init__ "key" "openai/gpt-4o-mini" "https://example.com") = None
  /\ generate (fun _ => Body (completion "text")) "prompt" None (Some {| total := 3 |})
       {| self := __init__ "key" "openai/gpt-4o-mini" "https://example.com"; log := [] |}
     = (inl (RuntimeError "Client must be used with context manager"),
        {| self := __init__ "key" "openai/gpt-4o-mini" "https://example.com"; log := [] |}).
Proof.
  split; [reflexivity|]. by apply generate_without_session.
Defined.

(** C2 (defect in the code). The client reports progress before it reads
    the completion out of the response, so an attempt whose body lacks
    the [choices] field reports progress and then fails.  With a first
    body [{}] and a well-formed second one, the task completes once and
    the bar is updated twice; with three bodies [{}] the task fails and
    the bar is updated three times. *)
Theorem progress_reported_by_failing_attempts :
  (let net k := match k with O => Body (Obj []) | _ => Body (completion "text") end in
   let result := generate net "prompt" None (Some {| total := 2 |}) opened_client in
   fst result = inr (Str "text")
   /\ updates (log (snd result)) = 2%nat
   /\ is_update <$> log (snd result) = [false; true; false; false; true])
  /\ (let result :=
        generate (fun _ => Body (Obj [])) "prompt" None (Some {| total := 2 |})
                 opened_client in
      fst result
      = inl (APIConnectionError
               "API call failed after 3 attempts: Unexpected API response: 'choices'")
      /\ updates (log (snd result)) = 3%nat).
Proof. vm_compute. repeat split; reflexivity. Qed.

(** ** The batch *)

Lemma fmap_zip_seq {A B} (f : nat * A -> B) (l : list A) (n : nat) :
  f <$> zip (seq n (length l)) l = imap (fun k x => f ((n + k)%nat, x)) l.
Proof.
  revert n. induction l as [|x l IH]; intros n; [reflexivity|].
  cbn [length seq zip zip_with fmap list_fmap imap]. f_equal; [by rewrite Nat.add_0_r|].
  rewrite IH. apply imap_ext. intros k y _. simpl. do 2 f_equal. lia.
Qed.

Lemma fmap_enumerate {A B} (f : nat * A -> B) (l : list A) :
  f <$> enumerate l = imap (fun k x => f (k, x)) l.
Proof. unfold enumerate. by rewrite fmap_zip_seq. Qed.

Lemma generate_batch_outcomes net tasks pbar client :
  fst (generate_batch net tasks pbar client) = collect ∅ (outcomes net pbar client tasks).
Proof.
  unfold generate_batch, gather, outcomes. cbn [fst].
  f_equal. rewrite <- !list_fmap_compose, fmap_enumerate.
  apply imap_ext. intros k [name prompt] _.
  unfold task_outcome, compose, mbind, M_bind. cbn [fst snd].
  by destruct (generate (net k) prompt None pbar _) as [[e|c] st'].
Qed.

Lemma collect_app_ok output (oks : list (str * value)) rest :
  collect output ((inr <$> oks) ++ rest)
  = collect (foldl (fun d '(k, v) => <[k := v]> d) output oks) rest.
Proof.
  revert output. induction oks as [|[name c] oks IH]; intros output; [reflexivity|].
  cbn. apply IH.
Qed.

Lemma all_ok_split {E A} (l : list (E + A)) :
  (forall o, o ∈ l -> exists x, o = inr x) -> exists xs, l = inr <$> xs.
Proof.
  induction l as [|o l IH]; intros H; [by exists []|].
  destruct (H o) as [x ->]; [left|].
  destruct IH as [xs ->]; [intros o' Ho'; apply H; by right|].
  by exists (x :: xs).
Qed.

Lemma first_failure_split {E A} (l : list (E + A)) k e :
  first_failure l k e -> exists xs rest, l = (inr <$> xs) ++ inl e :: rest.
Proof.
  intros [Hk Hlt].
  destruct (all_ok_split (take k l)) as [xs Hxs].
  { intros o Ho. apply list_elem_of_lookup in Ho as [j Hj].
    pose proof (lookup_lt_Some _ _ _ Hj) as Hlen. rewrite length_take in Hlen.
    rewrite lookup_take_lt in Hj by lia. apply (Hlt j); [lia|done]. }
  exists xs, (drop (S k) l). rewrite <- Hxs.
  rewrite <- (take_drop_middle l k (inl e)) at 1 by done. done.
Qed.

Lemma some_failure_first {E A} (l : list (E + A)) :
  (exists k e, l !! k = Some (inl e)) -> exists k e, first_failure l k e.
Proof.
  induction l as [|o l IH]; intros (k & e & Hk); [done|].
  destruct o as [e'|x].
  - exists 0%nat, e'. split; [done|]. intros j o Hj. lia.
  - destruct k as [|k]; [done|]. destruct IH as (k' & e'' & Hk' & Hlt); [by eauto|].
    exists (S k'), e''. split; [done|]. intros [|j] o Hj Ho.
    + injection Ho as <-. by eexists.
    + apply (Hlt j); [lia|done].
Qed.

(** Successive [d[k] = v] from an initial dict. *)
Section FoldlInsert.
Context {V : Type}.
Implicit Types (d : gmap str V) (xs : list (str * V)).

Let store d xs : gmap str V := foldl (fun d '(k, v) => <[k := v]> d) d xs.

Lemma store_lookup_notin d xs k : k ∉ xs.*1 -> store d xs !! k = d !! k.
Proof.
  revert d. induction xs as [|[k' v'] xs IH]; intros d Hk; [done|].
  cbn in *. apply not_elem_of_cons in Hk as [Hne Hk].
  unfold store in IH. rewrite IH by done. by rewrite lookup_insert_ne.
Qed.

Lemma store_lookup_nodup d xs k v :
  NoDup xs.*1 -> (k, v) ∈ xs -> store d xs !! k = Some v.
Proof.
  revert d. induction xs as [|[k' v'] xs IH]; intros d Hnd Hin; [by apply elem_of_nil in Hin|].
  cbn in *. apply NoDup_cons in Hnd as [Hk' Hnd].
  apply elem_of_cons in Hin as [Heq|Hin].
  - injection Heq as -> ->. fold (store (<[k':=v']> d) xs).
    rewrite store_lookup_notin by done. by rewrite lookup_insert_eq.
  - by apply IH.
Qed.

Lemma store_is_Some d xs k :
  is_Some (store d xs !! k) <-> k ∈ xs.*1 \/ is_Some (d !! k).
Proof.
  revert d. induction xs as [|[k' v'] xs IH]; intros d.
  - cbn. split; [by right|]. intros [H|H]; [by apply elem_of_nil in H|done].
  - cbn. fold (store (<[k':=v']> d) xs). rewrite IH, elem_of_cons.
    rewrite lookup_insert_is_Some. destruct (decide (k' = k)) as [->|Hne]; [tauto|].
    split; [intros [?|[?|[? ?]]]; tauto|]. intros [[?|?]|?]; [congruence|tauto|tauto].
Qed.

Lemma store_size d xs :
  NoDup xs.*1 -> (forall k, k ∈ xs.*1 -> d !! k = None) ->
  size (store d xs) = (size d + length xs)%nat.
Proof.
  revert d. induction xs as [|[k' v'] xs IH]; intros d Hnd Hfresh; [cbn; lia|].
  cbn in *. apply NoDup_cons in Hnd as [Hk' Hnd].
  fold (store (<[k':=v']> d) xs). rewrite IH; [|done|].
  - rewrite map_size_insert_None; [lia|]. apply Hfresh. by left.
  - intros k Hk. rewrite lookup_insert_ne; [apply Hfresh; by right|]. by intros ->.
Qed.

End FoldlInsert.

Lemma outcomes_names net pbar client tasks xs :
  outcomes net pbar client tasks = inr <$> xs -> xs.*1 = tasks.*1.
Proof.
  intros H. apply list_eq. intros k.
  assert (Hk : outcomes net pbar client tasks !! k = (inr <$> xs) !! k) by (by rewrite H).
  unfold outcomes in Hk. rewrite list_lookup_imap, list_lookup_fmap in Hk.
  rewrite !list_lookup_fmap.
  destruct (tasks !! k) as [task|], (xs !! k) as [x|]; try done. cbn in *.
  unfold task_outcome in Hk. destruct (fst (generate _ _ _ _ _)); [done|].
  injection Hk as <-. done.
Qed.

Lemma generate_batch_failure net tasks pbar client k e :
  first_failure (outcomes net pbar client tasks) k e ->
  fst (generate_batch net tasks pbar client) = inl e.
Proof.
  intros H. rewrite generate_batch_outcomes.
  destruct (first_failure_split _ _ _ H) as (xs & rest & ->).
  by rewrite collect_app_ok.
Qed.

Lemma generate_batch_success net tasks pbar client :
  (forall o, o ∈ outcomes net pbar client tasks -> exists x, o = inr x) ->
  exists output,
    fst (generate_batch net tasks pbar client) = inr output
    /\ (forall name, is_Some (output !! name) <-> name ∈ tasks.*1)
    /\ (NoDup tasks.*1 ->
        size output = length tasks
        /\ forall k name content,
             outcomes net pbar client tasks !! k = Some (inr (name, content)) ->
             output !! name = Some content).
Proof.
  intros Hok. destruct (all_ok_split _ Hok) as [xs Hxs].
  pose proof (outcomes_names _ _ _ _ _ Hxs) as Hnames.
  rewrite generate_batch_outcomes, Hxs.
  rewrite <- (app_nil_r (inr <$> xs)), collect_app_ok. cbn [collect].
  eexists. split; [reflexivity|]. split.
  - intros name. rewrite store_is_Some, Hnames, lookup_empty.
    split; [intros [?|[? ?]]; done|by left].
  - intros Hnd. rewrite <- Hnames in Hnd. split.
    + rewrite store_size by done. rewrite map_size_empty.
      rewrite <- (length_fmap fst tasks), <- Hnames, length_fmap. lia.
    + intros k name content Hk. rewrite app_nil_r, list_lookup_fmap in Hk.
      destruct (xs !! k) as [[name' content']|] eqn:Hx; [|done].
      injection Hk as -> ->. apply store_lookup_nodup; [done|].
      by apply list_elem_of_lookup_2 in Hx.
Qed.

(** C3. [generate_batch] is all or nothing.  When some task fails, the
    call raises the exception of the first task, in the order of the
    tasks, that failed, and gives no mapping.  When every task succeeds,
    it returns a mapping whose names are the names of the tasks; when
    these are distinct, as the names of a batch are, it has one entry per
    task and maps each name to the content generated for it.  With three
    tasks of which the second fails, the call raises that failure though
    the first and the third succeeded. *)
Theorem generate_batch_all_or_nothing net tasks pbar client :
  let results := outcomes net pbar client tasks in
  (forall k e, first_failure results k e ->
     fst (generate_batch net tasks pbar client) = inl e)
  /\ ((exists k e, results !! k = Some (inl e)) ->
      exists k e, first_failure results k e
        /\ fst (generate_batch net tasks pbar client) = inl e)
  /\ ((forall o, o ∈ results -> exists x, o = inr x) ->
      exists output,
        fst (generate_batch net tasks pbar client) = inr output
        /\ (forall name, is_Some (output !! name) <-> name ∈ tasks.*1)
        /\ (NoDup tasks.*1 ->
            size output = length tasks
            /\ forall k name content,
                 results !! k = Some (inr (name, content)) ->
                 output !! name = Some content))
  /\ (forall x1 e x3, results = [inr x1; inl e; inr x3] ->
      fst (generate_batch net tasks pbar client) = inl e).
Proof.
  intros results. split; [|split; [|split]].
  - intros k e. apply generate_batch_failure.
  - intros H. destruct (some_failure_first _ H) as (k & e & Hf).
    exists k, e. split; [done|]. by apply (generate_batch_failure _ _ _ _ k).
  - apply generate_batch_success.
  - intros x1 e x3 H. apply (generate_batch_failure _ _ _ _ 1%nat).
    fold results. rewrite H. split; [done|].
    intros [|[|j]] o Hj Ho; [|lia..]. injection Ho as <-. by eexists.
Qed.

Lemma generate_batch_all_or_nothing_witness :
  fst (generate_batch second_refused three_tasks None (self opened_client))
  = inl (APIConnectionError
           ("API call failed after 3 attempts: "
            ++ exn_str (last_error_of unavailable)))
  /\ exists output,
       fst (generate_batch (fun _ _ => Body (completion "text")) three_tasks None
              (self opened_client)) = inr output
       /\ size output = length three_tasks.
Proof.
  split.
  - refine (proj2 (proj2 (proj2 (generate_batch_all_or_nothing second_refused three_tasks
                                   None (self opened_client))))
                  ("intro", Str "text") _ ("conclusion", Str "text") _).
    vm_compute. reflexivity.
  - destruct (proj1 (proj2 (proj2 (generate_batch_all_or_nothing
                                     (fun _ _ => Body (completion "text")) three_tasks
                                     None (self opened_client)))))
      as (output & Hout & _ & Hnd).
    + intros o Ho. vm_compute in Ho.
      repeat (apply elem_of_cons in Ho as [->|Ho]; [by eexists|]).
      by apply elem_of_nil in Ho.
    + exists output. split; [exact Hout|]. apply Hnd.
      apply (bool_decide_unpack _). vm_compute. exact I.
Defined.

(** ** Section prompts *)

Lemma perspective_by_index heading (section_index : Z) :
  Prompts._get_section_perspective heading section_index
  = if (0 <=? section_index) && (section_index <? 5)
    then nth (Z.to_nat section_index) perspectives generic_perspective
    else generic_perspective.
Proof.
  destruct section_index as [|p|p]; [vm_compute; reflexivity| |vm_compute; reflexivity].
  destruct (Z.ltb_spec (Z.pos p) 5) as [Hlt|Hge]; cbn [Z.leb Z.compare andb].
  - assert (H : (p = 1 \/ p = 2 \/ p = 3 \/ p = 4)%positive) by lia.
    destruct H as [-> | [-> | [-> | ->]]]; vm_compute; reflexivity.
  - destruct p as [[[p|p|]|[p|p|]|]|[[p|p|]|[p|p|]|]|]; try lia; vm_compute; reflexivity.
Qed.

Lemma foldl_snoc {A B} (f : A -> B) (acc : list B) (l : list A) :
  foldl (fun acc x => acc ++ [f x]) acc l = acc ++ (f <$> l).
Proof.
  revert acc. induction l as [|x l IH]; intros acc; cbn; [by rewrite app_nil_r|].
  by rewrite IH, <- app_assoc.
Qed.

Lemma app_head_cong {A} (x r b r' : list A) : r = b ++ r' -> x ++ r = (x ++ b) ++ r'.
Proof. intros ->. by rewrite app_assoc. Qed.

Lemma app_nil_head {A} (e t : list A) : e ++ t = [] ++ e ++ t.
Proof. reflexivity. Qed.

Lemma section_prompt_exclusion lower title heading section_words section_index
    total_sections seo placeholders language :
  exists before after, forall previous_topics,
    Prompts.build_section_prompt lower title heading section_words section_index
      total_sections previous_topics seo placeholders language
    = before ++ exclusion_line previous_topics ++ after.
Proof.
  eexists _, _. intros previous_topics.
  unfold Prompts.build_section_prompt. cbv zeta.
  fold (exclusion_line previous_topics).
  do 20 (refine (app_head_cong _ _ _ _ _)).
  refine (app_nil_head _ _).
Qed.

Lemma foldl_ext_all {A B} (f g : B -> A -> B) (b : B) (l : list A) :
  (forall b x, f b x = g b x) -> foldl f b l = foldl g b l.
Proof.
  intros H. revert b. induction l as [|x l IH]; intros b; [done|].
  cbn. by rewrite H, IH.
Qed.

Lemma section_tasks_imap lower config tasks :
  Main.section_tasks lower config tasks
  = tasks ++ imap (fun i section =>
                     ("section_" ++ str_of_int (Z.of_nat i),
                      Prompts.build_section_prompt lower
                        (title config) (heading section) (words section)
                        (Z.of_nat i) (Z.of_nat (length (sections config)))
                        (heading <$> take i (sections config))
                        (seo config) (placeholders config) (language config)))
                  (sections config).
Proof.
  unfold Main.section_tasks, headings.
  rewrite <- (fmap_enumerate
                (fun '(i, section) =>
                   ("section_" ++ str_of_int (Z.of_nat i),
                    Prompts.build_section_prompt lower
                      (title config) (heading section) (words section)
                      (Z.of_nat i) (Z.of_nat (length (sections config)))
                      (heading <$> take i (sections config))
                      (seo config) (placeholders config) (language config)))).
  rewrite <- foldl_snoc.
  apply foldl_ext_all. intros acc [i section]. by rewrite fmap_take.
Qed.

(** Within the table or past it, the perspective at a list position is
    the entry there, the generic perspective being the default. *)
Lemma perspective_at_nat (i : nat) :
  perspective_at (Z.of_nat i) = nth i perspectives generic_perspective.
Proof.
  unfold perspective_at. replace (0 <=? Z.of_nat i) with true by (symmetry; apply Z.leb_le; lia).
  cbn [andb]. destruct (Z.ltb_spec (Z.of_nat i) 5) as [Hlt|Hge].
  - by rewrite Nat2Z.id.
  - symmetry. apply List.nth_overflow.
    replace (length perspectives) with 5%nat by reflexivity. lia.
Qed.

(** The text of a section prompt: its head with the section number and
    the perspective of its index, and the exclusion line right after the
    [AVOID:] header; the two remaining pieces depend neither on the
    index nor on the topics already covered. *)
Lemma section_prompt_shape lower title heading section_words total_sections seo
    placeholders language :
  exists middle after, forall section_index previous_topics,
    Prompts.build_section_prompt lower title heading section_words section_index
      total_sections previous_topics seo placeholders language
    = "Write original content about \q" ++ heading ++ "\q.\n\nMAIN TITLE: " ++ title
      ++ "\nSECTION: " ++ str_of_int (section_index + 1) ++ "/" ++ str_of_int total_sections
      ++ "\nPERSPECTIVE: " ++ perspective_at section_index
      ++ "\nTONE: " ++ middle
      ++ "\n\nAVOID:" ++ exclusion_line previous_topics ++ after.
Proof.
  eexists _, _. intros section_index previous_topics.
  unfold Prompts.build_section_prompt. cbv zeta.
  fold (exclusion_line previous_topics).
  rewrite perspective_by_index. fold (perspective_at section_index).
  do 11 (refine (f_equal (app _) _)).
  do 8 (refine (app_head_cong _ _ _ _ _)).
  refine (app_nil_head _ _).
Qed.

(** The task of the section at position [i], as the text of its prompt. *)
Lemma section_task_shape lower config tasks i section :
  sections config !! i = Some section ->
  exists middle after,
    Main.section_tasks lower config tasks !! (length tasks + i)%nat
    = Some ("section_" ++ str_of_int (Z.of_nat i),
            "Write original content about \q" ++ heading section
            ++ "\q.\n\nMAIN TITLE: " ++ title config
            ++ "\nSECTION: " ++ str_of_int (Z.of_nat i + 1) ++ "/"
            ++ str_of_int (Z.of_nat (length (sections config)))
            ++ "\nPERSPECTIVE: " ++ nth i perspectives generic_perspective
            ++ "\nTONE: " ++ middle
            ++ "\n\nAVOID:" ++ exclusion_line (take i (headings config)) ++ after).
Proof.
  intros Hi.
  destruct (section_prompt_shape lower (title config) (heading section) (words section)
              (Z.of_nat (length (sections config))) (seo config) (placeholders config)
              (language config)) as (middle & after & Hshape).
  exists middle, after.
  rewrite section_tasks_imap, lookup_app_r by lia.
  replace (length tasks + i - length tasks)%nat with i by lia.
  rewrite list_lookup_imap, Hi. cbn [fmap option_fmap option_map].
  rewrite Hshape, perspective_at_nat. unfold headings. rewrite fmap_take. reflexivity.
Qed.

(** C9. The perspective of a section is the entry of the five-entry
    table at its index, and the generic perspective at every index from
    5 on (and at any index outside the table).  The task of the section
    at index [i] is built from the headings of the sections before it,
    [headings[:i]], and nothing else of the other sections; they enter
    the prompt only through the line that lists what is already covered,
    which is absent when there is none.  The prompt itself prints, after
    the heading, the title and the section number, the line
    [PERSPECTIVE:] with the perspective of its own index, and after
    [AVOID:] the exclusion line; so the task of the section at position
    [i] carries the perspective at [i] and the headings before [i]. *)
Theorem section_prompt_construction lower config tasks :
  (forall heading section_index,
     Prompts._get_section_perspective heading section_index
     = if (0 <=? section_index) && (section_index <? 5)
       then nth (Z.to_nat section_index) perspectives generic_perspective
       else generic_perspective)
  /\ length perspectives = 5%nat
  /\ (forall heading (i : nat),
        Prompts._get_section_perspective heading (Z.of_nat (5 + i)) = generic_perspective)
  /\ Main.section_tasks lower config tasks
     = tasks ++ imap (fun i section =>
                        ("section_" ++ str_of_int (Z.of_nat i),
                         Prompts.build_section_prompt lower
                           (title config) (heading section) (words section)
                           (Z.of_nat i) (Z.of_nat (length (sections config)))
                           (heading <$> take i (sections config))
                           (seo config) (placeholders config) (language config)))
                     (sections config)
  /\ (forall title heading section_words section_index total_sections seo
             placeholders language,
        exists before after, forall previous_topics,
          Prompts.build_section_prompt lower title heading section_words section_index
            total_sections previous_topics seo placeholders language
          = before ++ exclusion_line previous_topics ++ after)
  /\ (forall title heading section_words total_sections seo placeholders language,
        exists middle after, forall section_index previous_topics,
          Prompts.build_section_prompt lower title heading section_words section_index
            total_sections previous_topics seo placeholders language
          = "Write original content about \q" ++ heading ++ "\q.\n\nMAIN TITLE: " ++ title
            ++ "\nSECTION: " ++ str_of_int (section_index + 1) ++ "/"
            ++ str_of_int total_sections
            ++ "\nPERSPECTIVE: " ++ perspective_at section_index
            ++ "\nTONE: " ++ middle
            ++ "\n\nAVOID:" ++ exclusion_line previous_topics ++ after)
  /\ (forall i section, sections config !! i = Some section ->
        exists middle after,
          Main.section_tasks lower config tasks !! (length tasks + i)%nat
          = Some ("section_" ++ str_of_int (Z.of_nat i),
                  "Write original content about \q" ++ heading section
                  ++ "\q.\n\nMAIN TITLE: " ++ title config
                  ++ "\nSECTION: " ++ str_of_int (Z.of_nat i + 1) ++ "/"
                  ++ str_of_int (Z.of_nat (length (sections config)))
                  ++ "\nPERSPECTIVE: " ++ nth i perspectives generic_perspective
                  ++ "\nTONE: " ++ middle
                  ++ "\n\nAVOID:" ++ exclusion_line (take i (headings config)) ++ after)).
Proof.
  split; [apply perspective_by_index|]. split; [reflexivity|]. split.
  - intros heading i. rewrite perspective_by_index.
    destruct (Z.ltb_spec (Z.of_nat (5 + i)) 5); [lia|]. by rewrite andb_false_r.
  - split; [apply section_tasks_imap|].
    split; [intros; apply section_prompt_exclusion|].
    split; [intros; apply section_prompt_shape|].
    intros i section Hi. by apply section_task_shape.
Qed.

(** The only section of [one_section]: the first perspective and no
    heading before it. *)
Lemma section_prompt_construction_witness :
  exists middle after,
    Main.section_tasks (fun s => s) one_section [] !! (length ([] : list (str * str)) + 0)%nat
    = Some ("section_" ++ str_of_int (Z.of_nat 0),
            "Write original content about \q" ++ heading {| heading := "Brewing"; words := 100 |}
            ++ "\q.\n\nMAIN TITLE: " ++ title one_section
            ++ "\nSECTION: " ++ str_of_int (Z.of_nat 0 + 1) ++ "/"
            ++ str_of_int (Z.of_nat (length (sections one_section)))
            ++ "\nPERSPECTIVE: " ++ nth 0 perspectives generic_perspective
            ++ "\nTONE: " ++ middle
            ++ "\n\nAVOID:" ++ exclusion_line (take 0 (headings one_section)) ++ after).
Proof.
  exact (proj2 (proj2 (proj2 (proj2 (proj2 (proj2
           (section_prompt_construction (fun s => s) one_section []))))))
           0%nat {| heading := "Brewing"; words := 100 |} eq_refl).
Defined.

(** A section prompt, checked against the text the builder prints. *)
Example build_section_prompt_sample :
  Prompts.build_section_prompt (fun s => s) "T" "Tips" 100 1 3 ["A"]
    {| primary_keyword := "seo"; secondary_keywords := ["Tips"; "zzz"];
       tone := "professional"; target_audience := "" |}
    {| item_prefix := "ITEM"; value_prefix := "VALUE" |} "English"
  = "Write original content about \qTips\q.\n\nMAIN TITLE: T\nSECTION: 2/3\nPERSPECTIVE: Practical comparison and evaluation criteria\nTONE: Professional and formal\n\nCONTENT REQUIREMENTS:\n- Approximately 100 words\n- At least 1 concrete example or numerical data\n- At least 2 practical, actionable tips\n- For bullet lists use: \q• \q\n- Primary keyword (seo): Use naturally once in this section\n- Related keywords (use naturally): Tips\n- Use placeholders: [ITEM_NAME], [VALUE_VALUE]\n\nAVOID:\n- DO NOT REPEAT (already covered): A\n- DO NOT REPEAT MAIN TITLE: Don't use \qT\q within the section\n- Generic phrases: \qquality service\q, \qreliable platform\q, \qprofessional team\q\n- Exaggerated claims: \qthe best\q, \qabsolutely\q, \qmust\q, \qguaranteed\q\n- Filler sentences: \qas everyone knows\q, \qundoubtedly\q\n\nIMPORTANT: Write plain text only. Do not use HTML tags.\n\nLANGUAGE: Write the content in English.".
Proof. vm_compute. reflexivity. Qed.

(** ** Text segmentation *)

Ltac flush_view s :=
  destruct s as [bs [|i lb] [|p pb]]; try done;
  unfold Markdown.flush_para, Markdown.flush_list, Html.flush_para, Html.flush_list,
         flush_paragraph, flush_bullets, md_view, html_view;
  cbn [is_empty blocks list_buffer para_buffer
       Markdown.paragraphs Markdown.current_list Markdown.current_para
       Html.paragraphs Html.current_list Html.current_para];
  cbv zeta; by rewrite fmap_app.

Lemma md_flush_para s : Markdown.flush_para (md_view s) = md_view (flush_paragraph s).
Proof. flush_view s. Qed.

Lemma md_flush_list s : Markdown.flush_list (md_view s) = md_view (flush_bullets s).
Proof. flush_view s. Qed.

Lemma html_flush_para s : Html.flush_para (html_view s) = html_view (flush_paragraph s).
Proof. flush_view s. Qed.

Lemma html_flush_list s : Html.flush_list (html_view s) = html_view (flush_bullets s).
Proof. flush_view s. Qed.

Lemma md_step s line : Markdown.step (md_view s) line = md_view (feed s line).
Proof.
  unfold Markdown.step, feed, classify. cbv zeta.
  destruct (is_empty (strip line)); [by rewrite md_flush_para, md_flush_list|].
  destruct (startswith_any _ _); [by rewrite md_flush_para|by rewrite md_flush_list].
Qed.

Lemma html_step s line : Html.step (html_view s) line = html_view (feed s line).
Proof.
  unfold Html.step, feed, classify. cbv zeta.
  destruct (is_empty (strip line)); [by rewrite html_flush_para, html_flush_list|].
  destruct (startswith_any _ _); [by rewrite html_flush_para|by rewrite html_flush_list].
Qed.

Lemma md_foldl s lines :
  foldl Markdown.step (md_view s) lines = md_view (foldl feed s lines).
Proof.
  revert s. induction lines as [|line lines IH]; intros s; [done|].
  cbn. by rewrite md_step, IH.
Qed.

Lemma html_foldl s lines :
  foldl Html.step (html_view s) lines = html_view (foldl feed s lines).
Proof.
  revert s. induction lines as [|line lines IH]; intros s; [done|].
  cbn. by rewrite html_step, IH.
Qed.

Lemma text_to_md_segment ieq text keywords :
  Markdown.text_to_md ieq text keywords
  = if is_empty (strip text) then ""
    else
      let md := join "\n\n" (md_block <$> segment text) in
      match keywords with
      | Some (_ :: _ as keywords) => Markdown.highlight_keywords_md ieq md keywords
      | _ => md
      end.
Proof.
  unfold Markdown.text_to_md, segment. cbv zeta.
  destruct (is_empty (strip text)); [done|].
  change {| Markdown.paragraphs := []; Markdown.current_list := [];
            Markdown.current_para := [] |} with (md_view empty_segmenter).
  by rewrite md_foldl, md_flush_para, md_flush_list.
Qed.

Lemma text_to_html_segment ieq text keywords :
  Html.text_to_html ieq text keywords
  = if is_empty (strip text) then ""
    else
      let html := join "\n" (html_block <$> segment text) in
      match keywords with
      | Some (_ :: _ as keywords) => Html.highlight_keywords ieq html keywords
      | _ => html
      end.
Proof.
  unfold Html.text_to_html, segment. cbv zeta.
  destruct (is_empty (strip text)); [done|].
  change {| Html.paragraphs := []; Html.current_list := [];
            Html.current_para := [] |} with (html_view empty_segmenter).
  by rewrite html_foldl, html_flush_para, html_flush_list.
Qed.

Lemma feed_exclusive s line : exclusive s -> exclusive (feed s line).
Proof.
  unfold exclusive, feed, flush_bullets, flush_paragraph.
  destruct s as [bs [|i lb] [|p pb]]; intros [H|H]; try discriminate H;
    destruct (classify line); cbn; auto.
Qed.

Lemma foldl_feed_exclusive s lines : exclusive s -> exclusive (foldl feed s lines).
Proof.
  revert s. induction lines as [|line lines IH]; intros s H; [done|].
  cbn. apply IH. by apply feed_exclusive.
Qed.

(** C5. Both renderers cut a text into the same blocks, those of the
    two-buffer machine [feed]: a blank line flushes the paragraph buffer
    and then the list buffer; a bullet line flushes the paragraph buffer
    and adds its item to the list buffer; any other line flushes the list
    buffer and joins the paragraph buffer; at the end both are flushed in
    the same order.  The rendering is the blocks in their markup, joined,
    and highlighted after that.  The two buffers are never pending
    together.  The text "a\nb\n\n- x\n- y" gives the paragraph "a b"
    and then the list of x and y. *)
Theorem text_segmentation ieq text keywords :
  Markdown.text_to_md ieq text keywords
  = (if is_empty (strip text) then ""
     else
       let md := join "\n\n" (md_block <$> segment text) in
       match keywords with
       | Some (_ :: _ as keywords) => Markdown.highlight_keywords_md ieq md keywords
       | _ => md
       end)
  /\ Html.text_to_html ieq text keywords
     = (if is_empty (strip text) then ""
        else
          let html := join "\n" (html_block <$> segment text) in
          match keywords with
          | Some (_ :: _ as keywords) => Html.highlight_keywords ieq html keywords
          | _ => html
          end)
  /\ (forall lines, exclusive (foldl feed empty_segmenter lines))
  /\ segment "a\nb\n\n- x\n- y" = [Paragraph "a b"; BulletList ["x"; "y"]]
  /\ Markdown.text_to_md ieq "a\nb\n\n- x\n- y" None = "a b\n\n- x\n- y"
  /\ Html.text_to_html ieq "a\nb\n\n- x\n- y" None
     = "<p>a b</p>\n<ul>\n  <li>x</li>\n  <li>y</li>\n</ul>".
Proof.
  split; [apply text_to_md_segment|]. split; [apply text_to_html_segment|].
  split; [intros lines; apply foldl_feed_exclusive; by left|].
  split; [vm_compute; reflexivity|].
  split; [rewrite text_to_md_segment|rewrite text_to_html_segment]; vm_compute; reflexivity.
Qed.

(** ** Table parsing *)

Lemma values_loop (columns : list TableColumn) (pre parts : list str) (d : gmap str str) :
  (length columns <= length parts)%nat ->
  foldl (fun (values : gmap str str) '(i, col) =>
           <[name col := if (i <? length (pre ++ parts))%nat
                         then nth i (pre ++ parts) "" else ""]> values)
        d (zip (seq (length pre) (length columns)) columns)
  = foldl (fun d '(k, v) => <[k := v]> d) d
          (zip (name <$> columns) (take (length columns) parts)).
Proof.
  revert pre parts d. induction columns as [|col columns IH]; intros pre parts d Hlen; [done|].
  destruct parts as [|part parts]; [cbn in Hlen; lia|].
  cbn [length seq zip zip_with foldl fmap list_fmap take].
  assert (Hlt : (length pre <? length (pre ++ part :: parts))%nat = true).
  { apply Nat.ltb_lt. rewrite length_app. cbn. lia. }
  rewrite Hlt. rewrite app_nth2 by lia. rewrite Nat.sub_diag. cbn [nth].
  specialize (IH (pre ++ [part]) parts (<[name col := part]> d)).
  replace (length (pre ++ [part])) with (S (length pre)) in IH
    by (rewrite length_app; cbn; lia).
  rewrite <- app_assoc in IH. cbn [app] in IH. apply IH. cbn in Hlen. lia.
Qed.

Lemma values_loop_enumerate (columns : list TableColumn) (parts : list str) :
  (length columns <= length parts)%nat ->
  foldl (fun (values : gmap str str) '(i, col) =>
           <[name col := if (i <? length parts)%nat then nth i parts "" else ""]> values)
        ∅ (enumerate columns)
  = dict (zip (name <$> columns) (take (length columns) parts)).
Proof. intros H. exact (values_loop columns [] parts ∅ H). Qed.

Lemma parse_line_kept columns rows line :
  Text.parse_line columns rows line
  = rows ++ (if kept columns line then [row_of columns line] else []).
Proof.
  unfold Text.parse_line, kept, row_of, fields. cbv zeta.
  destruct (is_empty (strip line)); [by rewrite app_nil_r|].
  destruct (contains _ _); [|by rewrite app_nil_r]. cbn [negb orb andb].
  destruct (Nat.leb_spec (length columns) (length (strip <$> split 124%N (strip line))));
    [|by rewrite app_nil_r].
  by rewrite values_loop_enumerate.
Qed.

Lemma parse_lines_kept columns rows lines :
  foldl (Text.parse_line columns) rows lines
  = rows ++ (row_of columns <$> List.filter (kept columns) lines).
Proof.
  revert rows. induction lines as [|line lines IH]; intros rows; [by rewrite app_nil_r|].
  cbn [foldl List.filter]. rewrite IH, parse_line_kept.
  destruct (kept columns line); [|by rewrite app_nil_r].
  by rewrite <- app_assoc.
Qed.

Lemma row_of_lookup columns line i col :
  NoDup (name <$> columns) -> kept columns line = true -> columns !! i = Some col ->
  values (row_of columns line) !! name col = fields line !! i.
Proof.
  intros Hnd Hk Hi. unfold kept in Hk.
  apply andb_prop in Hk as [_ Hlen]. apply Nat.leb_le in Hlen.
  destruct (lookup_lt_is_Some_2 (fields line) i) as [field Hf].
  { apply lookup_lt_Some in Hi. lia. }
  rewrite Hf. unfold row_of, dict. cbn [values].
  apply store_lookup_nodup.
  - rewrite fst_zip; [done|]. rewrite length_fmap, length_take. lia.
  - apply list_elem_of_lookup_2 with i. apply lookup_zip_with_Some.
    exists (name col), field. split; [done|]. split; [by rewrite list_lookup_fmap, Hi|].
    rewrite lookup_take_lt; [done|]. by apply lookup_lt_Some in Hi.
Qed.

(** C6. [parse_table_data] gives one row per line of the stripped text
    that is not blank, holds a pipe and splits into at least as many
    trimmed fields as there are columns, in order; a line with fewer
    fields is dropped, nothing is raised.  The row maps the column names,
    by position, to the first fields, one per column: with distinct
    names, the column at index [i] holds field [i], and the fields beyond
    the columns are not read. *)
Theorem parse_table_data_filters raw columns :
  Text.parse_table_data raw columns
  = row_of columns <$> List.filter (kept columns) (split 0x0A%N (strip raw))
  /\ (forall line, kept columns line = true ->
        (length columns <= length (fields line))%nat)
  /\ (forall line, (length (fields line) < length columns)%nat ->
        kept columns line = false)
  /\ (forall line i col,
        NoDup (name <$> columns) -> kept columns line = true ->
        columns !! i = Some col ->
        values (row_of columns line) !! name col = fields line !! i)
  /\ (forall line line',
        take (length columns) (fields line) = take (length columns) (fields line') ->
        row_of columns line = row_of columns line').
Proof.
  split; [unfold Text.parse_table_data; by rewrite parse_lines_kept|].
  split; [|split; [|split]].
  - intros line Hk. unfold kept in Hk. apply andb_prop in Hk as [_ Hk].
    by apply Nat.leb_le.
  - intros line Hlt. unfold kept.
    destruct (Nat.leb_spec (length columns) (length (fields line))); [lia|].
    by rewrite andb_false_r.
  - intros line i col. apply row_of_lookup.
  - intros line line' H. unfold row_of. by rewrite H.
Qed.

Lemma parse_table_data_filters_witness :
  values (row_of two_columns "x | y | z") !! name (text_column "b" "B")
  = fields "x | y | z" !! 1%nat
  /\ kept two_columns "only one field" = false.
Proof.
  split.
  - apply (proj1 (proj2 (proj2 (proj2 (parse_table_data_filters "" two_columns))))).
    + apply (bool_decide_unpack _). vm_compute. exact I.
    + vm_compute. reflexivity.
    + reflexivity.
  - apply (proj1 (proj2 (proj2 (parse_table_data_filters "" two_columns)))).
    vm_compute. lia.
Defined.

Example parse_table_data_sample :
  (fun row => (get row "a" "", get row "b" ""))
    <$> Text.parse_table_data "  x | y | z \nshort\n\n | only |\n p|q" two_columns
  = [("x" : str, "y" : str); ("", "only"); ("p", "q")].
Proof. vm_compute. reflexivity. Qed.

(** ** Strings: [strip], [split] and [join] *)

Section StringLemmas.
Local Open Scope N_scope.

Lemma lstrip_nonspace c s : isspace c = false -> lstrip (c :: s) = c :: s.
Proof. intros H. cbn. by rewrite H. Qed.

Lemma lstrip_space c s : isspace c = true -> lstrip (c :: s) = lstrip s.
Proof. intros H. cbn. by rewrite H. Qed.

Lemma rstrip_snoc_space s c : isspace c = true -> rstrip (s ++ [c]) = rstrip s.
Proof. intros H. unfold rstrip. by rewrite reverse_snoc, lstrip_space. Qed.

Lemma rstrip_snoc_nonspace s c : isspace c = false -> rstrip (s ++ [c]) = s ++ [c].
Proof.
  intros H. unfold rstrip. rewrite reverse_snoc, lstrip_nonspace by done.
  by rewrite reverse_cons, reverse_involutive.
Qed.

Lemma rstrip_nil : rstrip [] = [].
Proof. reflexivity. Qed.

(** A string that neither begins nor ends with whitespace is its own
    [strip]. *)
Lemma strip_bracketed c m c' :
  isspace c = false -> isspace c' = false -> strip (c :: m ++ [c']) = c :: m ++ [c'].
Proof.
  intros H H'. unfold strip. rewrite lstrip_nonspace by done.
  by rewrite app_comm_cons, rstrip_snoc_nonspace.
Qed.

Lemma lstrip_snoc_space s c :
  isspace c = true ->
  lstrip (s ++ [c]) = if is_empty (lstrip s) then [] else lstrip s ++ [c].
Proof.
  intros H. induction s as [|a s IH]; cbn.
  - by rewrite H.
  - destruct (isspace a); [exact IH|reflexivity].
Qed.

(** Padding with a space on either side does not show after [strip]. *)
Lemma strip_padded s : strip (0x20 :: s ++ [0x20]) = strip s.
Proof.
  unfold strip. rewrite lstrip_space by reflexivity.
  rewrite lstrip_snoc_space by reflexivity.
  destruct (lstrip s) as [|a t] eqn:E; [reflexivity|].
  cbn [is_empty]. by rewrite rstrip_snoc_space.
Qed.

Lemma split_no_sep sep s : sep ∉ s -> split sep s = [s].
Proof.
  induction s as [|c s IH]; intros H; [reflexivity|].
  apply not_elem_of_cons in H as [Hne Hs]. cbn.
  destruct (N.eqb_spec c sep); [congruence|]. by rewrite IH.
Qed.

Lemma split_app_sep sep s rest :
  sep ∉ s -> split sep (s ++ sep :: rest) = s :: split sep rest.
Proof.
  induction s as [|c s IH]; intros H; cbn.
  - by rewrite N.eqb_refl.
  - apply not_elem_of_cons in H as [Hne Hs].
    destruct (N.eqb_spec c sep); [congruence|]. by rewrite IH.
Qed.

(** Splitting undoes joining on a separator that the parts do not hold. *)
Lemma split_join sep parts :
  parts <> [] -> Forall (fun part => sep ∉ part) parts ->
  split sep (join [sep] parts) = parts.
Proof.
  induction parts as [|part parts IH]; intros Hne Hall; [done|].
  apply Forall_cons in Hall as [Hpart Hall].
  destruct parts as [|part' parts].
  - cbn. by apply split_no_sep.
  - cbn [join]. cbn [app]. rewrite split_app_sep by done.
    f_equal. by apply IH.
Qed.

Lemma join_cons_cons sep p p' ps :
  join sep (p :: p' :: ps) = p ++ sep ++ join sep (p' :: ps).
Proof. reflexivity. Qed.

Lemma contains_elem c s : contains c s = true <-> c ∈ s.
Proof.
  unfold contains. rewrite existsb_exists. split.
  - intros (x & Hin & Heq). apply N.eqb_eq in Heq as ->. by apply list_elem_of_In.
  - intros H. exists c. split; [by apply list_elem_of_In|apply N.eqb_refl].
Qed.

End StringLemmas.

(** ** The Markdown table, built and parsed again *)

Lemma lit_line_feed : ("\n" : str) = [0x0A%N].
Proof. vm_compute. reflexivity. Qed.

Lemma lit_pipes :
  ("| " : str) = [0x7C; 0x20]%N /\ (" | " : str) = [0x20; 0x7C; 0x20]%N
  /\ (" |" : str) = [0x20; 0x7C]%N.
Proof. vm_compute. auto. Qed.

Lemma row_values_fmap columns row :
  Markdown.row_values columns row
  = (fun col => let value := get row (name col) "" in
                if bool_decide (type col = "stars")
                then Markdown.value_to_stars value else value) <$> columns.
Proof. unfold Markdown.row_values. by rewrite foldl_snoc. Qed.

Lemma row_values_length columns row :
  length (Markdown.row_values columns row) = length columns.
Proof. by rewrite row_values_fmap, length_fmap. Qed.

Lemma build_table_md_lines rows columns :
  rows <> [] -> columns <> [] ->
  Markdown.build_table_md rows columns
  = join [0x0A%N] (table_line <$> table_cells rows columns).
Proof.
  intros Hr Hc. unfold Markdown.build_table_md, table_cells. cbv zeta.
  destruct rows as [|row rows]; [done|]. destruct columns as [|col columns]; [done|].
  cbn [is_empty orb].
  rewrite (foldl_snoc (table_line ∘ Markdown.row_values (col :: columns))).
  rewrite lit_line_feed, list_fmap_compose. reflexivity.
Qed.

Lemma join_snoc sep parts p :
  parts <> [] -> join sep (parts ++ [p]) = join sep parts ++ sep ++ p.
Proof.
  induction parts as [|a parts IH]; intros Hne; [done|].
  destruct parts as [|b parts]; [reflexivity|].
  cbn [app]. rewrite !join_cons_cons. cbn [app] in IH. rewrite IH by done.
  by rewrite <- !app_assoc.
Qed.

Lemma join_padded cells :
  cells <> [] ->
  [0x20%N] ++ join ([0x20; 0x7C; 0x20]%N) cells ++ [0x20%N]
  = join [0x7C%N] (padded <$> cells).
Proof.
  induction cells as [|c cells IH]; intros Hne; [done|].
  destruct cells as [|c' cells]; [reflexivity|].
  cbn [fmap list_fmap]. rewrite !join_cons_cons.
  cbn [fmap list_fmap] in IH. rewrite <- IH by done.
  unfold padded. cbn [app]. rewrite <- !app_assoc. reflexivity.
Qed.

Lemma table_line_join cells :
  cells <> [] ->
  table_line cells = join [0x7C%N] ([] :: (padded <$> cells) ++ [[]]).
Proof.
  intros Hne. unfold table_line.
  destruct lit_pipes as (-> & -> & ->).
  assert (Hp : padded <$> cells <> []) by (by destruct cells).
  destruct ((padded <$> cells) ++ [[]]) as [|p ps] eqn:E;
    [by destruct (padded <$> cells)|].
  rewrite join_cons_cons, <- E, join_snoc by done.
  rewrite <- join_padded by done. cbn [app]. rewrite <- !app_assoc. reflexivity.
Qed.

Lemma not_elem_of_join (c : N) sep parts :
  c ∉ sep -> Forall (fun part => c ∉ part) parts -> c ∉ join sep parts.
Proof.
  intros Hsep. induction parts as [|p parts IH]; intros Hall; [apply not_elem_of_nil|].
  apply Forall_cons in Hall as [Hp Hall].
  destruct parts as [|p' parts]; [done|].
  rewrite join_cons_cons, !not_elem_of_app. auto.
Qed.

Lemma table_line_bracketed cells :
  exists m, table_line cells = 0x7C%N :: m ++ [0x7C%N].
Proof.
  unfold table_line. destruct lit_pipes as (-> & _ & ->).
  exists (0x20%N :: join " | " cells ++ [0x20%N]).
  cbn [app]. by rewrite <- !app_assoc.
Qed.

Lemma strip_table_line cells : strip (table_line cells) = table_line cells.
Proof. destruct (table_line_bracketed cells) as [m ->]. by apply strip_bracketed. Qed.

Lemma table_line_no_line_feed cells : Forall clean cells -> 0x0A%N ∉ table_line cells.
Proof.
  intros Hc. unfold table_line. destruct lit_pipes as (-> & -> & ->).
  rewrite !not_elem_of_app. split; [|split].
  - by intros [[=]|[[=]|?%elem_of_nil]%elem_of_cons]%elem_of_cons.
  - apply not_elem_of_join.
    + by intros [[=]|[[=]|[[=]|?%elem_of_nil]%elem_of_cons]%elem_of_cons]%elem_of_cons.
    + eapply Forall_impl; [exact Hc|]. by intros cell [_ ?].
  - by intros [[=]|[[=]|?%elem_of_nil]%elem_of_cons]%elem_of_cons.
Qed.

Lemma fields_table_line cells :
  cells <> [] -> Forall clean cells ->
  fields (table_line cells) = [] :: (strip <$> cells) ++ [[]].
Proof.
  intros Hne Hc. unfold fields. rewrite strip_table_line, table_line_join by done.
  rewrite split_join.
  - cbn [fmap list_fmap]. rewrite fmap_app, <- list_fmap_compose. cbn [fmap list_fmap].
    f_equal. f_equal. apply list_fmap_ext. intros i cell _. apply strip_padded.
  - done.
  - apply Forall_cons. split; [apply not_elem_of_nil|].
    apply Forall_app. split; [|by apply Forall_singleton, not_elem_of_nil].
    apply Forall_fmap. eapply Forall_impl; [exact Hc|]. intros cell [Hp _].
    unfold padded. cbn. rewrite not_elem_of_cons, not_elem_of_app, not_elem_of_cons.
    repeat split; [done|done|done|apply not_elem_of_nil].
Qed.

Lemma zip_take_long {A B} (l : list A) (k k' : list B) :
  (length l <= length k)%nat -> zip l (take (length l) (k ++ k')) = zip l k.
Proof.
  revert k. induction l as [|x l IH]; intros k H; [done|].
  destruct k as [|y k]; [cbn in H; lia|]. cbn in *. f_equal. apply IH. lia.
Qed.

Lemma row_of_table_line columns cells :
  cells <> [] -> Forall clean cells -> length cells = length columns ->
  kept columns (table_line cells) = true
  /\ row_of columns (table_line cells) = shifted_row columns cells.
Proof.
  intros Hne Hc Hlen. unfold kept, row_of, shifted_row.
  rewrite fields_table_line, strip_table_line by done. split.
  - apply andb_true_intro. split; [apply andb_true_intro; split|].
    + destruct (table_line_bracketed cells) as [m ->]. reflexivity.
    + destruct (table_line_bracketed cells) as [m ->]. reflexivity.
    + apply Nat.leb_le. cbn. rewrite length_app, length_fmap. lia.
  - f_equal. f_equal.
    rewrite <- (length_fmap name columns).
    change ([] :: (strip <$> cells) ++ [[]]) with (([] :: (strip <$> cells)) ++ [[]]).
    rewrite (zip_take_long (name <$> columns) ([] :: (strip <$> cells)) [[]]); [done|].
    cbn. rewrite !length_fmap. lia.
Qed.

Lemma all_kept {A} (f : A -> bool) (l : list A) :
  Forall (fun x => f x = true) l -> List.filter f l = l.
Proof.
  induction 1 as [|x l Hx _ IH]; [done|]. cbn. by rewrite Hx, IH.
Qed.

Lemma table_cells_length rows columns cells :
  cells ∈ table_cells rows columns -> length cells = length columns.
Proof.
  unfold table_cells. rewrite !elem_of_cons, list_elem_of_fmap.
  intros [->|[->|(row & -> & _)]].
  - apply length_fmap.
  - apply length_replicate.
  - apply row_values_length.
Qed.

Lemma clean_separator : clean "---".
Proof. split; apply (bool_decide_unpack _); vm_compute; exact I. Qed.

Lemma join_bracketed lines :
  lines <> [] -> Forall bracketed lines -> bracketed (join [0x0A%N] lines).
Proof.
  induction lines as [|l lines IH]; intros Hne Hall; [done|].
  apply Forall_cons in Hall as [[m ->] Hall].
  destruct lines as [|l' lines]; [by exists m|].
  destruct IH as [m' Hm']; [done..|].
  rewrite join_cons_cons, Hm'.
  exists (m ++ [0x7C%N] ++ [0x0A%N] ++ 0x7C%N :: m').
  cbn [app]. rewrite <- !app_assoc. reflexivity.
Qed.

Lemma reparse_table_lines rows columns :
  rows <> [] -> columns <> [] ->
  Forall clean (header <$> columns) ->
  Forall (fun row => Forall clean (Markdown.row_values columns row)) rows ->
  Text.parse_table_data (Markdown.build_table_md rows columns) columns
  = shifted_row columns <$> table_cells rows columns.
Proof.
  intros Hr Hc Hh Hv.
  assert (Hcells : Forall (fun cells => cells <> [] /\ Forall clean cells
                                        /\ length cells = length columns)
                          (table_cells rows columns)).
  { apply Forall_forall. intros cells Hin.
    pose proof (table_cells_length _ _ _ Hin) as Hlen.
    split; [intros ->; by destruct columns|]. split; [|done].
    unfold table_cells in Hin. rewrite !elem_of_cons, list_elem_of_fmap in Hin.
    destruct Hin as [->|[->|(row & -> & Hrow)]]; [done| |].
    - apply Forall_replicate, clean_separator.
    - rewrite Forall_forall in Hv. by apply Hv. }
  unfold Text.parse_table_data. rewrite parse_lines_kept, build_table_md_lines by done.
  cbn [app].
  assert (Hne : table_line <$> table_cells rows columns <> []) by done.
  destruct (join_bracketed (table_line <$> table_cells rows columns) Hne) as [m Hm].
  { apply Forall_fmap, Forall_forall. intros cells _. apply table_line_bracketed. }
  rewrite Hm, strip_bracketed, <- Hm by done.
  rewrite split_join; [|done|].
  2:{ apply Forall_fmap. eapply Forall_impl; [exact Hcells|].
      intros cells (_ & Hcl & _). by apply table_line_no_line_feed. }
  rewrite all_kept.
  2:{ apply Forall_fmap. eapply Forall_impl; [exact Hcells|].
      intros cells (Hn & Hcl & Hlen). by apply row_of_table_line. }
  rewrite <- list_fmap_compose. apply Forall_fmap_ext_1.
  eapply Forall_impl; [exact Hcells|].
  intros cells (Hn & Hcl & Hlen). by apply row_of_table_line.
Qed.

Lemma shifted_row_lookup columns cells i col :
  NoDup (name <$> columns) -> length cells = length columns ->
  columns !! i = Some col ->
  values (shifted_row columns cells) !! name col = ([] :: (strip <$> cells)) !! i.
Proof.
  intros Hnd Hlen Hi.
  destruct (lookup_lt_is_Some_2 ([] :: (strip <$> cells)) i) as [field Hf].
  { apply lookup_lt_Some in Hi. cbn. rewrite length_fmap. lia. }
  rewrite Hf. unfold shifted_row, dict. cbn [values].
  apply store_lookup_nodup.
  - rewrite fst_zip; [done|]. cbn. rewrite !length_fmap. lia.
  - apply list_elem_of_lookup_2 with i. apply lookup_zip_with_Some.
    exists (name col), field. split; [done|]. split; [by rewrite list_lookup_fmap, Hi|done].
Qed.

(** The table built from it, and what parsing the table gives: the header
    line, the separator and the data line, each one column to the right. *)
Example build_table_md_xy :
  Markdown.build_table_md xy_rows two_columns = "| A | B |\n| --- | --- |\n| x | y |".
Proof. vm_compute. reflexivity. Qed.

Example reparse_xy :
  (fun row => (get row "a" "?", get row "b" "?"))
    <$> Text.parse_table_data (Markdown.build_table_md xy_rows two_columns) two_columns
  = [("" : str, "A" : str); ("", "---"); ("", "x")].
Proof. vm_compute. reflexivity. Qed.

(** C1 as stated fails: the row with x under a and y under b comes back
    as the row of the header line, with the empty string under a. *)
Lemma md_table_roundtrip_fails : ~ roundtrip xy_rows two_columns.
Proof.
  intros H.
  destruct (H 0%nat {| values := dict [("a", "x"); ("b", "y")] |} (text_column "a" "A"))
    as (row' & Hrow' & Hget).
  - reflexivity.
  - by left.
  - vm_compute. discriminate.
  - vm_compute in Hrow'. injection Hrow' as <-. vm_compute in Hget. discriminate.
Qed.

(** C1, amended. Parsing the Markdown table built from non-empty rows and
    columns whose headers and rendered cells hold no pipe and no line
    feed does not give the rows back.  It gives one row per line of the
    table, the header line and the separator line included, so two more
    than there were; each maps the column names, in order, to the empty
    field before the leading pipe and then to the trimmed cells of the
    line, so that with distinct names the first column holds the empty
    string and every other column the trimmed cell of the column to its
    left; the last cell of a line is not read. *)
Theorem md_table_reparse rows columns :
  rows <> [] -> columns <> [] ->
  Forall clean (header <$> columns) ->
  Forall (fun row => Forall clean (Markdown.row_values columns row)) rows ->
  let parsed := Text.parse_table_data (Markdown.build_table_md rows columns) columns in
  parsed = shifted_row columns <$> table_cells rows columns
  /\ length parsed = (2 + length rows)%nat
  /\ (NoDup (name <$> columns) ->
      forall k row' i col,
        parsed !! k = Some row' -> columns !! i = Some col ->
        exists cells,
          table_cells rows columns !! k = Some cells
          /\ values row' !! name col = ([] :: (strip <$> cells)) !! i).
Proof.
  intros Hr Hc Hh Hv parsed.
  assert (Hp : parsed = shifted_row columns <$> table_cells rows columns)
    by (by apply reparse_table_lines).
  split; [exact Hp|]. rewrite Hp. split.
  - unfold table_cells. cbn. by rewrite !length_fmap.
  - intros Hnd k row' i col Hk Hi. rewrite list_lookup_fmap in Hk.
    destruct (table_cells rows columns !! k) as [cells|] eqn:E; [|done].
    injection Hk as <-. exists cells. split; [done|].
    apply shifted_row_lookup; [done| |done].
    apply (table_cells_length rows columns). by apply list_elem_of_lookup_2 in E.
Qed.

Lemma md_table_reparse_witness :
  Text.parse_table_data (Markdown.build_table_md xy_rows two_columns) two_columns
  = shifted_row two_columns <$> table_cells xy_rows two_columns
  /\ length (Text.parse_table_data (Markdown.build_table_md xy_rows two_columns)
                                   two_columns) = 3%nat.
Proof.
  assert (Hh : Forall clean (header <$> two_columns)).
  { unfold clean. apply (bool_decide_unpack _). vm_compute. exact I. }
  assert (Hv : Forall (fun row => Forall clean (Markdown.row_values two_columns row))
                      xy_rows).
  { unfold clean. apply (bool_decide_unpack _). vm_compute. exact I. }
  assert (Hr : xy_rows <> []) by discriminate.
  assert (Hc : two_columns <> []) by discriminate.
  pose proof (md_table_reparse xy_rows two_columns Hr Hc Hh Hv) as (H1 & H2 & _).
  split; [exact H1|exact H2].
Defined.

(** ** Keyword highlighting *)

Section Matches.
Variable ieq : N -> N -> bool.
Implicit Types (keyword text : str) (repl : str -> str).

Lemma match_here_length keyword text :
  Re.match_here ieq keyword text = true -> (length keyword <= length text)%nat.
Proof.
  revert text. induction keyword as [|p keyword IH]; intros text H; [cbn; lia|].
  destruct text as [|c text]; [done|]. cbn in *.
  apply andb_prop in H as [_ H]. apply IH in H. lia.
Qed.

Lemma matches_from_lower fuel keyword text pos p :
  p ∈ matches_from ieq fuel keyword text pos -> (pos <= p)%nat.
Proof.
  revert text pos. induction fuel as [|fuel IH]; intros text pos; cbn;
    [by intros ?%elem_of_nil|].
  destruct (Re.match_here ieq keyword text).
  - destruct keyword as [|k keyword].
    + intros [->|H]%elem_of_cons; [lia|]. destruct text as [|c text];
        [by apply elem_of_nil in H|]. apply IH in H. lia.
    + intros [->|H]%elem_of_cons; [lia|]. apply IH in H. lia.
  - destruct text as [|c text]; [by intros ?%elem_of_nil|]. intros H. apply IH in H. lia.
Qed.

Lemma wrap_at_shift repl n ps off c text :
  (forall p, p ∈ ps -> (S off <= p)%nat) ->
  wrap_at repl n ps off (c :: text) = c :: wrap_at repl n ps (S off) text.
Proof.
  destruct ps as [|p ps]; intros H; [done|].
  assert (S off <= p)%nat by (apply H; by left).
  cbn [wrap_at]. replace (p - off)%nat with (S (p - S off)) by lia. reflexivity.
Qed.

Lemma sub_from_wrap repl fuel keyword text pos :
  (length text < fuel)%nat ->
  Re.sub_from ieq fuel repl keyword text
  = wrap_at repl (length keyword) (matches_from ieq fuel keyword text pos) pos text.
Proof.
  revert text pos. induction fuel as [|fuel IH]; intros text pos Hfuel; [lia|].
  cbn [Re.sub_from matches_from].
  destruct (Re.match_here ieq keyword text) eqn:Hm.
  - destruct keyword as [|k keyword].
    + cbn [wrap_at length]. rewrite Nat.sub_diag, Nat.add_0_r, !take_0, !drop_0.
      cbn [app]. f_equal. destruct text as [|c text]; [done|].
      rewrite wrap_at_shift by (intros p Hp; by apply matches_from_lower in Hp).
      f_equal. apply IH. cbn in Hfuel. lia.
    + cbn [wrap_at]. rewrite Nat.sub_diag, take_0, drop_0. cbn [app Nat.add].
      f_equal. apply IH. apply match_here_length in Hm.
      rewrite length_drop. cbn [length] in *. lia.
  - destruct text as [|c text]; [done|].
    rewrite wrap_at_shift by (intros p Hp; by apply matches_from_lower in Hp).
    f_equal. apply IH. cbn in Hfuel. lia.
Qed.

Lemma sub_wrap repl keyword text :
  Re.sub ieq repl keyword text
  = wrap_at repl (length keyword) (matches ieq keyword text) 0 text.
Proof. apply sub_from_wrap. lia. Qed.

Lemma matches_from_sound fuel keyword text pos p :
  p ∈ matches_from ieq fuel keyword text pos ->
  (pos <= p)%nat /\ (p - pos <= length text)%nat
  /\ Re.match_here ieq keyword (drop (p - pos) text) = true.
Proof.
  revert text pos. induction fuel as [|fuel IH]; intros text pos; cbn [matches_from];
    [by intros ?%elem_of_nil|].
  assert (Hskip : forall c text', text = c :: text' ->
            p ∈ matches_from ieq fuel keyword text' (S pos) ->
            (pos <= p)%nat /\ (p - pos <= length text)%nat
            /\ Re.match_here ieq keyword (drop (p - pos) text) = true).
  { intros c text' -> H. apply IH in H as (H1 & H2 & H3).
    replace (p - pos)%nat with (S (p - S pos)) by lia. cbn. split; [lia|]. split; [lia|done]. }
  destruct (Re.match_here ieq keyword text) eqn:Hm.
  - destruct keyword as [|k keyword].
    + intros [->|H]%elem_of_cons.
      * rewrite Nat.sub_diag. split; [lia|]. split; [lia|done].
      * destruct text as [|c text']; [by apply elem_of_nil in H|]. by eapply Hskip.
    + intros [->|H]%elem_of_cons.
      * rewrite Nat.sub_diag. split; [lia|]. split; [lia|done].
      * apply IH in H as (H1 & H2 & H3). rewrite length_drop in H2.
        pose proof (match_here_length _ _ Hm) as Hlen.
        rewrite drop_drop in H3.
        replace (length (k :: keyword) + (p - (pos + length (k :: keyword))))%nat
          with (p - pos)%nat in H3 by lia.
        split; [lia|]. split; [lia|done].
  - destruct text as [|c text']; [by intros ?%elem_of_nil|]. by eapply Hskip.
Qed.

Lemma matches_from_complete fuel keyword text pos j :
  (length text < fuel)%nat -> (j <= length text)%nat ->
  Re.match_here ieq keyword (drop j text) = true ->
  (pos + j)%nat ∈ matches_from ieq fuel keyword text pos
  \/ exists p, p ∈ matches_from ieq fuel keyword text pos
               /\ (p < pos + j < p + length keyword)%nat.
Proof.
  revert text pos j. induction fuel as [|fuel IH]; intros text pos j Hfuel Hj Hocc; [lia|].
  cbn [matches_from].
  assert (Hskip : forall c text' j', text = c :: text' -> j = S j' ->
            (pos + j)%nat ∈ matches_from ieq fuel keyword text' (S pos)
            \/ exists p, p ∈ matches_from ieq fuel keyword text' (S pos)
                         /\ (p < pos + j < p + length keyword)%nat).
  { intros c text' j' -> ->. cbn in *.
    replace (pos + S j')%nat with (S pos + j')%nat by lia.
    apply IH; [lia|lia|done]. }
  destruct (Re.match_here ieq keyword text) eqn:Hm.
  - destruct keyword as [|k keyword].
    + destruct j as [|j']; [left; rewrite Nat.add_0_r; by left|].
      destruct text as [|c text']; [cbn in Hj; lia|].
      destruct (Hskip c text' j' eq_refl eq_refl) as [H|(p & H & ?)];
        [left; by right|right; exists p; split; [by right|done]].
    + set (n := length (k :: keyword)) in *.
      assert (Hn : (1 <= n)%nat) by (unfold n; cbn; lia).
      destruct (decide (j = 0)%nat) as [->|Hj0]; [left; rewrite Nat.add_0_r; by left|].
      destruct (decide (j < n)%nat) as [Hlt|Hge].
      * right. exists pos. split; [by left|lia].
      * assert (Hd : drop j text = drop (j - n) (drop n text)).
        { rewrite drop_drop. f_equal. lia. }
        rewrite Hd in Hocc. apply match_here_length in Hm. fold n in Hm.
        destruct (IH (drop n text) (pos + n)%nat (j - n)%nat) as [H|(p & H & ?)];
          [rewrite length_drop; lia|rewrite length_drop; lia|done| |].
        -- left. right. by replace (pos + j)%nat with (pos + n + (j - n))%nat by lia.
        -- right. exists p. split; [by right|lia].
  - destruct j as [|j']; [rewrite drop_0 in Hocc; congruence|].
    destruct text as [|c text']; [cbn in Hj; lia|]. by eapply Hskip.
Qed.

Lemma sub_from_enough repl fuel keyword text :
  (length text < fuel)%nat ->
  Re.sub_from ieq fuel repl keyword text = Re.sub ieq repl keyword text.
Proof.
  intros H. unfold Re.sub.
  assert (G : forall f1 f2 t, (length t < f1)%nat -> (length t < f2)%nat ->
                Re.sub_from ieq f1 repl keyword t = Re.sub_from ieq f2 repl keyword t).
  { induction f1 as [|f1 IH]; intros [|f2] t H1 H2; try lia.
    cbn [Re.sub_from]. destruct (Re.match_here ieq keyword t) eqn:Hm.
    - destruct keyword as [|k keyword].
      + f_equal. destruct t as [|c t]; [done|]. f_equal. apply IH; cbn in *; lia.
      + f_equal. apply match_here_length in Hm.
        apply IH; rewrite length_drop; cbn [length] in *; lia.
    - destruct t as [|c t]; [done|]. f_equal. apply IH; cbn in *; lia. }
  apply G; lia.
Qed.

Lemma sub_nil repl k keyword : Re.sub ieq repl (k :: keyword) [] = [].
Proof. reflexivity. Qed.

Lemma sub_match repl k keyword text :
  Re.match_here ieq (k :: keyword) text = true ->
  Re.sub ieq repl (k :: keyword) text
  = repl (take (length (k :: keyword)) text)
    ++ Re.sub ieq repl (k :: keyword) (drop (length (k :: keyword)) text).
Proof.
  intros Hm. unfold Re.sub at 1. cbn [Re.sub_from]. rewrite Hm. f_equal.
  apply sub_from_enough. apply match_here_length in Hm.
  rewrite length_drop. cbn [length] in *. lia.
Qed.

Lemma sub_skip repl keyword c text :
  Re.match_here ieq keyword (c :: text) = false ->
  Re.sub ieq repl keyword (c :: text) = c :: Re.sub ieq repl keyword text.
Proof.
  intros Hm. unfold Re.sub at 1. cbn [Re.sub_from]. by rewrite Hm.
Qed.

Lemma match_here_app keyword text rest :
  Re.match_here ieq keyword text = true ->
  Re.match_here ieq keyword (text ++ rest) = true.
Proof.
  revert text. induction keyword as [|k keyword IH]; intros text H; [done|].
  destruct text as [|c text]; [done|]. cbn in *.
  apply andb_prop in H as [-> H]. by apply IH.
Qed.

Lemma match_here_take keyword text rest :
  (length keyword <= length text)%nat ->
  Re.match_here ieq keyword (text ++ rest) = Re.match_here ieq keyword text.
Proof.
  revert text. induction keyword as [|k keyword IH]; intros text H; [done|].
  destruct text as [|c text]; [cbn in H; lia|]. cbn in *.
  rewrite IH by lia. done.
Qed.

(** Around an occurrence that no other match can overlap, the
    replacement of the whole is the replacement of the parts: here the
    occurrence "seo" of the keyword "SEO", in any table in which S, E and
    O match their lower case and neither E nor O matches s. *)
Lemma sub_around_seo repl pre rest :
  ieq 0x53%N 0x73%N = true -> ieq 0x45%N 0x65%N = true -> ieq 0x4F%N 0x6F%N = true ->
  ieq 0x45%N 0x73%N = false -> ieq 0x4F%N 0x73%N = false ->
  Re.sub ieq repl [0x53; 0x45; 0x4F]%N (pre ++ [0x73; 0x65; 0x6F]%N ++ rest)
  = Re.sub ieq repl [0x53; 0x45; 0x4F]%N pre ++ repl [0x73; 0x65; 0x6F]%N
    ++ Re.sub ieq repl [0x53; 0x45; 0x4F]%N rest.
Proof.
  intros HS HE HO HEs HOs.
  induction pre as [pre IH] using (induction_ltof1 _ (@length N)). unfold ltof in IH.
  destruct pre as [|c1 pre].
  - cbn [app]. rewrite sub_match by (cbn; by rewrite HS, HE, HO). reflexivity.
  - destruct (Re.match_here ieq [0x53; 0x45; 0x4F]%N ((c1 :: pre) ++ [0x73; 0x65; 0x6F]%N ++ rest))
      eqn:Hm.
    + destruct pre as [|c2 [|c3 pre]].
      * cbn in Hm. rewrite HEs in Hm. by destruct (ieq 83 c1).
      * cbn in Hm. rewrite HOs in Hm. by destruct (ieq 83 c1), (ieq 69 c2).
      * rewrite sub_match by done.
        rewrite (sub_match repl _ _ (c1 :: c2 :: c3 :: pre))
          by (by rewrite (match_here_take _ _ _) in Hm by (cbn; lia)).
        cbn [length take drop app]. rewrite !take_0, !drop_0. rewrite IH by (cbn; lia).
        by rewrite <- app_assoc.
    + cbn [app] in *. rewrite sub_skip by done.
      rewrite sub_skip.
      2:{ destruct (Re.match_here ieq [83%N; 69%N; 79%N] (c1 :: pre)) eqn:Hp; [|done].
          apply (match_here_app _ _ ([0x73; 0x65; 0x6F]%N ++ rest)) in Hp.
          cbn [app] in Hp. congruence. }
      cbn [app]. f_equal. apply IH. cbn. lia.
Qed.

End Matches.

Example highlight_overlapping :
  Markdown.highlight_keywords_md Re.ascii_ieq "aaa" ["aa"] = "**aa**a"
  /\ Html.highlight_keywords Re.ascii_ieq "aaa" ["aa"] = "<b>aa</b>a".
Proof. vm_compute. auto. Qed.

(** C8 as stated fails: in "aaa" the keyword "aa" occurs at 0 and at 1;
    the scan wraps the first and goes on behind it, so the second, which
    overlaps it, is not wrapped. *)
Lemma overlapping_occurrence_not_wrapped :
  ~ every_occurrence_wrapped Re.ascii_ieq "aa" "aaa".
Proof.
  intros H. specialize (H 1%nat). unfold occurs_at in H.
  assert (Hin : 1%nat ∈ matches Re.ascii_ieq "aa" "aaa").
  { apply H. split; vm_compute; [lia|reflexivity]. }
  vm_compute in Hin. apply list_elem_of_singleton in Hin. discriminate.
Qed.

Lemma highlight_md_foldl ieq text keywords :
  Markdown.highlight_keywords_md ieq text keywords
  = foldl (fun text keyword =>
             wrap_at md_bold (length keyword) (matches ieq keyword text) 0 text)
          text keywords.
Proof.
  unfold Markdown.highlight_keywords_md.
  destruct keywords as [|k ks]; [done|]. cbn [is_empty].
  apply foldl_ext_all. intros t kw. apply sub_wrap.
Qed.

Lemma highlight_html_foldl ieq text keywords :
  Html.highlight_keywords ieq text keywords
  = foldl (fun text keyword =>
             wrap_at html_bold (length keyword) (matches ieq keyword text) 0 text)
          text keywords.
Proof.
  unfold Html.highlight_keywords.
  destruct keywords as [|k ks]; [done|]. cbn [is_empty].
  apply foldl_ext_all. intros t kw. apply sub_wrap.
Qed.

Lemma matches_sound ieq keyword text p :
  p ∈ matches ieq keyword text -> occurs_at ieq keyword text p.
Proof.
  intros H. apply matches_from_sound in H as (_ & H2 & H3).
  rewrite Nat.sub_0_r in *. by split.
Qed.

Lemma matches_complete ieq keyword text i :
  occurs_at ieq keyword text i ->
  i ∈ matches ieq keyword text
  \/ exists p, p ∈ matches ieq keyword text /\ (p < i < p + length keyword)%nat.
Proof.
  intros [Hi Hm]. apply (matches_from_complete ieq (S (length text)) keyword text 0 i); [lia|done..].
Qed.

Lemma lit_seo :
  ("SEO" : str) = [0x53; 0x45; 0x4F]%N
  /\ ("seo tips" : str) = [0x73; 0x65; 0x6F]%N ++ (" tips" : str)
  /\ md_bold [0x73; 0x65; 0x6F]%N = "**seo**"
  /\ html_bold [0x73; 0x65; 0x6F]%N = "<b>seo</b>".
Proof. vm_compute. auto. Qed.

Lemma highlight_seo_tips (ieq : N -> N -> bool) pre post :
  ieq 0x53%N 0x73%N = true -> ieq 0x45%N 0x65%N = true -> ieq 0x4F%N 0x6F%N = true ->
  ieq 0x45%N 0x73%N = false -> ieq 0x4F%N 0x73%N = false ->
  Markdown.highlight_keywords_md ieq (pre ++ "seo tips" ++ post) ["SEO"]
  = Markdown.highlight_keywords_md ieq pre ["SEO"] ++ "**seo**"
    ++ Markdown.highlight_keywords_md ieq (" tips" ++ post) ["SEO"]
  /\ Html.highlight_keywords ieq (pre ++ "seo tips" ++ post) ["SEO"]
     = Html.highlight_keywords ieq pre ["SEO"] ++ "<b>seo</b>"
       ++ Html.highlight_keywords ieq (" tips" ++ post) ["SEO"].
Proof.
  intros HS HE HO HEs HOs.
  destruct lit_seo as (Hk & Ht & Hmd & Hhtml).
  unfold Markdown.highlight_keywords_md, Html.highlight_keywords. cbn [is_empty foldl].
  rewrite Hk, Ht, <- Hmd, <- Hhtml, <- !app_assoc.
  split.
  - apply (sub_around_seo ieq md_bold); done.
  - apply (sub_around_seo ieq html_bold); done.
Qed.

(** C8, amended. The keywords are applied in order, each to the text the
    one before it left.  Applying a keyword wraps, in the markup of the
    format, the text found at each match of a scan from the left that
    goes on behind each match: the characters wrapped are those of the
    text, in their own case.  Every match is an occurrence of the keyword
    whatever the case; every occurrence is a match unless it overlaps a
    match that starts before it, in which case it is not wrapped.  The
    occurrence "seo" of the keyword "SEO" in a text that holds "seo tips"
    is wrapped as it is written. *)
Theorem highlight_wraps_matches (ieq : N -> N -> bool) text keywords :
  Markdown.highlight_keywords_md ieq text keywords
  = foldl (fun text keyword =>
             wrap_at md_bold (length keyword) (matches ieq keyword text) 0 text)
          text keywords
  /\ Html.highlight_keywords ieq text keywords
     = foldl (fun text keyword =>
                wrap_at html_bold (length keyword) (matches ieq keyword text) 0 text)
             text keywords
  /\ (forall keyword text p,
        p ∈ matches ieq keyword text -> occurs_at ieq keyword text p)
  /\ (forall keyword text i,
        occurs_at ieq keyword text i ->
        i ∈ matches ieq keyword text
        \/ exists p, p ∈ matches ieq keyword text /\ (p < i < p + length keyword)%nat)
  /\ (ieq 0x53%N 0x73%N = true -> ieq 0x45%N 0x65%N = true -> ieq 0x4F%N 0x6F%N = true ->
      ieq 0x45%N 0x73%N = false -> ieq 0x4F%N 0x73%N = false ->
      forall pre post,
        Markdown.highlight_keywords_md ieq (pre ++ "seo tips" ++ post) ["SEO"]
        = Markdown.highlight_keywords_md ieq pre ["SEO"] ++ "**seo**"
          ++ Markdown.highlight_keywords_md ieq (" tips" ++ post) ["SEO"]
        /\ Html.highlight_keywords ieq (pre ++ "seo tips" ++ post) ["SEO"]
           = Html.highlight_keywords ieq pre ["SEO"] ++ "<b>seo</b>"
             ++ Html.highlight_keywords ieq (" tips" ++ post) ["SEO"]).
Proof.
  split; [apply highlight_md_foldl|]. split; [apply highlight_html_foldl|].
  split; [apply matches_sound|]. split; [apply matches_complete|].
  intros HS HE HO HEs HOs pre post. by apply highlight_seo_tips.
Qed.

Lemma highlight_wraps_matches_witness :
  Markdown.highlight_keywords_md Re.ascii_ieq ("Best " ++ "seo tips" ++ " for SEO") ["SEO"]
  = Markdown.highlight_keywords_md Re.ascii_ieq "Best " ["SEO"] ++ "**seo**"
    ++ Markdown.highlight_keywords_md Re.ascii_ieq (" tips" ++ " for SEO") ["SEO"]
  /\ Html.highlight_keywords Re.ascii_ieq ("Best " ++ "seo tips" ++ " for SEO") ["SEO"]
     = Html.highlight_keywords Re.ascii_ieq "Best " ["SEO"] ++ "<b>seo</b>"
       ++ Html.highlight_keywords Re.ascii_ieq (" tips" ++ " for SEO") ["SEO"].
Proof.
  exact (proj2 (proj2 (proj2 (proj2 (highlight_wraps_matches Re.ascii_ieq [] []))))
           eq_refl eq_refl eq_refl eq_refl eq_refl "Best " " for SEO").
Defined.

Example highlight_seo_sample :
  Markdown.highlight_keywords_md Re.ascii_ieq "Best seo tips for SEO" ["SEO"; "tips"]
  = "Best **seo** **tips** for **SEO**"
  /\ Html.highlight_keywords Re.ascii_ieq "Best seo tips for SEO" ["SEO"; "tips"]
     = "Best <b>seo</b> <b>tips</b> for <b>SEO</b>".
Proof. vm_compute. auto. Qed.

(** * Further properties *)

(** ** The client: success, failure and use after exit *)

Lemma generate_outcome net prompt system_prompt pbar st :
  is_Some (_session (self st)) ->
  fst (generate net prompt system_prompt pbar st)
  = match outcome_of (net 0%nat) with
    | inr c => inr c
    | inl _ =>
      match outcome_of (net 1%nat) with
      | inr c => inr c
      | inl _ =>
        match outcome_of (net 2%nat) with
        | inr c => inr c
        | inl e => inl (APIConnectionError
                         ("API call failed after 3 attempts: " ++ exn_str (last_error_of e)))
        end
      end
    end.
Proof.
  intros Hs. rewrite (generate_open _ _ _ _ _ Hs).
  rewrite retry_cons. destruct (outcome_of (net 0%nat)); [|reflexivity].
  rewrite retry_cons. destruct (outcome_of (net 1%nat)); [|reflexivity].
  rewrite retry_cons. destruct (outcome_of (net 2%nat)); [|reflexivity].
  reflexivity.
Qed.

(** X1. On an open client, when attempt [k] is the first whose reply
    yields a content, [generate] returns that content, having sent
    [k + 1] requests with the delays [RETRY_DELAY * 1] up to
    [RETRY_DELAY * k] between them; the replies behind it are never asked
    for. *)
Theorem generate_returns_first_success net prompt system_prompt pbar st k c :
  is_Some (_session (self st)) ->
  (k < 3)%nat ->
  outcome_of (net k) = inr c ->
  (forall j, (j < k)%nat -> exists e, outcome_of (net j) = inl e) ->
  exists evs,
    generate net prompt system_prompt pbar st = (inr c, add_events st evs)
    /\ without_updates evs = schedule (payload_of (self st) prompt system_prompt) k.
Proof.
  intros Hs Hk Hc Hfail. rewrite (generate_open _ _ _ _ _ Hs).
  destruct k as [|[|[|k]]]; [| | |lia].
  - rewrite retry_cons, Hc. eexists. split; [reflexivity|].
    by rewrite without_updates_last.
  - destruct (Hfail 0%nat) as [e0 H0]; [lia|].
    rewrite retry_cons, H0, retry_cons, Hc, add_events_app. eexists. split; [reflexivity|].
    by rewrite !without_updates_app, !without_updates_last, !without_updates_backoff.
  - destruct (Hfail 0%nat) as [e0 H0]; [lia|]. destruct (Hfail 1%nat) as [e1 H1]; [lia|].
    rewrite retry_cons, H0, retry_cons, H1, retry_cons, Hc, !add_events_app.
    eexists. split; [reflexivity|].
    by rewrite !without_updates_app, !without_updates_last, !without_updates_backoff.
Qed.

Lemma generate_returns_first_success_witness :
  exists evs,
    generate flaky "prompt" None None opened_client
    = (inr (Str "text"), add_events opened_client evs)
    /\ without_updates evs = schedule (payload_of (self opened_client) "prompt" None) 1.
Proof.
  apply (generate_returns_first_success flaky "prompt" None None opened_client 1 (Str "text")).
  - by eexists.
  - lia.
  - vm_compute. reflexivity.
  - intros [|j] Hj; [by eexists|lia].
Defined.

(** X2. On an open client, the only exception [generate] raises is the
    [APIConnectionError] behind the loop: then all three attempts
    failed, and the message carries the last error alone, as the handlers
    recorded it.  No [APIResponseError], [KeyError] or client error
    leaves the call. *)
Theorem generate_failure_is_connection_error net prompt system_prompt pbar st e :
  is_Some (_session (self st)) ->
  fst (generate net prompt system_prompt pbar st) = inl e ->
  (forall j, (j < 3)%nat -> exists e', outcome_of (net j) = inl e')
  /\ exists e2, outcome_of (net 2%nat) = inl e2
       /\ e = APIConnectionError
                ("API call failed after 3 attempts: " ++ exn_str (last_error_of e2)).
Proof.
  intros Hs. rewrite (generate_outcome _ _ _ _ _ Hs).
  destruct (outcome_of (net 0%nat)) as [e0|] eqn:H0; [|done].
  destruct (outcome_of (net 1%nat)) as [e1|] eqn:H1; [|done].
  destruct (outcome_of (net 2%nat)) as [e2|] eqn:H2; [|done].
  intros [= <-]. split; [|by eauto].
  intros [|[|[|j]]] Hj; [by eauto..|lia].
Qed.

Lemma generate_failure_is_connection_error_witness :
  exists e2,
    outcome_of (Raises unavailable) = inl e2
    /\ APIConnectionError
         ("API call failed after 3 attempts: " ++ exn_str (last_error_of unavailable))
       = APIConnectionError
           ("API call failed after 3 attempts: " ++ exn_str (last_error_of e2)).
Proof.
  refine (proj2 (generate_failure_is_connection_error (fun _ => Raises unavailable)
                   "prompt" None None opened_client
                   (APIConnectionError
                      ("API call failed after 3 attempts: "
                       ++ exn_str (last_error_of unavailable))) _ _)).
  - by eexists.
  - vm_compute. reflexivity.
Defined.

(** ** The batch: shared names and requests *)

Lemma collect_inr output results output' :
  collect output results = inr output' ->
  exists xs, results = inr <$> xs
    /\ output' = foldl (fun d '(k, v) => <[k := v]> d) output xs.
Proof.
  revert output. induction results as [|[e|[name c]] results IH]; intros output H.
  - exists []. by injection H as <-.
  - done.
  - cbn in H. destruct (IH _ H) as (xs & -> & ->). by exists ((name, c) :: xs).
Qed.

Lemma foldl_insert_last {V} (d : gmap str V) (xs : list (str * V)) k name v :
  xs !! k = Some (name, v) ->
  (forall j name' v', (k < j)%nat -> xs !! j = Some (name', v') -> name' <> name) ->
  foldl (fun d '(k, v) => <[k := v]> d) d xs !! name = Some v.
Proof.
  revert d k. induction xs as [|[name0 v0] xs IH]; intros d k Hk Hlast; [done|].
  cbn [foldl]. destruct k as [|k].
  - injection Hk as -> ->. rewrite store_lookup_notin; [by rewrite lookup_insert_eq|].
    intros Hin. apply list_elem_of_lookup in Hin as [j Hj].
    rewrite list_lookup_fmap in Hj. destruct (xs !! j) as [[name' v']|] eqn:Hx; [|done].
    injection Hj as ->. by apply (Hlast (S j) name v'); [lia|..].
  - apply (IH _ k); [done|]. intros j name' v' Hj Hx. apply (Hlast (S j) name' v'); [lia|done].
Qed.

Lemma generate_batch_lookup net tasks pbar client output k name prompt :
  fst (generate_batch net tasks pbar client) = inr output ->
  tasks !! k = Some (name, prompt) ->
  (forall j name' prompt', (k < j)%nat -> tasks !! j = Some (name', prompt') -> name' <> name) ->
  exists content,
    fst (generate (net k) prompt None pbar {| self := client; log := [] |}) = inr content
    /\ output !! name = Some content.
Proof.
  intros Hout Hk Hlast. rewrite generate_batch_outcomes in Hout.
  apply collect_inr in Hout as (xs & Hxs & ->).
  pose proof (outcomes_names _ _ _ _ _ Hxs) as Hnames.
  assert (Hx : outcomes net pbar client tasks !! k = (inr <$> xs) !! k) by (by rewrite Hxs).
  unfold outcomes in Hx. rewrite list_lookup_imap, Hk, list_lookup_fmap in Hx. cbn in Hx.
  unfold task_outcome in Hx. cbn [fst snd] in Hx.
  destruct (fst (generate _ _ _ _ _)) as [e|content]; [by destruct (xs !! k)|].
  destruct (xs !! k) as [x|] eqn:Hxk; [|done]. injection Hx as <-.
  exists content. split; [done|].
  apply (foldl_insert_last _ _ k); [done|].
  intros j name' v' Hj Hxj.
  assert (Ht : tasks.*1 !! j = Some name').
  { rewrite <- Hnames, list_lookup_fmap, Hxj. done. }
  rewrite list_lookup_fmap in Ht. destruct (tasks !! j) as [[n p]|] eqn:Htj; [|done].
  injection Ht as ->. by apply (Hlast j name' p).
Qed.

(** X3. When a batch succeeds, the mapping holds under a name the
    content generated for the last task of that name: of two tasks with
    one name, the earlier one's content is overwritten. *)
Theorem generate_batch_last_wins net tasks pbar client output k name prompt :
  fst (generate_batch net tasks pbar client) = inr output ->
  tasks !! k = Some (name, prompt) ->
  (forall j name' prompt', (k < j)%nat -> tasks !! j = Some (name', prompt') -> name' <> name) ->
  exists content,
    fst (generate (net k) prompt None pbar {| self := client; log := [] |}) = inr content
    /\ output !! name = Some content.
Proof. apply generate_batch_lookup. Qed.

Lemma generate_batch_last_wins_witness :
  exists output content,
    fst (generate_batch numbered two_intros None (self opened_client)) = inr output
    /\ fst (generate (numbered 1) "second" None None
              {| self := self opened_client; log := [] |}) = inr content
    /\ output !! ("intro" : str) = Some content.
Proof.
  destruct (generate_batch_success numbered two_intros None (self opened_client))
    as (output & Hout & _).
  { intros o Ho. vm_compute in Ho.
    repeat (apply elem_of_cons in Ho as [->|Ho]; [by eexists|]).
    by apply elem_of_nil in Ho. }
  destruct (generate_batch_last_wins numbered two_intros None (self opened_client) output
              1 "intro" "second" Hout eq_refl) as (content & Hgen & Hlook).
  { intros [|[|j]] name' prompt' Hj Hlook; [lia|lia|done]. }
  by exists output, content.
Defined.

Lemma payload_of_default client prompt :
  payload_of client prompt None
  = {| payload_model := model client;
       messages := [("system", DEFAULT_SYSTEM_PROMPT); ("user", prompt)] |}.
Proof. reflexivity. Qed.

Lemma generate_batch_traces net tasks pbar client :
  snd (generate_batch net tasks pbar client)
  = imap (fun k task =>
            log (snd (generate (net k) (snd task) None pbar {| self := client; log := [] |})))
         tasks.
Proof.
  unfold generate_batch, gather. cbn [snd].
  rewrite <- !list_fmap_compose, fmap_enumerate.
  apply imap_ext. intros k [name prompt] _.
  unfold compose, mbind, M_bind. cbn [fst snd].
  by destruct (generate (net k) prompt None pbar _) as [[e|c] st'].
Qed.

(** X4. Each task of a batch on an open client sends between one and
    three requests, all with the client's model, the task's prompt as the
    user message and [DEFAULT_SYSTEM_PROMPT] as the system message:
    [generate_batch] hands no system prompt to [generate]. *)
Theorem generate_batch_requests net tasks pbar client :
  is_Some (_session client) ->
  let traces := snd (generate_batch net tasks pbar client) in
  length traces = length tasks
  /\ forall k name prompt, tasks !! k = Some (name, prompt) ->
       exists trace n,
         traces !! k = Some trace /\ (n < 3)%nat
         /\ without_updates trace
            = schedule {| payload_model := model client;
                          messages := [("system", DEFAULT_SYSTEM_PROMPT); ("user", prompt)] |}
                       n.
Proof.
  intros Hs traces. unfold traces. rewrite generate_batch_traces. split; [by rewrite length_imap|].
  intros k name prompt Hk. rewrite list_lookup_imap, Hk. cbn [fmap option_fmap option_map snd].
  destruct (generate_schedule (net k) prompt None pbar {| self := client; log := [] |} Hs)
    as (evs & n & Hn & Hsnd & Hsched).
  exists evs, n. rewrite Hsnd. unfold add_events. cbn [log app].
  split; [reflexivity|]. split; [exact Hn|].
  cbn [self] in Hsched. rewrite <- payload_of_default. exact Hsched.
Qed.

Lemma generate_batch_requests_witness :
  length (snd (generate_batch second_refused three_tasks None (self opened_client)))
  = length three_tasks.
Proof.
  refine (proj1 (generate_batch_requests second_refused three_tasks None
                   (self opened_client) _)).
  by eexists.
Defined.

(** X5. [__aexit__] closes the session but leaves it in place, so on a
    client that has been entered and left, [generate] does not raise the
    [RuntimeError] of its guard: it goes through its attempts like on an
    open client. *)
Theorem generate_after_exit net prompt system_prompt pbar st :
  let st' := snd (__aexit__ (snd (__aenter__ st))) in
  _session (self st') = Some {| closed := true |}
  /\ fst (generate net prompt system_prompt pbar st')
     <> inl (RuntimeError "Client must be used with context manager")
  /\ exists evs n, (n < 3)%nat
       /\ snd (generate net prompt system_prompt pbar st') = add_events st' evs
       /\ without_updates evs = schedule (payload_of (self st') prompt system_prompt) n.
Proof.
  intros st'. assert (Hs : _session (self st') = Some {| closed := true |}) by reflexivity.
  split; [exact Hs|]. assert (Hs' : is_Some (_session (self st'))) by (by rewrite Hs).
  split; [|by apply generate_schedule].
  rewrite (generate_outcome _ _ _ _ _ Hs').
  destruct (outcome_of (net 0%nat)); [|done].
  destruct (outcome_of (net 1%nat)); [|done].
  destruct (outcome_of (net 2%nat)); done.
Qed.

(** ** Highlighting an empty keyword *)

Lemma sub_from_empty ieq repl fuel text :
  (length text < fuel)%nat ->
  Re.sub_from ieq fuel repl [] text
  = repl [] ++ List.concat ((fun c => c :: repl []) <$> text).
Proof.
  revert text. induction fuel as [|fuel IH]; intros text Hfuel; [lia|].
  destruct text as [|c text]; cbn [Re.sub_from Re.match_here].
  - reflexivity.
  - cbn in Hfuel. rewrite IH by lia. reflexivity.
Qed.

(** X6. An empty keyword matches at every position of the text, the
    end included: highlighting it puts the empty emphasis before every
    character and behind the last, in both renderers. *)
Theorem highlight_empty_keyword ieq (text : str) :
  Markdown.highlight_keywords_md ieq text [""]
  = "****" ++ List.concat ((fun c => c :: "****") <$> text)
  /\ Html.highlight_keywords ieq text [""]
     = "<b></b>" ++ List.concat ((fun c => c :: "<b></b>") <$> text)
  /\ length (Markdown.highlight_keywords_md ieq text [""]) = (5 * length text + 4)%nat
  /\ length (Html.highlight_keywords ieq text [""]) = (8 * length text + 7)%nat.
Proof.
  assert (Hlen : forall (m : str) (t : str),
             length (List.concat ((fun c => c :: m) <$> t)) = (S (length m) * length t)%nat).
  { intros m t. induction t as [|c t IH]; [cbn; lia|].
    cbn [fmap list_fmap List.concat]. rewrite length_app. cbn [length].
    change (list_fmap N (list N) (fun c => c :: m) t) with ((fun c => c :: m) <$> t).
    rewrite IH. cbn [length]. lia. }
  assert (Hmd : Markdown.highlight_keywords_md ieq text [""]
                = "****" ++ List.concat ((fun c => c :: "****") <$> text)).
  { unfold Markdown.highlight_keywords_md. cbn [is_empty foldl]. unfold Re.sub.
    change ("" : str) with ([] : str). rewrite sub_from_empty by lia. reflexivity. }
  assert (Hhtml : Html.highlight_keywords ieq text [""]
                  = "<b></b>" ++ List.concat ((fun c => c :: "<b></b>") <$> text)).
  { unfold Html.highlight_keywords. cbn [is_empty foldl]. unfold Re.sub.
    change ("" : str) with ([] : str). rewrite sub_from_empty by lia. reflexivity. }
  split; [exact Hmd|]. split; [exact Hhtml|].
  rewrite Hmd, Hhtml, !length_app, !Hlen.
  change (length ("****" : str)) with 4%nat. change (length ("<b></b>" : str)) with 7%nat.
  lia.
Qed.

(** ** The example row of the table prompt *)

Lemma example_values_fmap columns :
  Prompts.example_values columns = example_value <$> columns.
Proof.
  unfold Prompts.example_values.
  assert (G : forall acc, foldl (fun example_values col =>
           if negb (is_empty (placeholder col))
           then example_values ++ ["[" ++ placeholder col ++ "_1]"]
           else if bool_decide (type col = "stars") then example_values ++ ["4"]
           else example_values ++ ["example"]) acc columns
           = acc ++ (example_value <$> columns)).
  { induction columns as [|col columns IH]; intros acc; [by rewrite app_nil_r|].
    cbn [foldl fmap list_fmap]. rewrite IH. unfold example_value at 2.
    destruct (negb _); [by rewrite <- app_assoc|].
    destruct (bool_decide _); by rewrite <- app_assoc. }
  apply (G []).
Qed.

Lemma strip_tight s : tight s -> strip s = s.
Proof.
  intros [(a & t & -> & Ha) (t' & b & Ht' & Hb)]. unfold strip.
  rewrite lstrip_nonspace by done. rewrite Ht'. by apply rstrip_snoc_nonspace.
Qed.

Lemma tight_join sep parts : parts <> [] -> Forall tight parts -> tight (join sep parts).
Proof.
  induction parts as [|p parts IH]; intros Hne Hall; [done|].
  apply Forall_cons in Hall as [Hp Hall].
  destruct parts as [|p' parts]; [done|].
  rewrite join_cons_cons. destruct IH as [_ (t' & b & Ht' & Hb)]; [done..|].
  destruct Hp as [(a & t & -> & Ha) _]. split.
  - exists a, (t ++ sep ++ join sep (p' :: parts)). done.
  - exists ((a :: t) ++ sep ++ t'), b. rewrite Ht'. by rewrite <- !app_assoc.
Qed.

Lemma strip_cons_space s : strip (0x20%N :: s) = strip s.
Proof. unfold strip. by rewrite lstrip_space. Qed.

Lemma strip_snoc_space s : strip (s ++ [0x20%N]) = strip s.
Proof.
  unfold strip. rewrite lstrip_snoc_space by reflexivity.
  destruct (lstrip s) as [|a t] eqn:E; [reflexivity|].
  cbn [is_empty]. by rewrite rstrip_snoc_space.
Qed.

Lemma split_cons_ne sep c s :
  c <> sep -> exists f fs, split sep s = f :: fs /\ split sep (c :: s) = (c :: f) :: fs.
Proof.
  intros Hne. cbn. destruct (N.eqb_spec c sep); [done|].
  destruct (split sep s) as [|f fs] eqn:E.
  - destruct s; cbn in E; [done|]. destruct (_ =? _)%N; [done|]. by destruct (split sep s).
  - by exists f, fs.
Qed.

Lemma fields_join cells :
  cells <> [] -> Forall clean cells ->
  strip <$> split 0x7C%N (join " | " cells) = strip <$> cells.
Proof.
  destruct lit_pipes as (_ & -> & _).
  induction cells as [|c cells IH]; intros Hne Hall; [done|].
  apply Forall_cons in Hall as [[Hc _] Hall].
  destruct cells as [|c' cells]; [by rewrite (split_no_sep _ c)|].
  rewrite join_cons_cons.
  change (c ++ [0x20; 0x7C; 0x20]%N ++ join [0x20; 0x7C; 0x20]%N (c' :: cells))
    with (c ++ [0x20%N] ++ 0x7C%N :: 0x20%N :: join [0x20; 0x7C; 0x20]%N (c' :: cells)).
  rewrite app_assoc, split_app_sep.
  2:{ rewrite not_elem_of_app. split; [done|]. by intros [[=]|?%elem_of_nil]%elem_of_cons. }
  destruct (split_cons_ne 0x7C%N 0x20%N (join [0x20; 0x7C; 0x20]%N (c' :: cells)))
    as (f & fs & Hsplit & ->); [done|].
  specialize (IH ltac:(done) Hall). rewrite Hsplit in IH.
  cbn [fmap list_fmap] in *. rewrite strip_snoc_space, strip_cons_space.
  f_equal. exact IH.
Qed.

Lemma tight_example_value col : tight (example_value col).
Proof.
  unfold example_value. destruct (negb _).
  - split.
    + exists 0x5B%N, (placeholder col ++ "_1]"). done.
    + exists ("[" ++ placeholder col ++ "_1"), 0x5D%N. split; [|done].
      by rewrite <- !app_assoc.
  - destruct (bool_decide _).
    + split; [by exists 0x34%N, []|by exists [], 0x34%N].
    + split; [by exists 0x65%N, ("xample" : str)|by exists ("exampl" : str), 0x65%N].
Qed.

Lemma not_contains (c : N) (s : str) : contains c s = false -> c ∉ s.
Proof. intros H. rewrite <- contains_elem. by rewrite H. Qed.

Lemma clean_example_value col : clean (placeholder col) -> clean (example_value col).
Proof.
  intros [Hp Hl]. unfold example_value, clean. destruct (negb _).
  - rewrite !not_elem_of_app.
    repeat split; try done; apply not_contains; vm_compute; reflexivity.
  - destruct (bool_decide _); split; apply not_contains; vm_compute; reflexivity.
Qed.

(** X7. The example row that [build_table_prompt] shows is parsed by
    [parse_table_data], over the same columns, to one row that maps each
    column to its example cell, when there are at least two columns.
    With one column the row holds no pipe and is parsed to nothing. *)
Theorem table_prompt_example_parses columns :
  Forall (fun col => clean (placeholder col)) columns ->
  Text.parse_table_data (Prompts.example_row columns) columns
  = if (2 <=? length columns)%nat
    then [{| values := dict (zip (name <$> columns) (Prompts.example_values columns)) |}]
    else [].
Proof.
  intros Hclean. unfold Text.parse_table_data, Prompts.example_row.
  rewrite parse_lines_kept, example_values_fmap. cbn [app].
  destruct columns as [|col columns]; [reflexivity|].
  set (cells := example_value <$> col :: columns).
  assert (Hne : cells <> []) by done.
  assert (Htight : Forall tight cells).
  { apply Forall_fmap, Forall_forall. intros c _. apply tight_example_value. }
  assert (Hcl : Forall clean cells).
  { apply Forall_fmap. eapply Forall_impl; [exact Hclean|]. apply clean_example_value. }
  assert (Hstrip : strip (join " | " cells) = join " | " cells).
  { apply strip_tight. by apply tight_join. }
  assert (Hlf : 0x0A%N ∉ join " | " cells).
  { apply not_elem_of_join.
    - destruct lit_pipes as (_ & -> & _).
      by intros [[=]|[[=]|[[=]|?%elem_of_nil]%elem_of_cons]%elem_of_cons]%elem_of_cons.
    - eapply Forall_impl; [exact Hcl|]. by intros c [_ ?]. }
  rewrite Hstrip, split_no_sep by done. cbn [List.filter].
  assert (Hfields : fields (join " | " cells) = cells).
  { unfold fields. rewrite Hstrip, fields_join by done.
    apply list_eq. intros i. rewrite list_lookup_fmap.
    destruct (cells !! i) as [c|] eqn:Hc; [|done]. cbn. f_equal.
    apply strip_tight. eapply Forall_lookup_1; [exact Htight|exact Hc]. }
  unfold kept. rewrite Hstrip, Hfields.
  destruct columns as [|col' columns].
  - cbn [length Nat.leb]. replace (contains _ _) with false; [by rewrite andb_false_r|].
    symmetry. apply not_true_is_false. rewrite contains_elem.
    unfold cells. cbn. apply Forall_cons in Hcl as [[Hp _] _]. exact Hp.
  - replace (2 <=? _)%nat with true by done.
    replace (negb (is_empty _)) with true.
    2:{ unfold cells. cbn [fmap list_fmap]. rewrite join_cons_cons.
        destruct (tight_example_value col) as [(a & t & -> & _) _]. done. }
    replace (contains _ _) with true.
    2:{ symmetry. apply contains_elem. unfold cells. cbn [fmap list_fmap].
        rewrite join_cons_cons. destruct lit_pipes as (_ & -> & _).
        rewrite !elem_of_app. right. left. right. left. }
    replace (_ <=? _)%nat with true.
    2:{ symmetry. apply Nat.leb_le. unfold cells. by rewrite length_fmap. }
    cbn [andb fmap list_fmap]. unfold row_of. rewrite Hfields.
    unfold cells. rewrite <- (length_fmap example_value (col :: col' :: columns)).
    by rewrite firstn_all.
Qed.

Lemma table_prompt_example_parses_witness :
  Text.parse_table_data (Prompts.example_row default_columns) default_columns
  = if (2 <=? length default_columns)%nat
    then [{| values := dict (zip (name <$> default_columns)
                                 (Prompts.example_values default_columns)) |}]
    else [].
Proof.
  apply table_prompt_example_parses.
  repeat constructor; apply not_contains; vm_compute; reflexivity.
Defined.

(** ** The tasks of a configuration *)

Lemma lit_plain s :
  Forall plain (String.list_ascii_of_string s) ->
  lit s = N_of_ascii <$> String.list_ascii_of_string s.
Proof.
  unfold lit. generalize (String.list_ascii_of_string s). clear s.
  intros l. induction 1 as [|a l [Ha Hne] _ IH]; [reflexivity|].
  cbn [fmap list_fmap utf8_decode].
  destruct (N.ltb_spec (N_of_ascii a) 0x80); [|lia].
  cbn [unescape]. destruct (N.eqb_spec (N_of_ascii a) 0x5C); [done|].
  f_equal. exact IH.
Qed.

Lemma plain_string_of_uint d :
  Forall plain (String.list_ascii_of_string (NilEmpty.string_of_uint d)).
Proof.
  induction d; cbn; constructor; try done; split; vm_compute; done.
Qed.

Lemma plain_string_of_int n :
  Forall plain (String.list_ascii_of_string (NilZero.string_of_int (Z.to_int n))).
Proof.
  assert (G : forall d, Forall plain (String.list_ascii_of_string (NilZero.string_of_uint d))).
  { intros d. destruct d; try apply plain_string_of_uint.
    cbn. constructor; [split; vm_compute; done|constructor]. }
  destruct n as [|p|p]; unfold Z.to_int, NilZero.string_of_int.
  - exact (G Decimal.zero).
  - apply G.
  - cbn [String.list_ascii_of_string]. constructor; [split; vm_compute; done|apply G].
Qed.

Lemma str_of_int_inj n n' : str_of_int n = str_of_int n' -> n = n'.
Proof.
  unfold str_of_int. rewrite !lit_plain by apply plain_string_of_int.
  intros H.
  assert (Hinj : Inj eq eq N_of_ascii).
  { intros a b Hab. by rewrite <- (ascii_N_embedding a), <- (ascii_N_embedding b), Hab. }
  apply (list_fmap_eq_inj N_of_ascii) in H; [|exact Hinj].
  assert (Hs : NilZero.string_of_int (Z.to_int n) = NilZero.string_of_int (Z.to_int n')).
  { rewrite <- (String.string_of_list_ascii_of_string (NilZero.string_of_int (Z.to_int n))),
            <- (String.string_of_list_ascii_of_string (NilZero.string_of_int (Z.to_int n'))).
    by rewrite H. }
  assert (Hnn : forall z, Z.to_int z <> Decimal.Pos Decimal.Nil
                          /\ Z.to_int z <> Decimal.Neg Decimal.Nil).
  { intros [|p|p]; cbn; split; try done; intros [= Hp];
      by apply (DecimalPos.Unsigned.to_uint_nonnil p). }
  apply DecimalZ.to_int_inj.
  assert (Hsome : Some (Z.to_int n) = Some (Z.to_int n')); [|by injection Hsome].
  rewrite <- (NilZero.isi (Z.to_int n)), <- (NilZero.isi (Z.to_int n')) by apply Hnn.
  by rewrite Hs.
Qed.

Lemma imap_fst_seq {A B} (f : nat -> str) (g : nat -> A -> B) (l : list A) :
  (imap (fun i x => (f i, g i x)) l).*1 = f <$> seq 0 (length l).
Proof.
  apply list_eq. intros i. rewrite !list_lookup_fmap, list_lookup_imap.
  destruct (l !! i) as [x|] eqn:Hx.
  - rewrite lookup_seq_lt by (by eapply lookup_lt_Some). done.
  - rewrite lookup_seq_ge by (by apply lookup_ge_None). done.
Qed.

Lemma tasks_names lower config :
  (Main.tasks lower config).*1 = task_names config.
Proof.
  unfold Main.tasks, task_names. cbv zeta.
  rewrite section_tasks_imap, !fmap_app, imap_fst_seq.
  destruct (enabled (table config)); [|reflexivity].
  destruct (0 <? rows (table config)); reflexivity.
Qed.

Lemma section_name_head i : exists t, section_name i = 0x73%N :: t /\ (0x5F%N ∈ t).
Proof.
  unfold section_name.
  exists ("ection_" ++ str_of_int (Z.of_nat i)). split; [reflexivity|].
  apply elem_of_app. left. vm_compute. do 6 right. left.
Qed.

Lemma section_name_inj i j : section_name i = section_name j -> i = j.
Proof.
  unfold section_name. intros H. apply app_inv_head in H.
  apply str_of_int_inj in H. lia.
Qed.

Lemma NoDup_task_names config : NoDup (task_names config).
Proof.
  unfold task_names.
  assert (Hs : NoDup (section_name <$> seq 0 (length (sections config)))).
  { apply NoDup_fmap_2_strong; [|apply NoDup_seq].
    intros i j _ _. apply section_name_inj. }
  assert (Hno : forall (s : str), (forall t, s <> 0x73%N :: t) ->
             s ∉ section_name <$> seq 0 (length (sections config))).
  { intros s Hne (i & -> & _)%list_elem_of_fmap.
    destruct (section_name_head i) as (t & Ht & _). by apply (Hne t). }
  assert (Hi : ("intro" : str) ∉ section_name <$> seq 0 (length (sections config)))
    by (by apply Hno).
  assert (Ht : ("table" : str) ∉ section_name <$> seq 0 (length (sections config)))
    by (by apply Hno).
  assert (Hc : ("conclusion" : str) ∉ section_name <$> seq 0 (length (sections config)))
    by (by apply Hno).
  assert (Htail : NoDup ((section_name <$> seq 0 (length (sections config)))
                         ++ [("conclusion" : str)])).
  { apply NoDup_app. split; [exact Hs|]. split; [|apply NoDup_singleton].
    intros s Hin ->%list_elem_of_singleton. by apply Hc. }
  destruct (_ && _).
  - cbn [app]. apply NoDup_cons. split.
    + rewrite not_elem_of_cons, not_elem_of_app, list_elem_of_singleton. done.
    + apply NoDup_cons. split; [|exact Htail].
      rewrite not_elem_of_app, list_elem_of_singleton. done.
  - cbn [app]. apply NoDup_cons. split; [|exact Htail].
    rewrite not_elem_of_app, list_elem_of_singleton. done.
Qed.

(** X8. [generate_all_content] builds as many tasks as
    [api_call_count] announces, which is the total of the progress bar,
    and at least two. *)
Theorem tasks_count lower config :
  Z.of_nat (length (Main.tasks lower config)) = api_call_count config
  /\ (2 <= api_call_count config).
Proof.
  rewrite <- (length_fmap fst), tasks_names. unfold task_names, api_call_count.
  rewrite !length_app, length_fmap, length_seq.
  destruct (_ && _); cbn [length]; lia.
Qed.

(** X9. The tasks are named [intro], [table] when a table is asked
    for, [section_0], [section_1], ... and [conclusion], in this order,
    and no two of them share a name. *)
Theorem tasks_names_distinct lower config :
  (Main.tasks lower config).*1 = task_names config
  /\ NoDup (Main.tasks lower config).*1.
Proof.
  split; [apply tasks_names|]. rewrite tasks_names. apply NoDup_task_names.
Qed.

(** ** Truncation *)

Lemma rfind_from_spec c s i found :
  (rfind_from c s i found = found /\ c ∉ s)
  \/ exists k, rfind_from c s i found = i + Z.of_nat k
       /\ s !! k = Some c /\ c ∉ drop (S k) s.
Proof.
  revert i found. induction s as [|x s IH]; intros i found; cbn [rfind_from].
  - left. split; [done|apply not_elem_of_nil].
  - destruct (IH (i + 1) (if (x =? c)%N then i else found)) as [[-> Hs]|(k & -> & Hk & Hd)].
    + destruct (N.eqb_spec x c) as [->|Hne].
      * right. exists 0%nat. split; [lia|]. split; [done|]. exact Hs.
      * left. split; [done|]. rewrite not_elem_of_cons. by split.
    + right. exists (S k). split; [lia|]. split; done.
Qed.

Lemma rfind_spec c s :
  (rfind c s = -1 /\ c ∉ s)
  \/ exists k, rfind c s = Z.of_nat k /\ s !! k = Some c /\ c ∉ drop (S k) s.
Proof.
  unfold rfind. destruct (rfind_from_spec c s 0 (-1)) as [H|(k & Hk & H)]; [by left|].
  right. exists k. by rewrite Hk.
Qed.

Lemma slice_to_prefix s stop : slice_to s stop `prefix_of` s.
Proof. unfold slice_to. destruct (stop <? 0); apply prefix_take. Qed.

Lemma slice_to_nonneg s stop : 0 <= stop -> slice_to s stop = take (Z.to_nat stop) s.
Proof. intros H. unfold slice_to. destruct (Z.ltb_spec stop 0); [lia|done]. Qed.

Lemma binary_round_aux_sign sx mx ex lx :
  let r := binary_round_aux 53 1024 sx mx ex lx in
  r = S754_zero sx \/ (exists m e, r = S754_finite sx m e)
  \/ r = S754_infinity sx \/ r = S754_nan.
Proof.
  unfold binary_round_aux.
  destruct (shr_fexp 53 1024 mx ex lx) as [mrs' e'].
  destruct (shr_fexp 53 1024 _ e' loc_Exact) as [mrs'' e''].
  destruct (shr_m mrs'') as [|m|m]; [by left| |by right; right; right].
  destruct (Z.leb _ _); [right; left; by eexists _, _|by right; right; left].
Qed.

(** A product with [0.7] of a float that is not negative is never below
    an integer that is negative. *)
Lemma int_gt_float_nonneg n max_chars x :
  n < 0 -> 0 <= max_chars -> float_of_int max_chars = Some x ->
  int_gt_float n (float_mul x seven_tenths) = false.
Proof.
  intros Hn Hmax. unfold float_of_int. destruct (_ <? _); [|done]. intros [= <-].
  assert (Hpos : forall m e, int_gt_float n (S754_finite false m e) = false).
  { intros m e. cbn. destruct (0 <=? e) eqn:He.
    - apply Z.ltb_ge. apply Z.leb_le in He.
      pose proof (Z.pow_pos_nonneg 2 e ltac:(lia) He). nia.
    - apply Z.ltb_ge. apply Z.leb_gt in He.
      pose proof (Z.pow_pos_nonneg 2 (- e) ltac:(lia) ltac:(lia)). nia. }
  assert (Hzero : forall s, int_gt_float n (S754_zero s) = false).
  { intros s. cbn. apply Z.ltb_ge. lia. }
  assert (Hmul : forall m e, int_gt_float n (float_mul (S754_finite false m e) seven_tenths)
                             = false).
  { intros m e. unfold float_mul, seven_tenths, SFmul. cbn [xorb].
    destruct (binary_round_aux_sign false (Z.pos (m * 6305039478318694)) (e + -53) loc_Exact)
      as [->|[(m' & e' & ->)|[->| ->]]]; [apply Hzero|apply Hpos|done|done]. }
  destruct max_chars as [|p|p]; [apply Hzero| |lia].
  unfold binary_normalize, binary_round.
  destruct (shl_align _ _ _) as [mz ez].
  destruct (binary_round_aux_sign false (Z.pos mz) ez loc_Exact)
    as [->|[(m' & e' & ->)|[->| ->]]]; [apply Hzero|apply Hmul|done|done].
Qed.

(** X10. [truncate_to_char_limit] returns a prefix of the content; its
    flag is [False] exactly when the content has at most [max_chars]
    characters, and then the content is returned as it is; for a limit
    that is not negative the result has at most [max_chars] characters.
    The call fails only on a content longer than a limit that is beyond
    the floats. *)
Theorem truncate_to_char_limit_bounds content max_chars :
  match Text.truncate_to_char_limit content max_chars with
  | Some (result, truncated) =>
    result `prefix_of` content
    /\ (truncated = false <-> Z.of_nat (length content) <= max_chars)
    /\ (truncated = false -> result = content)
    /\ (0 <= max_chars -> Z.of_nat (length result) <= max_chars)
  | None =>
    max_chars < Z.of_nat (length content) /\ 2 ^ 1024 - 2 ^ 970 <= Z.abs max_chars
  end.
Proof.
  unfold Text.truncate_to_char_limit.
  destruct (Z.leb_spec (Z.of_nat (length content)) max_chars) as [Hle|Hgt].
  { split; [done|]. split; [done|]. split; [done|]. lia. }
  unfold float_of_int. destruct (Z.ltb_spec (Z.abs max_chars) (2 ^ 1024 - 2 ^ 970)) as [Hr|Hr];
    [|by split].
  cbn [mbind option_bind].
  assert (Hlen : 0 <= max_chars ->
                 Z.of_nat (length (slice_to content max_chars)) <= max_chars).
  { intros H0. rewrite slice_to_nonneg, length_take by done. lia. }
  destruct (int_gt_float _ _).
  - split; [etrans; apply slice_to_prefix|]. split; [split; [done|lia]|]. split; [done|].
    intros H0. specialize (Hlen H0).
    pose proof (prefix_length _ _ (slice_to_prefix (slice_to content max_chars)
      (Z.max (Z.max (rfind 0x2E%N (slice_to content max_chars))
                    (rfind 0x21%N (slice_to content max_chars)))
             (rfind 0x3F%N (slice_to content max_chars)) + 1))). lia.
  - split; [apply slice_to_prefix|]. split; [split; [done|lia]|]. split; [done|]. exact Hlen.
Qed.

(** X11. For a limit that is not negative, a truncated result is
    either the first [max_chars] characters, or it ends with the last
    full stop, exclamation mark or question mark among them. *)
Theorem truncate_to_char_limit_sentence content max_chars result :
  0 <= max_chars ->
  Text.truncate_to_char_limit content max_chars = Some (result, true) ->
  let cut := take (Z.to_nat max_chars) content in
  result = cut
  \/ exists body mark,
       result = body ++ [mark] /\ mark ∈ sentence_marks
       /\ result `prefix_of` cut
       /\ forall c, c ∈ drop (length result) cut -> c ∉ sentence_marks.
Proof.
  intros Hmax. unfold Text.truncate_to_char_limit.
  destruct (Z.leb_spec (Z.of_nat (length content)) max_chars) as [Hle|Hgt]; [done|].
  rewrite slice_to_nonneg by done. intros H. cbv zeta.
  set (cut := take (Z.to_nat max_chars) content) in *.
  destruct (float_of_int max_chars) as [x|] eqn:Hx; [|done]. cbn [mbind option_bind] in H.
  set (last := Z.max (Z.max (rfind 0x2E%N cut) (rfind 0x21%N cut)) (rfind 0x3F%N cut)) in *.
  destruct (int_gt_float last _) eqn:Hgtf; [|left; by injection H as <-].
  right. injection H as <-.
  assert (Hlast : 0 <= last).
  { destruct (Z.ltb_spec last 0) as [Hneg|]; [|done].
    by rewrite (int_gt_float_nonneg last max_chars x) in Hgtf. }
  assert (Hmark : forall m, m ∈ sentence_marks -> rfind m cut <= last).
  { intros m Hm. unfold sentence_marks in Hm.
    repeat (apply elem_of_cons in Hm as [->|Hm]); [unfold last; lia..|].
    by apply elem_of_nil in Hm. }
  assert (Hsome : exists m, m ∈ sentence_marks /\ rfind m cut = last).
  { unfold sentence_marks, last.
    destruct (Z.max_spec (Z.max (rfind 0x2E%N cut) (rfind 0x21%N cut)) (rfind 0x3F%N cut))
      as [[_ ->]|[_ ->]].
    - exists 0x3F%N. split; [|done]. do 2 right. left.
    - destruct (Z.max_spec (rfind 0x2E%N cut) (rfind 0x21%N cut)) as [[_ ->]|[_ ->]].
      + exists 0x21%N. split; [|done]. right. left.
      + exists 0x2E%N. split; [|done]. left. }
  destruct Hsome as (m & Hm & Hrm).
  destruct (rfind_spec m cut) as [[Hneg _]|(k & Hk & Hcut & _)]; [lia|].
  rewrite slice_to_nonneg by lia.
  replace (Z.to_nat (last + 1)) with (S k) by lia.
  exists (take k cut), m. split; [by erewrite take_S_r|]. split; [done|].
  split; [apply prefix_take|].
  rewrite length_take. pose proof (lookup_lt_Some _ _ _ Hcut).
  replace (S k `min` length cut)%nat with (S k) by lia.
  intros c Hc Hcm.
  destruct (rfind_spec c cut) as [[_ Hnot]|(k' & Hk' & _ & Hnot)].
  - apply Hnot. apply list_elem_of_lookup in Hc as [j Hj]. rewrite lookup_drop in Hj.
    by apply list_elem_of_lookup_2 in Hj.
  - specialize (Hmark c Hcm). assert (k' <= k)%nat by lia.
    apply Hnot. apply list_elem_of_lookup in Hc as [j Hj]. rewrite lookup_drop in Hj.
    apply list_elem_of_lookup. exists (S k + j - S k')%nat. rewrite lookup_drop.
    rewrite <- Hj. f_equal. lia.
Qed.

Lemma truncate_to_char_limit_sentence_witness :
  ("Hello world." : str) = take (Z.to_nat 15) ("Hello world. This is a test" : str)
  \/ exists body mark,
       ("Hello world." : str) = body ++ [mark] /\ mark ∈ sentence_marks
       /\ ("Hello world." : str) `prefix_of` take (Z.to_nat 15) ("Hello world. This is a test" : str)
       /\ forall c, c ∈ drop (length ("Hello world." : str))
                          (take (Z.to_nat 15) ("Hello world. This is a test" : str)) ->
                    c ∉ sentence_marks.
Proof.
  apply (truncate_to_char_limit_sentence "Hello world. This is a test" 15 "Hello world.").
  - lia.
  - vm_compute. reflexivity.
Defined.

Example truncate_at_sentence :
  Text.truncate_to_char_limit "abcdefgh. ij" 10 = Some (("abcdefgh." : str), true).
Proof. vm_compute. reflexivity. Qed.

(** A full stop at index 7 is not beyond [10 * 0.7], which is 7.0. *)
Example truncate_early_sentence :
  Text.truncate_to_char_limit "abcdefg. hij" 10 = Some (("abcdefg. h" : str), true).
Proof. vm_compute. reflexivity. Qed.

(** A negative limit counts from the end; with no sentence end in what
    is left, -1 is beyond [-2 * 0.7] and nothing is kept. *)
Example truncate_negative_limit :
  Text.truncate_to_char_limit "abcdef" (-2) = Some (([] : str), true)
  /\ Text.truncate_to_char_limit "abcdef" (-1) = Some (("abcde" : str), true)
  /\ Text.truncate_to_char_limit "" (-1) = Some (([] : str), true).
Proof. vm_compute. repeat split; reflexivity. Qed.

(** The bound of [float_of_int] is where the nearest double becomes an
    infinity. *)
Example float_of_int_bound :
  binary_normalize 53 1024 (2 ^ 1024 - 2 ^ 970) 0 false = S754_infinity false
  /\ float_of_int (2 ^ 1024 - 2 ^ 970) = None
  /\ float_of_int (2 ^ 1024 - 2 ^ 970 - 1) = Some (S754_finite false 9007199254740991 971)
  /\ float_mul (S754_finite false 5629499534213120 (-49)) seven_tenths
     = S754_finite false 7881299347898368 (-50).
Proof. vm_compute. repeat split; reflexivity. Qed.

(** ** Code fences *)

Section FenceLemmas.
Variable isword : N -> bool.

Lemma in_str_cons needle c hay :
  in_str needle (c :: hay) = startswith needle (c :: hay) || in_str needle hay.
Proof. reflexivity. Qed.

Lemma startswith_app needle rest : startswith needle (needle ++ rest) = true.
Proof. induction needle as [|a needle IH]; [done|]. cbn. by rewrite N.eqb_refl. Qed.

Lemma startswith_prefix needle hay :
  startswith needle hay = true -> exists rest, hay = needle ++ rest.
Proof.
  revert hay. induction needle as [|a needle IH]; intros hay H; [by exists hay|].
  destruct hay as [|b hay]; [done|]. cbn in H.
  apply andb_prop in H as [->%N.eqb_eq H]. destruct (IH _ H) as [rest ->]. by exists rest.
Qed.

Lemma in_str_infix needle hay :
  in_str needle hay = true <-> exists a b, hay = a ++ needle ++ b.
Proof.
  split.
  - induction hay as [|c hay IH].
    + cbn. rewrite orb_false_r. intros [rest ->]%startswith_prefix. by exists [], rest.
    + rewrite in_str_cons. intros [H|H]%orb_prop.
      * apply startswith_prefix in H as [rest ->]. by exists [], rest.
      * destruct (IH H) as (a & b & ->). by exists (c :: a), b.
  - intros (a & b & ->). induction a as [|c a IH].
    + destruct (needle ++ b) eqn:E; cbn [app in_str]; rewrite <- ?E, startswith_app; done.
    + cbn [app]. rewrite in_str_cons, IH. apply orb_true_r.
Qed.

Lemma no_fence_infix a s b : in_str fence (a ++ s ++ b) = false -> in_str fence s = false.
Proof.
  intros H. apply not_true_is_false. intros (a' & b' & ->)%in_str_infix.
  apply not_true_iff_false in H. apply H. apply in_str_infix.
  exists (a ++ a'), (b' ++ b). by rewrite <- !app_assoc.
Qed.

Lemma lstrip_suffix s : exists a, s = a ++ lstrip s.
Proof.
  induction s as [|c s [a IH]]; [by exists []|]. cbn.
  destruct (isspace c); [|by exists []]. exists (c :: a). cbn [app]. f_equal. exact IH.
Qed.

Lemma rstrip_prefix s : exists b, s = rstrip s ++ b.
Proof.
  unfold rstrip. destruct (lstrip_suffix (reverse s)) as [a Ha].
  exists (reverse a). rewrite <- reverse_app, <- Ha. by rewrite reverse_involutive.
Qed.

Lemma strip_infix s : exists a b, s = a ++ strip s ++ b.
Proof.
  unfold strip. destruct (lstrip_suffix s) as [a Ha].
  destruct (rstrip_prefix (lstrip s)) as [b Hb]. exists a, b. by rewrite <- Hb.
Qed.

Lemma skip_length p s : (length (Re.skip p s) <= length s)%nat.
Proof. induction s as [|c s IH]; [done|]. cbn. destruct (p c); cbn; lia. Qed.

Lemma fence_here_Some text rest :
  Re.fence_here isword text = Some rest ->
  startswith fence text = true /\ (length rest + 3 <= length text)%nat.
Proof.
  unfold Re.fence_here. fold fence. destruct (startswith fence text) eqn:E; [|done].
  intros [= <-]. split; [done|].
  apply startswith_prefix in E as [r ->].
  etrans; [apply Nat.add_le_mono_r; etrans; apply skip_length|].
  rewrite length_drop, length_app. cbn. lia.
Qed.

Lemma fence_here_None text :
  Re.fence_here isword text = None <-> startswith fence text = false.
Proof. unfold Re.fence_here. fold fence. by destruct (startswith fence text). Qed.

Lemma fence_sub_from_nil fuel : Re.fence_sub_from isword fuel [] = [].
Proof. by destruct fuel. Qed.

(** A character that is copied: one at which no fence begins. *)
Lemma fence_sub_from_copy fuel c text :
  startswith fence (c :: text) = false ->
  Re.fence_sub_from isword (S fuel) (c :: text) = c :: Re.fence_sub_from isword fuel text.
Proof.
  intros H. cbn [Re.fence_sub_from]. by rewrite (proj2 (fence_here_None _) H).
Qed.

Lemma startswith_fence_1 c s : c <> 0x60%N -> startswith fence (c :: s) = false.
Proof.
  intros H. unfold fence. cbn [startswith].
  destruct (N.eqb_spec 0x60 c); [congruence|done].
Qed.

Lemma startswith_fence_2 c0 c s : c <> 0x60%N -> startswith fence (c0 :: c :: s) = false.
Proof.
  intros H. unfold fence. cbn [startswith].
  destruct (N.eqb_spec 0x60 c); [congruence|]. apply andb_false_r.
Qed.

Lemma startswith_fence_3 c0 c1 c s :
  c <> 0x60%N -> startswith fence (c0 :: c1 :: c :: s) = false.
Proof.
  intros H. unfold fence. cbn [startswith].
  destruct (N.eqb_spec 0x60 c); [congruence|]. cbn [andb]. by rewrite !andb_false_r.
Qed.

Lemma startswith_fence_short c0 c1 :
  startswith fence [c0] = false /\ startswith fence [c0; c1] = false.
Proof. unfold fence. cbn [startswith]. by rewrite !andb_false_r. Qed.

Lemma fence_sub_from_no_fence fuel text :
  (length text < fuel)%nat -> in_str fence (Re.fence_sub_from isword fuel text) = false.
Proof.
  revert text. induction fuel as [|fuel IH]; intros text Hfuel; [lia|].
  cbn [Re.fence_sub_from].
  destruct (Re.fence_here isword text) as [rest|] eqn:Hhere.
  { apply fence_here_Some in Hhere as [_ Hlen]. apply IH. lia. }
  apply fence_here_None in Hhere.
  destruct text as [|c text]; [reflexivity|]. cbn [length] in Hfuel.
  rewrite in_str_cons, IH by lia. rewrite orb_false_r.
  (* the copied character is followed by what the scan leaves of [text] *)
  destruct text as [|c1 text].
  { rewrite fence_sub_from_nil. apply (proj1 (startswith_fence_short c c)). }
  destruct fuel as [|fuel]; [cbn in Hfuel; lia|].
  destruct (decide (c1 = 0x60%N)) as [->|Hc1].
  2:{ rewrite fence_sub_from_copy by (by apply startswith_fence_1).
      by apply startswith_fence_2. }
  destruct text as [|c2 text].
  { rewrite fence_sub_from_copy by apply (proj1 (startswith_fence_short _ c)).
    rewrite fence_sub_from_nil. apply (proj2 (startswith_fence_short c _)). }
  destruct (decide (c = 0x60%N)) as [->|Hc]; [|by apply startswith_fence_1].
  assert (Hc2 : c2 <> 0x60%N).
  { intros ->. by cbn in Hhere. }
  rewrite fence_sub_from_copy by (by apply startswith_fence_2).
  destruct fuel as [|fuel]; [cbn in Hfuel; lia|].
  rewrite fence_sub_from_copy by (by apply startswith_fence_1).
  by apply startswith_fence_3.
Qed.

Lemma fence_sub_from_id fuel text :
  in_str fence text = false -> Re.fence_sub_from isword fuel text = text.
Proof.
  revert text. induction fuel as [|fuel IH]; intros text H; [done|].
  destruct text as [|c text]; [reflexivity|].
  rewrite in_str_cons in H. apply orb_false_elim in H as [Hs Hin].
  rewrite fence_sub_from_copy by done. by rewrite IH.
Qed.

Lemma strip_nil_or_tight s : strip s = [] \/ tight (strip s).
Proof.
  unfold strip. set (u := lstrip s).
  assert (Hu : u = [] \/ exists a t, u = a :: t /\ isspace a = false).
  { unfold u. induction s as [|c s IH]; [by left|]. cbn.
    destruct (isspace c) eqn:E; [exact IH|]. right. by exists c, s. }
  assert (Hr : forall v, rstrip v = [] \/ exists t b, rstrip v = t ++ [b] /\ isspace b = false).
  { intros v. unfold rstrip. induction (reverse v) as [|c w IH]; [by left|]. cbn [lstrip].
    destruct (isspace c) eqn:E; [exact IH|]. right. exists (reverse w), c.
    by rewrite reverse_cons. }
  destruct (Hr u) as [Hnil|(t & b & Ht & Hb)]; [by left|]. right.
  split; [|by exists t, b].
  destruct Hu as [Hu|(a & t' & Hu & Ha)].
  - rewrite Hu in Ht. by destruct t.
  - destruct (rstrip_prefix u) as [w Hw]. rewrite Hu in Hw at 1.
    destruct (rstrip u) as [|a' r]; [by destruct t|].
    injection Hw as <- _. by exists a, r.
Qed.

Lemma strip_idemp s : strip (strip s) = strip s.
Proof.
  destruct (strip_nil_or_tight s) as [->|H]; [reflexivity|]. by apply strip_tight.
Qed.

End FenceLemmas.

Section FenceUnwrap.
Variable isword : N -> bool.

Lemma fence_sub_from_enough fuel text :
  (length text < fuel)%nat -> Re.fence_sub_from isword fuel text = Re.fence_sub isword text.
Proof.
  intros H. unfold Re.fence_sub.
  assert (G : forall f1 f2 t, (length t < f1)%nat -> (length t < f2)%nat ->
                Re.fence_sub_from isword f1 t = Re.fence_sub_from isword f2 t).
  { induction f1 as [|f1 IH]; intros f2 t H1 H2; [lia|].
    destruct f2 as [|f2]; [lia|]. cbn [Re.fence_sub_from].
    destruct (Re.fence_here isword t) as [rest|] eqn:Hhere.
    - apply (fence_here_Some isword) in Hhere as [_ Hlen]. apply IH; lia.
    - destruct t as [|c t]; [done|]. cbn [length] in *. f_equal. apply IH; lia. }
  apply G; lia.
Qed.

Lemma fence_sub_copy c text :
  startswith fence (c :: text) = false ->
  Re.fence_sub isword (c :: text) = c :: Re.fence_sub isword text.
Proof.
  intros H. unfold Re.fence_sub at 1. rewrite fence_sub_from_copy by done.
  by rewrite fence_sub_from_enough by (cbn; lia).
Qed.

Lemma fence_sub_match text rest :
  Re.fence_here isword text = Some rest ->
  Re.fence_sub isword text = Re.fence_sub isword rest.
Proof.
  intros H. unfold Re.fence_sub at 1. cbn [Re.fence_sub_from]. rewrite H.
  apply (fence_here_Some isword) in H as [_ Hlen].
  apply fence_sub_from_enough. lia.
Qed.

Lemma startswith_app_other p u x rest :
  x ∉ p -> startswith p (u ++ x :: rest) = true -> startswith p u = true.
Proof.
  revert u. induction p as [|a p IH]; intros u Hx H; [done|].
  apply not_elem_of_cons in Hx as [Hne Hx].
  destruct u as [|b u]; cbn in H.
  - apply andb_prop in H as [->%N.eqb_eq _]. done.
  - apply andb_prop in H as [Hab H]. cbn. rewrite Hab. by apply IH.
Qed.

(** A stretch without a fence, closed by a line feed, is copied. *)
Lemma fence_sub_line u rest :
  in_str fence u = false ->
  Re.fence_sub isword (u ++ 0x0A%N :: rest) = u ++ 0x0A%N :: Re.fence_sub isword rest.
Proof.
  assert (Hlf : 0x0A%N ∉ fence).
  { unfold fence. by intros [[=]|[[=]|[[=]|?%elem_of_nil]%elem_of_cons]%elem_of_cons]%elem_of_cons. }
  induction u as [|c u IH]; intros Hu.
  - cbn [app]. apply fence_sub_copy. by apply startswith_fence_1.
  - rewrite in_str_cons in Hu. apply orb_false_elim in Hu as [Hs Hin].
    cbn [app]. rewrite fence_sub_copy, IH; [done..|].
    apply not_true_is_false. intros H. apply not_true_iff_false in Hs. apply Hs.
    by apply (startswith_app_other fence (c :: u) 0x0A%N rest).
Qed.

Lemma skip_all p (s rest : str) :
  Forall (fun c => p c = true) s -> Re.skip p (s ++ rest) = Re.skip p rest.
Proof. induction 1 as [|c s Hc _ IH]; [done|]. cbn. by rewrite Hc. Qed.

Lemma skip_isspace s : Re.skip isspace s = lstrip s.
Proof. induction s as [|c s IH]; [done|]. cbn. by rewrite IH. Qed.

Lemma lstrip_app_nonblank s rest : lstrip s <> [] -> lstrip (s ++ rest) = lstrip s ++ rest.
Proof.
  induction s as [|c s IH]; [done|]. cbn. destruct (isspace c); [exact IH|done].
Qed.

Lemma lstrip_app_blank s rest : lstrip s = [] -> lstrip (s ++ rest) = lstrip rest.
Proof.
  induction s as [|c s IH]; [done|]. cbn. destruct (isspace c); [exact IH|done].
Qed.

Lemma lstrip_idemp s : lstrip (lstrip s) = lstrip s.
Proof.
  induction s as [|c s IH]; [done|]. cbn. destruct (isspace c) eqn:E; [exact IH|].
  cbn. by rewrite E.
Qed.

Lemma strip_blank s : lstrip s = [] -> strip s = [].
Proof. intros H. unfold strip. by rewrite H. Qed.

Lemma fence_sub_fence : Re.fence_sub isword fence = [].
Proof. reflexivity. Qed.

End FenceUnwrap.

(** X12. The result of [clean_markdown_fences] never holds three
    backticks in a row: removing a fence cannot bring the backticks
    around it together into a new one. *)
Theorem clean_markdown_fences_no_fence isword text :
  in_str fence (Text.clean_markdown_fences isword text) = false.
Proof.
  unfold Text.clean_markdown_fences.
  destruct (strip_infix (Re.fence_sub isword text)) as (a & b & H).
  apply (no_fence_infix a _ b). rewrite <- H.
  apply fence_sub_from_no_fence. lia.
Qed.

(** X13. On a text without a fence, [clean_markdown_fences] is
    [strip]; on any text, cleaning twice is cleaning once. *)
Theorem clean_markdown_fences_idempotent isword text :
  (in_str fence text = false -> Text.clean_markdown_fences isword text = strip text)
  /\ Text.clean_markdown_fences isword (Text.clean_markdown_fences isword text)
     = Text.clean_markdown_fences isword text.
Proof.
  assert (H : forall t, in_str fence t = false ->
                        Text.clean_markdown_fences isword t = strip t).
  { intros t Ht. unfold Text.clean_markdown_fences, Re.fence_sub.
    by rewrite fence_sub_from_id. }
  split; [apply H|].
  assert (Hclean : in_str fence (Text.clean_markdown_fences isword text) = false).
  { unfold Text.clean_markdown_fences.
    destruct (strip_infix (Re.fence_sub isword text)) as (a & b & Hab).
    apply (no_fence_infix a _ b). rewrite <- Hab.
    apply fence_sub_from_no_fence. lia. }
  rewrite (H _ Hclean).
  apply strip_idemp.
Qed.

Lemma clean_markdown_fences_idempotent_witness :
  Text.clean_markdown_fences Re.ascii_isword "a | b" = strip "a | b".
Proof.
  apply (proj1 (clean_markdown_fences_idempotent Re.ascii_isword "a | b")).
  vm_compute. reflexivity.
Defined.

(** X14. A text inside a fenced block, the opening fence followed by a
    language tag of word characters, comes out of the block: the result
    is the text, stripped. *)
Theorem clean_markdown_fences_unwraps isword lang body :
  Forall (fun c => isword c = true) lang ->
  isword 0x0A%N = false ->
  in_str fence body = false ->
  Text.clean_markdown_fences isword (fence ++ lang ++ "\n" ++ body ++ "\n" ++ fence)
  = strip body.
Proof.
  intros Hlang Hlf Hbody. unfold Text.clean_markdown_fences.
  rewrite lit_line_feed.
  rewrite (fence_sub_match isword _ (lstrip (body ++ [0x0A%N] ++ fence))).
  2:{ unfold Re.fence_here. change [0x60; 0x60; 0x60]%N with fence.
      rewrite startswith_app. f_equal.
      rewrite drop_app_length' by reflexivity.
      rewrite skip_all by done. cbn [app Re.skip]. rewrite Hlf.
      rewrite skip_isspace. cbn [lstrip].
      replace (isspace 0x0A%N) with true by reflexivity. reflexivity. }
  destruct (lstrip body) as [|a u] eqn:Hl.
  - rewrite lstrip_app_blank by done.
    change (lstrip ([0x0A%N] ++ fence)) with fence.
    rewrite fence_sub_fence. symmetry. by apply strip_blank.
  - rewrite lstrip_app_nonblank by (by rewrite Hl). rewrite Hl. cbn [app].
    change (a :: u ++ 0x0A%N :: fence) with ((a :: u) ++ 0x0A%N :: fence).
    rewrite fence_sub_line, fence_sub_fence.
    2:{ destruct (lstrip_suffix body) as [pre Hpre]. rewrite Hl in Hpre.
        apply (no_fence_infix pre _ []). by rewrite app_nil_r, <- Hpre. }
    cbn [app]. unfold strip at 1. rewrite lstrip_nonspace.
    2:{ pose proof (lstrip_idemp body) as H.
        rewrite Hl in H. cbn [lstrip] in H. destruct (isspace a); [|done].
        exfalso. destruct (lstrip_suffix u) as [pre Hpre]. rewrite H in Hpre.
        apply (f_equal length) in Hpre. rewrite length_app in Hpre. cbn in Hpre. lia. }
    rewrite app_comm_cons, rstrip_snoc_space by reflexivity.
    unfold strip. by rewrite Hl.
Qed.

Lemma clean_markdown_fences_unwraps_witness :
  Text.clean_markdown_fences Re.ascii_isword
    (fence ++ ("html" : str) ++ "\n" ++ ("<p>x</p>" : str) ++ "\n" ++ fence)
  = strip "<p>x</p>".
Proof.
  apply clean_markdown_fences_unwraps.
  - repeat constructor.
  - reflexivity.
  - vm_compute. reflexivity.
Defined.

Example clean_markdown_fences_table :
  Text.clean_markdown_fences Re.ascii_isword "```text\nTea | 4\nCoffee | 5\n```"
  = "Tea | 4\nCoffee | 5".
Proof. vm_compute. reflexivity. Qed.

(** ** The HTML table *)

Lemma foldl_app_concat {A} (f : A -> list str) (acc : list str) (l : list A) :
  foldl (fun acc x => acc ++ f x) acc l = acc ++ List.concat (f <$> l).
Proof.
  revert acc. induction l as [|x l IH]; intros acc; cbn; [by rewrite app_nil_r|].
  by rewrite IH, <- app_assoc.
Qed.

Lemma build_table_html_lines rows columns :
  rows <> [] -> columns <> [] ->
  Html.build_table_html rows columns
  = join "\n" (html_table_lines (header <$> columns)
                 (Markdown.row_values columns <$> rows)).
Proof.
  intros Hr Hc. unfold Html.build_table_html, html_table_lines. cbv zeta.
  destruct rows as [|row rows]; [done|]. destruct columns as [|col columns]; [done|].
  cbn [is_empty orb]. set (cols := col :: columns). set (rws := row :: rows).
  rewrite (foldl_snoc (fun col => "      <th>" ++ header col ++ "</th>")).
  rewrite (foldl_ext_all _
             (fun acc row => acc ++ ((["    <tr>"] : list str)
                 ++ ((fun v => "      <td>" ++ v ++ "</td>") <$> Markdown.row_values cols row)
                 ++ (["    </tr>"] : list str)))).
  2:{ intros acc r.
      rewrite (foldl_snoc (fun col =>
                 "      <td>"
                 ++ (let value := get r (name col) "" in
                     if bool_decide (type col = "stars")
                     then Html.value_to_stars value else value)
                 ++ "</td>")).
      rewrite row_values_fmap, <- list_fmap_compose, <- !app_assoc. reflexivity. }
  rewrite (foldl_app_concat
             (fun row => (["    <tr>"] : list str)
                 ++ ((fun v => "      <td>" ++ v ++ "</td>") <$> Markdown.row_values cols row)
                 ++ (["    </tr>"] : list str))).
  rewrite <- !list_fmap_compose, <- !app_assoc. reflexivity.
Qed.

Lemma join_ends sep a l b : exists x, join sep (a :: l ++ [b]) = a ++ x ++ b.
Proof.
  revert a. induction l as [|c l IH]; intros a.
  - exists sep. reflexivity.
  - destruct (IH c) as [x Hx]. exists (sep ++ c ++ x).
    cbn [app]. rewrite join_cons_cons. cbn [app] in Hx. rewrite Hx.
    by rewrite <- !app_assoc.
Qed.

Lemma html_table_lines_ends headers cells :
  exists mid, html_table_lines headers cells
              = ("<table class=\qtable table-striped\q>" : str) :: mid ++ [("</table>" : str)].
Proof.
  unfold html_table_lines. cbv zeta. cbn [app].
  eexists (_ :: _ :: (_ <$> headers) ++ _ :: _ :: _ :: List.concat _ ++ [_]).
  cbn [app]. do 3 f_equal. rewrite <- !app_assoc. cbn [app]. do 4 f_equal.
  by rewrite <- app_assoc.
Qed.

Lemma lit_table_tags :
  ("<table class=\qtable table-striped\q>" : str)
  = 0x3C%N :: ("table class=\qtable table-striped\q>" : str)
  /\ ("</table>" : str) = ("</table" : str) ++ [0x3E%N].
Proof. split; vm_compute; reflexivity. Qed.

Lemma tight_join_ends sep a0 a l b b0 :
  isspace a0 = false -> isspace b0 = false ->
  tight (join sep ((a0 :: a) :: l ++ [b ++ [b0]])).
Proof.
  intros Ha Hb. destruct (join_ends sep (a0 :: a) l (b ++ [b0])) as [x ->]. split.
  - by exists a0, (a ++ x ++ b ++ [b0]).
  - exists ((a0 :: a) ++ x ++ b), b0. split; [|done]. by rewrite <- !app_assoc.
Qed.

Lemma tight_build_table_html rows columns :
  rows <> [] -> columns <> [] -> tight (Html.build_table_html rows columns).
Proof.
  intros Hr Hc. rewrite build_table_html_lines by done.
  destruct (html_table_lines_ends (header <$> columns) (Markdown.row_values columns <$> rows))
    as [mid ->].
  rewrite (proj1 lit_table_tags), (proj2 lit_table_tags).
  by apply tight_join_ends.
Qed.

Lemma bracketed_build_table_md rows columns :
  rows <> [] -> columns <> [] -> bracketed (Markdown.build_table_md rows columns).
Proof.
  intros Hr Hc. rewrite build_table_md_lines by done.
  apply join_bracketed; [by destruct rows|].
  apply Forall_fmap, Forall_forall. intros c _. apply table_line_bracketed.
Qed.

(** X15. Each table builder gives the empty string exactly when there
    are no rows or no columns.  Otherwise the HTML table shows, row by
    row, the cells of the Markdown table, stars rendering included, each
    between [<td>] and [</td>] as it is, under the headers between [<th>]
    and [</th>]. *)
Theorem build_table_html_cells rows columns :
  (Html.build_table_html rows columns = "" <-> rows = [] \/ columns = [])
  /\ (Markdown.build_table_md rows columns = "" <-> rows = [] \/ columns = [])
  /\ (rows <> [] -> columns <> [] ->
      Html.build_table_html rows columns
      = join "\n" (html_table_lines (header <$> columns)
                     (Markdown.row_values columns <$> rows))).
Proof.
  split; [|split; [|apply build_table_html_lines]].
  - split.
    + intros H. destruct rows as [|row rows]; [by left|].
      destruct columns as [|col columns]; [by right|]. exfalso.
      destruct (tight_build_table_html (row :: rows) (col :: columns))
        as [(a & t & Ha & _) _]; [done..|].
      rewrite Ha in H. done.
    + intros [->| ->]; [reflexivity|]. unfold Html.build_table_html. by destruct rows.
  - split.
    + intros H. destruct rows as [|row rows]; [by left|].
      destruct columns as [|col columns]; [by right|]. exfalso.
      destruct (bracketed_build_table_md (row :: rows) (col :: columns)) as [m Hm]; [done..|].
      rewrite Hm in H. done.
    + intros [->| ->]; [reflexivity|]. unfold Markdown.build_table_md. by destruct rows.
Qed.

Lemma build_table_html_cells_witness :
  Html.build_table_html xy_rows two_columns
  = join "\n" (html_table_lines (header <$> two_columns)
                 (Markdown.row_values two_columns <$> xy_rows)).
Proof.
  by apply (proj2 (proj2 (build_table_html_cells xy_rows two_columns))).
Defined.

(** ** The table block of the documents *)

Lemma strip_build_table_md rows columns :
  strip (Markdown.build_table_md rows columns) = Markdown.build_table_md rows columns.
Proof.
  destruct rows as [|row rows]; [reflexivity|].
  destruct columns as [|col columns]; [reflexivity|].
  destruct (bracketed_build_table_md (row :: rows) (col :: columns)) as [m ->]; [done..|].
  by apply strip_bracketed.
Qed.

(** X16. The documents carry a table block exactly when the text filed
    under [table], cleaned of its fences, parses to at least one row and
    the table has columns; the block then holds the built table as it
    is.  Without a [table] result, or with one that has no line to
    parse, there is no block. *)
Theorem document_table_block isword results config :
  let content := Main.organize isword results config in
  let columns := columns (table config) in
  let rows :=
    match results !! ("table" : str) with
    | Some text =>
      Text.parse_table_data (Text.clean_markdown_fences isword text) columns
    | None => []
    end in
  md_table_block "Comparison" (Generated.table_md content)
  = (if is_empty rows || is_empty columns then []
     else ["## Comparison"; ""; Markdown.build_table_md rows columns; ""])
  /\ html_table_block "Comparison" (Generated.table_html content)
     = (if is_empty rows || is_empty columns then []
        else ["<div class=\qcomparison-table\q>"; "<h2>Comparison</h2>";
              Html.build_table_html rows columns; "</div>"; ""]).
Proof.
  intros content cols rows. unfold content, Main.organize. cbv zeta.
  fold cols. unfold rows.
  destruct (results !! ("table" : str)) as [text|];
    cbn [Generated.table_md Generated.table_html]; [|done].
  set (rs := Text.parse_table_data _ _).
  destruct rs as [|row rs]; [done|]. destruct cols as [|col cols]; [by destruct rs|].
  cbn [is_empty orb]. unfold md_table_block, html_table_block.
  rewrite strip_build_table_md.
  destruct (tight_build_table_html (row :: rs) (col :: cols)) as [Hh Ht]; [done..|].
  rewrite (strip_tight _ (conj Hh Ht)).
  destruct Hh as (a & t & Ha & _).
  destruct (bracketed_build_table_md (row :: rs) (col :: cols)) as [m Hm]; [done..|].
  split.
  - rewrite Hm. cbn [is_empty negb andb]. by rewrite <- Hm.
  - rewrite Ha. cbn [is_empty negb andb]. rewrite <- Ha.
    do 2 f_equal.
Qed.

(** ** The documents *)

Lemma build_full_md_blocks ieq title content headings keywords table_header :
  Markdown.build_full_md ieq title content headings keywords table_header
  = join "\n"
      ((["# " ++ title; ""; Markdown.text_to_md ieq (Generated.intro content) keywords; ""]
          : list str)
       ++ md_table_block table_header (Generated.table_md content)
       ++ List.concat ((fun '(heading, text) => md_section_block ieq keywords heading text)
                         <$> zip headings (Generated.sections content))
       ++ (["## Conclusion"; "";
            Markdown.text_to_md ieq (Generated.conclusion content) keywords] : list str)).
Proof.
  unfold Markdown.build_full_md, md_table_block. cbv zeta.
  rewrite (foldl_ext_all _
             (fun acc hs => acc ++ (let '(heading, text) := hs in
                                    md_section_block ieq keywords heading text))).
  2:{ intros acc [h s]. reflexivity. }
  rewrite (foldl_app_concat (fun hs : str * str =>
             let '(heading, text) := hs in md_section_block ieq keywords heading text)).
  destruct (negb _ && negb _); by rewrite <- ?app_assoc.
Qed.

Lemma build_full_html_blocks ieq title content headings keywords table_header
    conclusion_header :
  Html.build_full_html ieq title content headings keywords table_header conclusion_header
  = join "\n"
      ((["<h1>" ++ title ++ "</h1>"; ""; "<div class=\qintro\q>";
         Html.text_to_html ieq (Generated.intro content) keywords; "</div>"; ""] : list str)
       ++ html_table_block table_header (Generated.table_html content)
       ++ List.concat ((fun '(heading, text) => html_section_block ieq keywords heading text)
                         <$> zip headings (Generated.sections content))
       ++ (["<div class=\qconclusion\q>"; "<h2>" ++ conclusion_header ++ "</h2>";
            Html.text_to_html ieq (Generated.conclusion content) keywords; "</div>"]
             : list str)).
Proof.
  unfold Html.build_full_html, html_table_block. cbv zeta.
  rewrite (foldl_ext_all _
             (fun acc hs => acc ++ (let '(heading, text) := hs in
                                    html_section_block ieq keywords heading text))).
  2:{ intros acc [h s]. reflexivity. }
  rewrite (foldl_app_concat (fun hs : str * str =>
             let '(heading, text) := hs in html_section_block ieq keywords heading text)).
  destruct (negb _ && negb _); by rewrite <- ?app_assoc.
Qed.

Lemma zip_take_min {A B} (l : list A) (k : list B) :
  zip (take (length l `min` length k) l) (take (length l `min` length k) k) = zip l k.
Proof.
  revert k. induction l as [|x l IH]; intros k; [done|].
  destruct k as [|y k]; [done|]. cbn. f_equal. apply IH.
Qed.

(** X17. Both document builders pair the headings with the section
    texts by position and leave out what has no partner: headings beyond
    the texts and texts beyond the headings do not reach the document. *)
Theorem build_full_surplus_dropped ieq title content headings keywords table_header
    conclusion_header :
  let n := (length headings `min` length (Generated.sections content))%nat in
  let content' := with_sections content (take n (Generated.sections content)) in
  Markdown.build_full_md ieq title content headings keywords table_header
  = Markdown.build_full_md ieq title content' (take n headings) keywords table_header
  /\ Html.build_full_html ieq title content headings keywords table_header conclusion_header
     = Html.build_full_html ieq title content' (take n headings) keywords table_header
         conclusion_header.
Proof.
  intros n content'.
  rewrite !build_full_md_blocks, !build_full_html_blocks.
  unfold content', with_sections, n. cbn [Generated.intro Generated.table_md
    Generated.table_html Generated.sections Generated.conclusion].
  by rewrite zip_take_min.
Qed.

Lemma zip_fmap_seq {A B C} (f : A -> B) (g : nat -> C) (l : list A) :
  zip (f <$> l) (g <$> seq 0 (length l)) = imap (fun i x => (f x, g i)) l.
Proof.
  apply list_eq. intros i.
  rewrite list_lookup_imap, lookup_zip_with, !list_lookup_fmap.
  destruct (l !! i) as [x|] eqn:Hx; [|done].
  rewrite lookup_seq_lt by (by eapply lookup_lt_Some). done.
Qed.

Lemma organize_zip isword results config :
  zip (headings config) (Generated.sections (Main.organize isword results config))
  = imap (fun i section => (heading section, text_of results (section_name i)))
         (sections config).
Proof.
  unfold Main.organize, headings, Main.range. cbv zeta.
  destruct (results !! ("table" : str)); cbn [Generated.sections];
    apply (zip_fmap_seq heading (fun i => text_of results (section_name i))).
Qed.

(** X18. In the document built from the results of a batch, every
    section of the configuration has its block, in the order of the
    configuration: the heading of section [i] over the text filed under
    [section_i], or over nothing when there is none.  The introduction
    and the conclusion are the texts under [intro] and [conclusion]. *)
Theorem document_sections ieq isword results config keywords :
  let content := Main.organize isword results config in
  Markdown.build_full_md ieq (title config) content (headings config) keywords "Comparison"
  = join "\n"
      ((["# " ++ title config; "";
         Markdown.text_to_md ieq (text_of results "intro") keywords; ""] : list str)
       ++ md_table_block "Comparison" (Generated.table_md content)
       ++ List.concat
            (imap (fun i section =>
                     md_section_block ieq keywords (heading section)
                       (text_of results (section_name i)))
                  (sections config))
       ++ (["## Conclusion"; "";
            Markdown.text_to_md ieq (text_of results "conclusion") keywords] : list str))
  /\ Html.build_full_html ieq (title config) content (headings config) keywords
       "Comparison" "Conclusion"
     = join "\n"
         ((["<h1>" ++ title config ++ "</h1>"; ""; "<div class=\qintro\q>";
            Html.text_to_html ieq (text_of results "intro") keywords; "</div>"; ""]
             : list str)
          ++ html_table_block "Comparison" (Generated.table_html content)
          ++ List.concat
               (imap (fun i section =>
                        html_section_block ieq keywords (heading section)
                          (text_of results (section_name i)))
                     (sections config))
          ++ (["<div class=\qconclusion\q>"; "<h2>" ++ ("Conclusion" : str) ++ "</h2>";
               Html.text_to_html ieq (text_of results "conclusion") keywords; "</div>"]
                : list str)).
Proof.
  intros content. unfold content.
  rewrite build_full_md_blocks, build_full_html_blocks, organize_zip.
  rewrite !fmap_imap.
  assert (Hi : Generated.intro (Main.organize isword results config)
               = text_of results "intro").
  { unfold Main.organize. cbv zeta. by destruct (results !! ("table" : str)). }
  assert (Hc : Generated.conclusion (Main.organize isword results config)
               = text_of results "conclusion").
  { unfold Main.organize. cbv zeta. by destruct (results !! ("table" : str)). }
  rewrite Hi, Hc. split; reflexivity.
Qed.

(** ** Configuration files *)

Lemma check_fields_ok data fields :
  Config.check_fields data fields = inr tt
  <-> forall field, field ∈ fields -> is_Some (data !! field).
Proof.
  induction fields as [|f fields IH]; cbn [Config.check_fields].
  - split; [intros _ field Hin; by apply elem_of_nil in Hin|done].
  - destruct (data !! f) as [v|] eqn:Hf.
    + rewrite IH. split.
      * intros H field [->|Hin]%elem_of_cons; [by rewrite Hf|by apply H].
      * intros H field Hin. apply H. by right.
    + split; [done|]. intros H. destruct (H f) as [v Hv]; [by left|congruence].
Qed.

Lemma check_fields_error data fields e :
  Config.check_fields data fields = inl e ->
  exists field, field ∈ fields /\ data !! field = None /\ e = missing field.
Proof.
  induction fields as [|f fields IH]; cbn [Config.check_fields]; [done|].
  destruct (data !! f) as [v|] eqn:Hf.
  - intros H. destruct (IH H) as (field & Hin & Hnone & ->).
    exists field. split; [by right|done].
  - intros [= <-]. exists f. split; [by left|done].
Qed.

Lemma eq_str_spec v s : Config.eq_str v s = true <-> v = Str s.
Proof.
  destruct v; cbn; try (split; [done|intros [=]]).
  rewrite bool_decide_eq_true. split; [by intros ->|by intros [= ->]].
Qed.

(** X19. [validate_config] lets a configuration through exactly when
    it has the four required fields, its [output], if given, is the
    string [html] or [md], and its [language], if given, is a string
    that is not blank.  Nothing else is checked: neither the types of the
    required fields nor any other key. *)
Theorem validate_config_accepts str_of_value data :
  Config.validate_config str_of_value data = inr tt <-> accepted data.
Proof.
  unfold Config.validate_config, accepted. cbv zeta.
  destruct (data !! ("sections" : str)) as [sections|] eqn:Hs.
  2:{ split; [done|]. intros (Hreq & _). destruct (Hreq "sections") as [v Hv].
      - unfold REQUIRED_CONFIG_FIELDS. do 3 right. left.
      - congruence. }
  destruct (Config.check_fields data REQUIRED_CONFIG_FIELDS) as [e|[]] eqn:Hc.
  { split; [done|]. intros (Hreq & _).
    pose proof (proj2 (check_fields_ok data REQUIRED_CONFIG_FIELDS) Hreq). congruence. }
  pose proof (proj1 (check_fields_ok data REQUIRED_CONFIG_FIELDS) Hc) as Hreq.
  assert (Hout : existsb (Config.eq_str (default (Str "html") (data !! ("output" : str))))
                   ["html"; "md"] = true
                 <-> data !! ("output" : str) = None
                     \/ data !! ("output" : str) = Some (Str "html")
                     \/ data !! ("output" : str) = Some (Str "md")).
  { destruct (data !! ("output" : str)) as [v|]; unfold default; cbn [existsb from_option id].
    - rewrite orb_false_r, orb_true_iff, !eq_str_spec.
      split; [intros [->| ->]; auto|]. intros [?|[[= ->]|[= ->]]]; [done|by left|by right].
    - split; [by left|]. intros _. vm_compute. reflexivity. }
  destruct (existsb _ _) eqn:Hex; cbn [negb].
  2:{ split; [done|]. intros (_ & Ho & _). apply Hout in Ho. congruence. }
  assert (Ho := proj1 Hout eq_refl). clear Hout.
  destruct (data !! ("language" : str)) as [v|] eqn:Hl; unfold default; cbn [from_option id].
  - destruct v as [| | | |s| |];
      try (split; [done|]; intros (_ & _ & [?|(s' & [=] & _)]); done).
    destruct (strip s) as [|c t] eqn:Hstrip; cbn [is_empty].
    + split; [done|]. intros (_ & _ & [?|(s' & [= <-] & Hne)]); [done|congruence].
    + split; [|done]. intros _. split; [done|]. split; [done|]. right. exists s.
      split; [done|]. by rewrite Hstrip.
  - replace (is_empty (strip "English")) with false by (vm_compute; reflexivity).
    split; [|done]. intros _. split; [done|]. split; [done|]. by left.
Qed.

Lemma validate_config_accepts_witness :
  Config.validate_config (fun _ => "") minimal_data = inr tt.
Proof.
  apply (proj2 (validate_config_accepts (fun _ => "") minimal_data)).
  split; [|split; [by left|by left]].
  intros field Hin. unfold REQUIRED_CONFIG_FIELDS in Hin.
  repeat (apply elem_of_cons in Hin as [->|Hin]; [by eexists|]).
  by apply elem_of_nil in Hin.
Defined.

(** X20. A configuration without [sections] gets the old-format error
    whatever else it holds, so the error that names a missing field
    never names [sections]; with [sections] present, a missing [title],
    [intro_words] or [conclusion_words] is reported by the error that
    names a missing field. *)
Theorem validate_config_sections_first str_of_value data :
  (data !! ("sections" : str) = None ->
   Config.validate_config str_of_value data = inl old_format)
  /\ Config.validate_config str_of_value data <> inl (missing "sections")
  /\ (is_Some (data !! ("sections" : str)) ->
      forall field, field ∈ other_required ->
      data !! field = None ->
      exists field', field' ∈ other_required
        /\ data !! field' = None
        /\ Config.validate_config str_of_value data = inl (missing field')).
Proof.
  split; [|split].
  - intros Hs. unfold Config.validate_config. by rewrite Hs.
  - unfold Config.validate_config. cbv zeta.
    destruct (data !! ("sections" : str)) as [sections|] eqn:Hs.
    2:{ intros H. vm_compute in H. discriminate H. }
    destruct (Config.check_fields data REQUIRED_CONFIG_FIELDS) as [e|[]] eqn:Hc.
    { apply check_fields_error in Hc as (field & Hin & Hnone & ->).
      unfold REQUIRED_CONFIG_FIELDS in Hin.
      repeat (apply elem_of_cons in Hin as [->|Hin];
              [first [congruence|intros H; vm_compute in H; discriminate H]|]).
      by apply elem_of_nil in Hin. }
    destruct (negb _).
    { intros H. vm_compute in H. discriminate H. }
    destruct (default _ _); try (intros H; vm_compute in H; discriminate H).
    destruct (is_empty _); [|done]. intros H. vm_compute in H. discriminate H.
  - intros [sections Hs] field Hin Hnone. unfold Config.validate_config. rewrite Hs.
    destruct (Config.check_fields data REQUIRED_CONFIG_FIELDS) as [e|[]] eqn:Hc.
    + apply check_fields_error in Hc as (field' & Hin' & Hnone' & ->).
      exists field'. split; [|done]. unfold REQUIRED_CONFIG_FIELDS in Hin'. unfold other_required.
      apply elem_of_cons in Hin' as [->|Hin']; [by left|].
      apply elem_of_cons in Hin' as [->|Hin']; [right; by left|].
      apply elem_of_cons in Hin' as [->|Hin']; [do 2 right; by left|].
      apply list_elem_of_singleton in Hin' as ->. congruence.
    + pose proof (proj1 (check_fields_ok data REQUIRED_CONFIG_FIELDS) Hc) as Hreq.
      destruct (Hreq field) as [v Hv]; [|congruence].
      unfold REQUIRED_CONFIG_FIELDS. unfold other_required in Hin.
      repeat (apply elem_of_cons in Hin as [->|Hin]; [set_solver|]).
      by apply elem_of_nil in Hin.
Qed.


Lemma validate_config_sections_first_witness :
  Config.validate_config (fun _ => "") ∅ = inl old_format.
Proof.
  by apply (proj1 (validate_config_sections_first (fun _ => "") ∅)).
Defined.

(** ** From the batch to the sections *)

Lemma tasks_lookup_section lower config i section :
  sections config !! i = Some section ->
  exists k,
    Main.tasks lower config !! k
    = Some (section_name i,
            Prompts.build_section_prompt lower (title config) (heading section)
              (words section) (Z.of_nat i) (Z.of_nat (length (sections config)))
              (take i (headings config)) (seo config) (placeholders config)
              (language config)).
Proof.
  intros Hi. unfold Main.tasks. cbv zeta. rewrite section_tasks_imap.
  set (pre := if 0 <? _ then _ else _).
  exists (length pre + i)%nat.
  rewrite lookup_app_l.
  2:{ rewrite length_app, length_imap. apply lookup_lt_Some in Hi. lia. }
  rewrite lookup_app_r by lia.
  replace (length pre + i - length pre)%nat with i by lia.
  rewrite list_lookup_imap, Hi. cbn [fmap option_fmap option_map].
  unfold headings. rewrite fmap_take. reflexivity.
Qed.

(** X21. When the batch over the tasks of a configuration succeeds with
    texts, [generate_all_content] files one text per section of the
    configuration, and the text at position [i] is the one generated for
    the prompt built for section [i], whatever the order in which the
    tasks completed. *)
Theorem generate_all_content_sections lower isword net pbar client config results :
  fst (generate_batch net (Main.tasks lower config) pbar client) = inr (Str <$> results) ->
  let content := Main.organize isword results config in
  length (Generated.sections content) = length (sections config)
  /\ forall i section, sections config !! i = Some section ->
       exists k text,
         Main.tasks lower config !! k
         = Some (section_name i,
                 Prompts.build_section_prompt lower (title config) (heading section)
                   (words section) (Z.of_nat i) (Z.of_nat (length (sections config)))
                   (take i (headings config)) (seo config) (placeholders config)
                   (language config))
         /\ fst (generate (net k)
                   (Prompts.build_section_prompt lower (title config) (heading section)
                      (words section) (Z.of_nat i) (Z.of_nat (length (sections config)))
                      (take i (headings config)) (seo config) (placeholders config)
                      (language config))
                   None pbar {| self := client; log := [] |})
            = inr (Str text)
         /\ Generated.sections content !! i = Some text.
Proof.
  intros Hbatch content.
  assert (Hsec : Generated.sections content
                 = (fun i => text_of results (section_name i))
                     <$> seq 0 (length (sections config))).
  { unfold content, Main.organize. cbv zeta.
    by destruct (results !! ("table" : str)). }
  split; [by rewrite Hsec, length_fmap, length_seq|].
  intros i section Hi.
  destruct (tasks_lookup_section lower config i section Hi) as [k Hk].
  assert (Hnd : NoDup (Main.tasks lower config).*1).
  { rewrite tasks_names. apply NoDup_task_names. }
  destruct (generate_batch_lookup _ _ _ _ _ k _ _ Hbatch Hk) as (c & Hgen & Hout).
  { intros j name' prompt' Hlt Hj ->.
    assert (H1 : (Main.tasks lower config).*1 !! k = Some (section_name i))
      by (by rewrite list_lookup_fmap, Hk).
    assert (H2 : (Main.tasks lower config).*1 !! j = Some (section_name i))
      by (by rewrite list_lookup_fmap, Hj).
    pose proof (NoDup_lookup _ _ _ _ Hnd H1 H2). lia. }
  rewrite lookup_fmap in Hout.
  destruct (results !! section_name i) as [text|] eqn:Hr; [|done].
  injection Hout as <-. exists k, text. split; [exact Hk|]. split; [exact Hgen|].
  rewrite Hsec, list_lookup_fmap, lookup_seq_lt by (by eapply lookup_lt_Some).
  cbn [fmap option_fmap option_map Nat.add]. unfold text_of. by rewrite Hr.
Qed.

Lemma generate_all_content_sections_witness :
  length (Generated.sections (Main.organize Re.ascii_isword three_texts one_section))
  = length (sections one_section).
Proof.
  refine (proj1 (generate_all_content_sections (fun s => s) Re.ascii_isword
                   (fun _ _ => Body (completion "text")) None (self opened_client)
                   one_section three_texts _)).
  vm_compute. reflexivity.
Defined.
